(** * Resilient message delivery: a shallow embedding of the TypeScript sources

    The development follows the classes of the delivery subsystem:
    - [RateLimiter]            (src/utils/RateLimiter.ts)
    - [CircuitBreakerService]  (services/CircuitBreakerService.ts)
    - [RabbitMQErrorHandler]   (src/utils/RabbitMQErrorHandler.ts)
    - [UnifiedConsumer]        (services/UnifiedConsumer.ts, error path)
    - [DeadLetterQueue]        (services/DeadLetterQueue.ts)
    - [DLQManager]             (services/DLQManager.ts)
    - [RedisConsumer], [MessageBridge] (the RabbitMQ -> Redis -> database relay)
    - [SessionManager]         (services/SessionManager.ts, the send path)

    Numbers are JavaScript integers held in doubles, modelled as [Z];
    [Date.now()] readings are milliseconds since the epoch.  Effects
    (clock, key-value store, broker channel) are threaded explicitly. *)

From Stdlib Require Import ZArith String Ascii List Bool Lia.
From Stdlib Require Import Sorted Permutation.
From stdpp Require Import gmap strings list pretty.

Local Open Scope string_scope.
Local Open Scope Z_scope.

(* ===================================================================== *)
(** ** JavaScript string helpers *)
(* ===================================================================== *)

Module Js.

(** [s.includes(t)]: [t] occurs in [s] as a contiguous substring. *)
Fixpoint includes (s t : string) : bool :=
  String.prefix t s ||
  match s with
  | EmptyString => false
  | String _ s' => includes s' t
  end.

(** [xs.some(p)] *)
Definition some {A} (p : A -> bool) (xs : list A) : bool := existsb p xs.

Definition lower_ascii (c : ascii) : ascii :=
  let n := nat_of_ascii c in
  if ((65 <=? n)%nat && (n <=? 90)%nat)%bool then ascii_of_nat (n + 32) else c.

(** [s.toLowerCase()] as far as ASCII letters go, on the UTF-8 bytes of
    the string: the ASCII capitals, and the two other characters whose
    lower case holds an ASCII letter, U+212A KELVIN SIGN (bytes 226 132
    170, lower case [k]) and U+0130 (bytes 196 176, lower case [i] followed
    by U+0307, bytes 204 135).  Other characters are left as they are: no
    search for an ASCII text can tell. *)
Fixpoint toLowerCase (s : string) : string :=
  match s with
  | EmptyString => EmptyString
  | String "226" (String "132" (String "170" s')) =>
      String "k" (toLowerCase s')
  | String "196" (String "176" s') =>
      String "i" (String "204" (String "135" (toLowerCase s')))
  | String c s' => String (lower_ascii c) (toLowerCase s')
  end.

(** [Math.ceil(x / d)] for an integer [x] and a positive integer [d]. *)
Definition ceil_div (x d : Z) : Z := - ((- x) / d).

(** A string is truthy when it is not empty. *)
Definition truthy_string (s : string) : bool :=
  match s with EmptyString => false | _ => true end.

(** The double quote, and a text between double quotes. *)
Definition dq : string := String "034" EmptyString.
Definition quoted (s : string) : string := dq ++ s ++ dq.

(** Truthiness of a value, read off the text [JSON.stringify] writes for
    it: the falsy values are written [null] ([null] itself and [NaN]),
    [false], [0] (both zeros) and the empty string between its quotes. *)
Definition truthy_json (j : string) : bool :=
  negb (String.eqb j "null" || String.eqb j "false" || String.eqb j "0"
        || String.eqb j (quoted "")).

End Js.

(* ===================================================================== *)
(** ** RateLimiter (src/utils/RateLimiter.ts) *)
(* ===================================================================== *)

Module RateLimiter.

Record RateLimitEntry := mkEntry {
  lastMessageTime : Z;
  messageCount : Z;
  lastMessageContent : string
}.

Record RateLimitResult := mkResult {
  allowed : bool;
  reason : option string;
  retryAfter : option Z;
  timeRemaining : option Z
}.

(** The singleton: the map plus the two constants read from the
    environment at construction ([parseInt] of RATE_LIMIT_WINDOW and
    MAX_MESSAGES_PER_WINDOW, defaults 30000 and 1). *)
Record t := mk {
  rateLimitMap : gmap string RateLimitEntry;
  RATE_LIMIT_WINDOW : Z;
  MAX_MESSAGES_PER_WINDOW : Z
}.

Definition create (window max : Z) : t := mk ∅ window max.
Definition default : t := create 30000 1.

Definition set_map (rl : t) (m : gmap string RateLimitEntry) : t :=
  mk m (RATE_LIMIT_WINDOW rl) (MAX_MESSAGES_PER_WINDOW rl).

Definition ok : RateLimitResult := mkResult true None None None.

Definition rejected (why : string) (remaining : Z) : RateLimitResult :=
  mkResult false (Some why) (Some remaining) (Some remaining).

Definition DUPLICATE : string := "Mensagem duplicada detectada".
Definition RATE_LIMITED : string := "Limite de mensagens atingido".

(** [canSendMessage(key, content)]; [now] is the single [Date.now()]
    reading of the call.  The in-place update of the entry object held
    by the map is an insert at the same key. *)
Definition canSendMessage (now : Z) (key content : string) (rl : t)
  : RateLimitResult * t :=
  match rateLimitMap rl !! key with
  | None =>
      (ok, set_map rl (<[key := mkEntry now 1 content]> (rateLimitMap rl)))
  | Some entry =>
      let timeSinceLastMessage := now - lastMessageTime entry in
      if timeSinceLastMessage <? RATE_LIMIT_WINDOW rl then
        if String.eqb (lastMessageContent entry) content then
          (rejected DUPLICATE (RATE_LIMIT_WINDOW rl - timeSinceLastMessage), rl)
        else if MAX_MESSAGES_PER_WINDOW rl <=? messageCount entry then
          (rejected RATE_LIMITED (RATE_LIMIT_WINDOW rl - timeSinceLastMessage), rl)
        else
          (ok, set_map rl (<[key := mkEntry now (messageCount entry + 1) content]>
                             (rateLimitMap rl)))
      else
        (ok, set_map rl (<[key := mkEntry now 1 content]> (rateLimitMap rl)))
  end.

(** [resetForRecipient(sessionId, recipient)] *)
Definition resetForRecipient (sessionId recipient : string) (rl : t) : t :=
  set_map rl (delete (sessionId ++ ":" ++ recipient) (rateLimitMap rl)).

(** [reset()] *)
Definition reset (rl : t) : t := set_map rl ∅.

(** [cleanup()]: drops the entries idle for more than twice the window. *)
Definition cleanup (now : Z) (rl : t) : t :=
  set_map rl
    (filter (fun kv => negb (RATE_LIMIT_WINDOW rl * 2 <? now - lastMessageTime (snd kv)) = true)
            (rateLimitMap rl)).

End RateLimiter.

(* ===================================================================== *)
(** ** Thrown values and the state-and-exception monad *)
(* ===================================================================== *)

(** [error.code] is [undefined], a number or a string. *)
Inductive JsCode :=
| NoCode
| NumCode (n : Z)
| StrCode (s : string).

(** A thrown value other than [undefined] and [null], by the two
    properties the sources read: [code] and [message] are [undefined] on
    a value that has none (a thrown string, say). *)
Record JsError := mkError {
  err_code : JsCode;
  err_message : option string
}.

(** [new Error(msg)] *)
Definition Error (msg : string) : JsError := mkError NoCode (Some msg).

(** What a [catch] block receives: [throw] and a rejected promise carry
    any value, [undefined] and [null] included. *)
Inductive Thrown :=
| Undefined
| Null
| Value (e : JsError).

Coercion Value : JsError >-> Thrown.

Definition nullish (v : Thrown) : bool :=
  match v with Value _ => false | _ => true end.

(** The [TypeError] of a property read on [undefined] or [null]. *)
Definition TypeError (what prop : string) : JsError :=
  Error ("Cannot read properties of " ++ what ++ " (reading '" ++ prop ++ "')").

(** Outcome of a call that may throw. *)
Inductive Res (A : Type) :=
| Ok (a : A)
| Throw (e : Thrown).
Arguments Ok {A} a.
Arguments Throw {A} e.

(** A computation over a state [S]; a throw keeps the state reached. *)
Definition M (S A : Type) : Type := S -> Res A * S.

Definition ret {S A} (a : A) : M S A := fun s => (Ok a, s).

Definition bind {S A B} (m : M S A) (k : A -> M S B) : M S B :=
  fun s =>
    match m s with
    | (Ok a, s') => k a s'
    | (Throw e, s') => (Throw e, s')
    end.

Definition throw {S A} (e : Thrown) : M S A := fun s => (Throw e, s).

(** [try { m } catch (e) { h e }] *)
Definition try_catch {S A} (m : M S A) (h : Thrown -> M S A) : M S A :=
  fun s =>
    match m s with
    | (Ok a, s') => (Ok a, s')
    | (Throw e, s') => h e s'
    end.

(** The first read of a property of a caught value, [v.prop]: the value
    itself when it has properties, a [TypeError] on [undefined] and
    [null]. *)
Definition read_property {S} (prop : string) (v : Thrown) : M S JsError :=
  match v with
  | Value e => ret e
  | Undefined => throw (TypeError "undefined" prop)
  | Null => throw (TypeError "null" prop)
  end.

Definition get {S} : M S S := fun s => (Ok s, s).
Definition gets {S A} (f : S -> A) : M S A := fun s => (Ok (f s), s).
Definition modify {S} (f : S -> S) : M S unit := fun s => (Ok tt, f s).

Notation "x <- m ;; k" := (bind m (fun x => k))
  (at level 62, m at next level, right associativity).
Notation "m ;;; k" := (bind m (fun _ => k))
  (at level 62, right associativity).

(* ===================================================================== *)
(** ** CircuitBreakerService (services/CircuitBreakerService.ts) *)
(* ===================================================================== *)

Module CircuitBreakerService.

Record CircuitBreakerConfig := mkConfig {
  cfg_threshold : Z;
  cfg_cooldownTime : Z;
  cfg_serviceName : string
}.

(** The private fields of an instance. *)
Record t := mk {
  failureCount : Z;
  threshold : Z;
  cooldownTime : Z;
  isOpen : bool;
  nextTryTime : Z;
  serviceName : string;
  lastFailureTime : Z;
  totalFailures : Z;
  totalSuccesses : Z
}.

Definition constructor (config : CircuitBreakerConfig) : t :=
  mk 0 (cfg_threshold config) (cfg_cooldownTime config) false 0
     (cfg_serviceName config) 0 0 0.

(** [getInstance(serviceName, threshold = 3, cooldownTime = 30000)] over
    the static registry: an existing instance keeps its configuration. *)
Definition getInstance (serviceName : string) (threshold cooldownTime : Z)
           (instances : gmap string t) : t * gmap string t :=
  match instances !! serviceName with
  | Some cb => (cb, instances)
  | None =>
      let cb := constructor (mkConfig threshold cooldownTime serviceName) in
      (cb, <[serviceName := cb]> instances)
  end.

Section Run.

(** What the protected action acts on, and the readings [Date.now()]
    returns, in the order they are taken. *)
Variable Ext : Type.
Variable clock : nat -> Z.

Record World := mkWorld {
  ticks : nat;   (* number of clock readings taken so far *)
  ext : Ext
}.

(** The protected action: it may read the clock and change [Ext], it
    has no access to the breaker's private fields. *)
Definition Action (T : Type) : Type := M World T.

Definition St : Type := (t * World)%type.

Definition Date_now : M St Z :=
  fun '(cb, w) => (Ok (clock (ticks w)), (cb, mkWorld (S (ticks w)) (ext w))).

(** [await action()] *)
Definition call {T} (action : Action T) : M St T :=
  fun '(cb, w) => let '(r, w') := action w in (r, (cb, w')).

Definition this : M St t := gets fst.
Definition set_this (f : t -> t) : M St unit :=
  modify (fun '(cb, w) => (f cb, w)).

Definition onSuccess : M St unit :=
  set_this (fun cb =>
    mk 0 (threshold cb) (cooldownTime cb) false (nextTryTime cb)
       (serviceName cb) (lastFailureTime cb) (totalFailures cb)
       (totalSuccesses cb + 1)).

Definition open : M St unit :=
  now <- Date_now ;;
  set_this (fun cb =>
    mk (failureCount cb) (threshold cb) (cooldownTime cb) true
       (now + cooldownTime cb)
       (serviceName cb) (lastFailureTime cb) (totalFailures cb)
       (totalSuccesses cb)).

(** [onFailure(error)]: the three counters are updated, then the log
    line reads [error.message], then the threshold is tested. *)
Definition onFailure (error : Thrown) : M St unit :=
  now <- Date_now ;;
  set_this (fun cb =>
    mk (failureCount cb + 1) (threshold cb) (cooldownTime cb) (isOpen cb)
       (nextTryTime cb) (serviceName cb) now (totalFailures cb + 1)
       (totalSuccesses cb)) ;;;
  read_property "message" error ;;;
  cb <- this ;;
  if threshold cb <=? failureCount cb then open else ret tt.

Definition open_message (name : string) (remainingTime : Z) : string :=
  "Circuit breaker aberto para " ++ name ++ ". Tente novamente em "
  ++ pretty remainingTime ++ "s".

(** The guard shared by [execute] and [executeSync]: the clock is read
    only when the breaker is open, and a second time for the message. *)
Definition guard : M St unit :=
  cb <- this ;;
  if isOpen cb then
    now <- Date_now ;;
    if now <? nextTryTime cb then
      now' <- Date_now ;;
      let remainingTime := Js.ceil_div (nextTryTime cb - now') 1000 in
      throw (Error (open_message (serviceName cb) remainingTime))
    else ret tt
  else ret tt.

Definition execute {T} (action : Action T) : M St T :=
  guard ;;;
  try_catch
    (result <- call action ;;
     onSuccess ;;;
     ret result)
    (fun error => onFailure error ;;; throw error).

(** [executeSync] has the body of [execute] without the [await]. *)
Definition executeSync {T} (action : Action T) : M St T := execute action.

Definition forceReset : M St unit :=
  set_this (fun cb =>
    mk 0 (threshold cb) (cooldownTime cb) false 0
       (serviceName cb) (lastFailureTime cb) (totalFailures cb)
       (totalSuccesses cb)).

(** The fields after [onSuccess]; after an [onFailure] that ran to its
    end, with its clock readings [now] and, when the breaker opens,
    [now']; and after an [onFailure] that stopped at the log line. *)
Definition succeeded (cb : t) : t :=
  mk 0 (threshold cb) (cooldownTime cb) false (nextTryTime cb)
     (serviceName cb) (lastFailureTime cb) (totalFailures cb)
     (totalSuccesses cb + 1).

Definition failed (cb : t) (now now' : Z) : t :=
  if threshold cb <=? failureCount cb + 1 then
    mk (failureCount cb + 1) (threshold cb) (cooldownTime cb) true
       (now' + cooldownTime cb) (serviceName cb) now (totalFailures cb + 1)
       (totalSuccesses cb)
  else
    mk (failureCount cb + 1) (threshold cb) (cooldownTime cb) (isOpen cb)
       (nextTryTime cb) (serviceName cb) now (totalFailures cb + 1)
       (totalSuccesses cb).

Definition recorded (cb : t) (now : Z) : t :=
  mk (failureCount cb + 1) (threshold cb) (cooldownTime cb) (isOpen cb)
     (nextTryTime cb) (serviceName cb) now (totalFailures cb + 1)
     (totalSuccesses cb).

Definition later (n : nat) (w : World) : World := mkWorld (n + ticks w) (ext w).

(** What [execute] does once the guard lets the call through.  A value
    thrown by the action is rethrown after [onFailure]; on [undefined]
    and [null] it is the [TypeError] of [onFailure] that leaves
    [execute], and the threshold is not looked at. *)
Definition settle {T} (cb : t) (outcome : Res T * World) : Res T * St :=
  match outcome with
  | (Ok v, w') => (Ok v, (succeeded cb, w'))
  | (Throw (Value e), w') =>
      (Throw (Value e),
       (failed cb (clock (ticks w')) (clock (S (ticks w'))),
        if threshold cb <=? failureCount cb + 1 then later 2 w' else later 1 w'))
  | (Throw Undefined, w') =>
      (Throw (Value (TypeError "undefined" "message")),
       (recorded cb (clock (ticks w')), later 1 w'))
  | (Throw Null, w') =>
      (Throw (Value (TypeError "null" "message")),
       (recorded cb (clock (ticks w')), later 1 w'))
  end.

End Run.

Arguments mkWorld {Ext} _ _.
Arguments execute {Ext} clock {T} action _.
Arguments executeSync {Ext} clock {T} action _.
Arguments settle {Ext} clock {T} cb outcome.
Arguments later {Ext} n w.
Arguments Action Ext T : clear implicits.
Arguments ticks {Ext} _.
Arguments ext {Ext} _.

(** *** A sample dependency *)

(** A clock that advances one second per reading, and a dependency that
    counts the calls it receives: one that throws an [Error], one that
    returns. *)
Definition second_clock (n : nat) : Z := 1000 * Z.of_nat n.
Definition failing : Action nat unit :=
  fun w => (Throw (Error "ECONNRESET"), mkWorld (ticks w) (S (ext w))).
Definition working : Action nat unit :=
  fun w => (Ok tt, mkWorld (ticks w) (S (ext w))).

(** [() => Promise.reject()]: the rejection carries [undefined]. *)
Definition rejecting : Action nat unit :=
  fun w => (Throw Undefined, mkWorld (ticks w) (S (ext w))).

End CircuitBreakerService.

(* ===================================================================== *)
(** ** RabbitMQErrorHandler (src/utils/RabbitMQErrorHandler.ts) *)
(* ===================================================================== *)

Module RabbitMQErrorHandler.

Inductive RabbitMQErrorType :=
| CONNECTION_REFUSED
| ACCESS_REFUSED
| NOT_FOUND
| PRECONDITION_FAILED
| RESOURCE_LOCKED
| CHANNEL_ERROR
| PERMISSION_DENIED
| QUEUE_NOT_FOUND
| EXCHANGE_NOT_FOUND
| INVALID_ROUTING_KEY
| MESSAGE_TOO_LARGE
| UNKNOWN_ERROR.

Definition type_eqb (a b : RabbitMQErrorType) : bool :=
  match a, b with
  | CONNECTION_REFUSED, CONNECTION_REFUSED
  | ACCESS_REFUSED, ACCESS_REFUSED
  | NOT_FOUND, NOT_FOUND
  | PRECONDITION_FAILED, PRECONDITION_FAILED
  | RESOURCE_LOCKED, RESOURCE_LOCKED
  | CHANNEL_ERROR, CHANNEL_ERROR
  | PERMISSION_DENIED, PERMISSION_DENIED
  | QUEUE_NOT_FOUND, QUEUE_NOT_FOUND
  | EXCHANGE_NOT_FOUND, EXCHANGE_NOT_FOUND
  | INVALID_ROUTING_KEY, INVALID_ROUTING_KEY
  | MESSAGE_TOO_LARGE, MESSAGE_TOO_LARGE
  | UNKNOWN_ERROR, UNKNOWN_ERROR => true
  | _, _ => false
  end.

Record RabbitMQErrorInfo := mkInfo {
  type : RabbitMQErrorType;
  code : JsCode;
  message : string;
  context : string;
  timestamp : Z;
  retryable : bool;
  retryDelay : option Z;
  shouldReconnect : bool;
  shouldUseDLQ : bool;
  userMessage : string
}.

Inductive LogLevel := debug | info | warn | error.

Record ErrorHandlingConfig := mkConfig {
  maxRetries : Z;
  cfg_retryDelay : Z;
  exponentialBackoff : bool;
  dlqEnabled : bool;
  logLevel : LogLevel
}.

(** [Partial<ErrorHandlingConfig>] *)
Record PartialConfig := mkPartial {
  p_maxRetries : option Z;
  p_retryDelay : option Z;
  p_exponentialBackoff : option bool;
  p_dlqEnabled : option bool;
  p_logLevel : option LogLevel
}.

(** [n || d] on an optional number. *)
Definition or_default (n : option Z) (d : Z) : Z :=
  match n with
  | Some v => if v =? 0 then d else v
  | None => d
  end.

(** [b !== false] on an optional boolean. *)
Definition not_false (b : option bool) : bool :=
  match b with Some false => false | _ => true end.

Definition constructor (config : PartialConfig) : ErrorHandlingConfig :=
  mkConfig (or_default (p_maxRetries config) 3)
           (or_default (p_retryDelay config) 1000)
           (not_false (p_exponentialBackoff config))
           (not_false (p_dlqEnabled config))
           (match p_logLevel config with Some l => l | None => error end).

Definition defaultErrorHandler : ErrorHandlingConfig :=
  constructor (mkPartial (Some 3) (Some 1000) (Some true) (Some true) (Some error)).

Definition truthy_code (c : JsCode) : bool :=
  match c with
  | NoCode => false
  | NumCode n => negb (n =? 0)
  | StrCode s => Js.truthy_string s
  end.

Definition truthy_message (m : option string) : bool :=
  match m with Some s => Js.truthy_string s | None => false end.

(** Template-literal rendering of [error.code] and [error.message]. *)
Definition show_code (c : JsCode) : string :=
  match c with
  | NoCode => "undefined"
  | NumCode n => pretty n
  | StrCode s => s
  end.

Definition show_message (m : option string) : string :=
  match m with Some s => s | None => "undefined" end.

(** One block of assignments to [errorInfo]: the type, the three flags
    and the user message always, the code and the delay when the block
    assigns them. *)
Definition assign (i : RabbitMQErrorInfo) (ty : RabbitMQErrorType)
           (c : option JsCode) (r rc dlq : bool) (d : option Z)
           (um : string) : RabbitMQErrorInfo :=
  mkInfo ty
         (match c with Some c' => c' | None => code i end)
         (message i) (context i) (timestamp i)
         r
         (match d with Some d' => Some d' | None => retryDelay i end)
         rc dlq um.

Definition MSG_ACCESS : string :=
  "Acesso negado ao RabbitMQ. Verifique as credenciais e permissões.".
Definition MSG_NOT_FOUND : string :=
  "Recurso não encontrado no RabbitMQ (fila ou exchange inexistente).".
Definition MSG_PRECONDITION : string :=
  "Falha de pré-condição no RabbitMQ. Verifique a configuração da fila.".
Definition MSG_LOCKED : string :=
  "Recurso bloqueado no RabbitMQ. Tentando novamente em breve.".
Definition MSG_REFUSED : string :=
  "Conexão recusada pelo RabbitMQ. Tentando reconectar.".

(** The [switch (error.code)] of [analyzeError], entered when the code
    is truthy; [case] labels are numbers compared with [===]. *)
Definition by_code (err : JsError) (i : RabbitMQErrorInfo) : RabbitMQErrorInfo :=
  let i := assign i (type i) (Some (err_code err)) (retryable i)
                  (shouldReconnect i) (shouldUseDLQ i) None (userMessage i) in
  let default :=
    assign i UNKNOWN_ERROR None true true true None
           ("Erro " ++ show_code (err_code err) ++ " no RabbitMQ: "
            ++ show_message (err_message err)) in
  match err_code err with
  | NumCode n =>
      if n =? 403 then assign i ACCESS_REFUSED None false false true None MSG_ACCESS
      else if n =? 404 then assign i NOT_FOUND None false false true None MSG_NOT_FOUND
      else if n =? 406 then
        assign i PRECONDITION_FAILED None false false true None MSG_PRECONDITION
      else if n =? 405 then
        assign i RESOURCE_LOCKED None true false false (Some 5000) MSG_LOCKED
      else if n =? 503 then
        assign i CONNECTION_REFUSED None true true false (Some 2000) MSG_REFUSED
      else default
  | _ => default
  end.

(** The [if / else if] chain over the lower-cased message. *)
Definition by_message (msg : string) (i : RabbitMQErrorInfo) : RabbitMQErrorInfo :=
  let message := Js.toLowerCase msg in
  let has := Js.includes message in
  if has "access refused" || has "403" then
    assign i ACCESS_REFUSED (Some (NumCode 403)) false false true None MSG_ACCESS
  else if has "not found" || has "404" then
    assign i NOT_FOUND (Some (NumCode 404)) false false true None MSG_NOT_FOUND
  else if has "precondition failed" || has "406" then
    assign i PRECONDITION_FAILED (Some (NumCode 406)) false false true None MSG_PRECONDITION
  else if has "resource locked" || has "405" then
    assign i RESOURCE_LOCKED (Some (NumCode 405)) true false false (Some 5000) MSG_LOCKED
  else if has "connection refused" || has "503" then
    assign i CONNECTION_REFUSED (Some (NumCode 503)) true true false (Some 2000) MSG_REFUSED
  else if has "permission denied" then
    assign i PERMISSION_DENIED (Some (NumCode 403)) false false true None
           "Permissão negada no RabbitMQ. Verifique as permissões do usuário."
  else if has "queue not found" then
    assign i QUEUE_NOT_FOUND (Some (NumCode 404)) false false true None
           "Fila não encontrada no RabbitMQ."
  else if has "exchange not found" then
    assign i EXCHANGE_NOT_FOUND (Some (NumCode 404)) false false true None
           "Exchange não encontrado no RabbitMQ."
  else if has "invalid routing key" then
    assign i INVALID_ROUTING_KEY (Some (NumCode 406)) false false true None
           "Routing key inválida no RabbitMQ."
  else if has "message too large" then
    assign i MESSAGE_TOO_LARGE (Some (NumCode 406)) false false true None
           "Mensagem muito grande para o RabbitMQ."
  else i.

(** [analyzeError(error, context)]; [now] is the reading behind
    [new Date().toISOString()]. *)
Definition analyzeError (now : Z) (err : JsError) (context : string)
  : RabbitMQErrorInfo :=
  let errorInfo :=
    mkInfo UNKNOWN_ERROR (NumCode 0)
           (match err_message err with
            | Some m => if Js.truthy_string m then m else "Unknown error"
            | None => "Unknown error"
            end)
           context now false None false false
           "Erro desconhecido no RabbitMQ" in
  let errorInfo :=
    if truthy_code (err_code err) then by_code err errorInfo else errorInfo in
  match err_message err with
  | Some m => if Js.truthy_string m then by_message m errorInfo else errorInfo
  | None => errorInfo
  end.

(** [shouldRetry(errorInfo, currentRetryCount)] *)
Definition shouldRetry (cfg : ErrorHandlingConfig) (errorInfo : RabbitMQErrorInfo)
           (currentRetryCount : Z) : bool :=
  if negb (retryable errorInfo) then false
  else if maxRetries cfg <=? currentRetryCount then false
  else if type_eqb (type errorInfo) ACCESS_REFUSED then false
  else if type_eqb (type errorInfo) PERMISSION_DENIED then false
  else if type_eqb (type errorInfo) MESSAGE_TOO_LARGE then false
  else true.

(** [calculateRetryDelay(errorInfo, currentRetryCount)].  [Math.pow(2, n)]
    is [2 ^ n] for a retry count that is a non-negative integer; a negative
    count gives a fraction of the delay, which [Z] does not hold, and what
    is stated about the exponential delay assumes [0 <= n]. *)
Definition calculateRetryDelay (cfg : ErrorHandlingConfig)
           (errorInfo : RabbitMQErrorInfo) (currentRetryCount : Z) : Z :=
  match retryDelay errorInfo with
  | Some d =>
      if negb (d =? 0) then d
      else if exponentialBackoff cfg then cfg_retryDelay cfg * 2 ^ currentRetryCount
      else cfg_retryDelay cfg
  | None =>
      if exponentialBackoff cfg then cfg_retryDelay cfg * 2 ^ currentRetryCount
      else cfg_retryDelay cfg
  end.

Inductive Action := retry | reconnect | dlq | discard | log.

Definition action_eqb (a b : Action) : bool :=
  match a, b with
  | retry, retry | reconnect, reconnect | dlq, dlq
  | discard, discard | log, log => true
  | _, _ => false
  end.

Record Handled := mkHandled {
  errorInfo : RabbitMQErrorInfo;
  action : Action;
  delay : Z
}.

(** [handleError(error, context, currentRetryCount)] (the call to
    [logError] only writes to the logger). *)
Definition handleError (cfg : ErrorHandlingConfig) (now : Z) (err : JsError)
           (context : string) (currentRetryCount : Z) : Handled :=
  let errorInfo := analyzeError now err context in
  if type_eqb (type errorInfo) ACCESS_REFUSED then mkHandled errorInfo log 0
  else if type_eqb (type errorInfo) PERMISSION_DENIED then mkHandled errorInfo log 0
  else if shouldReconnect errorInfo then
    mkHandled errorInfo reconnect (calculateRetryDelay cfg errorInfo currentRetryCount)
  else if shouldRetry cfg errorInfo currentRetryCount then
    mkHandled errorInfo retry (calculateRetryDelay cfg errorInfo currentRetryCount)
  else if shouldUseDLQ errorInfo && dlqEnabled cfg then mkHandled errorInfo dlq 0
  else mkHandled errorInfo discard 0.

(** Retryable without reconnection only as a locked resource with its
    own delay of five seconds. *)
Definition in_place_locked (i : RabbitMQErrorInfo) : Prop :=
  retryable i = true -> shouldReconnect i = false ->
  type i = RESOURCE_LOCKED /\ retryDelay i = Some 5000.

End RabbitMQErrorHandler.

(* ===================================================================== *)
(** ** The process and its surroundings: clock, Redis, broker channel *)
(* ===================================================================== *)

(** [DLQMessage], exported by DeadLetterQueue.ts.  The payload is kept as
    its JSON text; the two ISO timestamps are kept as the millisecond
    readings they print ([new Date(iso).getTime()] gives them back). *)
Record DLQMessage := mkDLQMessage {
  id : string;
  originalRoutingKey : string;
  originalExchange : string;
  originalQueue : string;
  payload : string;
  error : string;
  retryCount : Z;
  maxRetries : Z;
  timestamp : Z;
  lastErrorTimestamp : Z;
  instanceId : option string
}.

(** The entry [archiveMessage] pushes on the daily list. *)
Record ArchiveData := mkArchiveData {
  a_messageId : string;
  a_timestamp : Z;
  a_originalRoutingKey : string;
  a_error : string;
  a_retryCount : Z;
  a_instanceId : option string
}.

Inductive HeaderValue :=
| HNum (n : Z)
| HStr (s : string)
| HBool (b : bool)
| HDate (ms : Z)
| HUndefined.

(** A headers object: properties in insertion order. *)
Definition Headers : Type := list (string * HeaderValue).

Fixpoint get_prop (k : string) (h : Headers) : option HeaderValue :=
  match h with
  | [] => None
  | (k', v) :: h' => if String.eqb k k' then Some v else get_prop k h'
  end.

(** [{...h, k: v}]: an existing property keeps its place. *)
Fixpoint set_prop (k : string) (v : HeaderValue) (h : Headers) : Headers :=
  match h with
  | [] => [(k, v)]
  | (k', v') :: h' =>
      if String.eqb k k' then (k', v) :: h' else (k', v') :: set_prop k v h'
  end.

(** What is handed to [channel.publish] as content. *)
Inductive Body :=
| Bytes (s : string)              (* a buffer passed on as it is *)
| JsonOfDLQ (m : DLQMessage).     (* Buffer.from(JSON.stringify(dlqMessage)) *)

Record PublishOptions := mkOptions {
  persistent : bool;
  messageId : option string;
  pub_timestamp : option Z;
  headers : Headers
}.

(** Calls that leave the process, in the order they are made. *)
Inductive Effect :=
| Ack (deliveryTag : Z)
| Nack (deliveryTag : Z) (allUpTo requeue : bool)
| Publish (exchange routingKey : string) (content : Body)
          (options : PublishOptions) (returned : bool)
| SetTimeoutPublish (delay : Z) (exchange routingKey : string) (content : Body)
                    (options : PublishOptions)
| AssertExchange (name kind : string)
| AssertQueue (name : string)
| BindQueue (queue exchange pattern : string)
| XAdd (stream eventId : string)
| XAck (stream group entryId : string)
| Callback (eventId : string).

(** Outcome of one external call: it resolves, resolves to [false]
    (only [publish] distinguishes it), or throws (the Redis and AMQP
    clients reject with [Error] objects). *)
Inductive IoOutcome :=
| IoOk
| IoFalse
| IoThrow (e : JsError).

Record World := mkWorld {
  clock : nat -> Z;            (* successive readings of the clock *)
  ticks : nat;
  random : nat -> string;      (* successive base-36 suffixes from Math.random *)
  draws : nat;
  io : nat -> IoOutcome;       (* outcome of the n-th external call *)
  calls : nat;
  kv : gmap string (DLQMessage * option Z);          (* SET / SETEX value, TTL in s *)
  lists : gmap string (list ArchiveData * option Z); (* archive lists, TTL in s *)
  log : list Effect;           (* oldest first *)
  dlq_connection : bool;       (* DeadLetterQueue.connection !== null *)
  dlq_channel : bool;          (* DeadLetterQueue.channel !== null *)
  redis_open : bool;           (* RedisClient.client.isOpen *)
  rc_client : bool;            (* RedisConsumer.client !== null *)
  rc_connected : bool          (* RedisConsumer.isConnected *)
}.

Definition tick (w : World) : World :=
  mkWorld (clock w) (S (ticks w)) (random w) (draws w) (io w) (calls w)
          (kv w) (lists w) (log w) (dlq_connection w) (dlq_channel w) (redis_open w) (rc_client w)
          (rc_connected w).

Definition draw (w : World) : World :=
  mkWorld (clock w) (ticks w) (random w) (S (draws w)) (io w) (calls w)
          (kv w) (lists w) (log w) (dlq_connection w) (dlq_channel w) (redis_open w) (rc_client w)
          (rc_connected w).

Definition called (w : World) : World :=
  mkWorld (clock w) (ticks w) (random w) (draws w) (io w) (S (calls w))
          (kv w) (lists w) (log w) (dlq_connection w) (dlq_channel w) (redis_open w) (rc_client w)
          (rc_connected w).

Definition with_kv (f : gmap string (DLQMessage * option Z) -> gmap string (DLQMessage * option Z))
           (w : World) : World :=
  mkWorld (clock w) (ticks w) (random w) (draws w) (io w) (calls w)
          (f (kv w)) (lists w) (log w) (dlq_connection w) (dlq_channel w) (redis_open w) (rc_client w)
          (rc_connected w).

Definition with_lists (f : gmap string (list ArchiveData * option Z) -> gmap string (list ArchiveData * option Z))
           (w : World) : World :=
  mkWorld (clock w) (ticks w) (random w) (draws w) (io w) (calls w)
          (kv w) (f (lists w)) (log w) (dlq_connection w) (dlq_channel w) (redis_open w) (rc_client w)
          (rc_connected w).

Definition emit (e : Effect) (w : World) : World :=
  mkWorld (clock w) (ticks w) (random w) (draws w) (io w) (calls w)
          (kv w) (lists w) (log w ++ [e]) (dlq_connection w) (dlq_channel w) (redis_open w) (rc_client w)
          (rc_connected w).

Definition with_flags (c ch r : bool) (w : World) : World :=
  mkWorld (clock w) (ticks w) (random w) (draws w) (io w) (calls w)
          (kv w) (lists w) (log w) c ch r (rc_client w) (rc_connected w).

Definition with_rc_client (c : bool) (w : World) : World :=
  mkWorld (clock w) (ticks w) (random w) (draws w) (io w) (calls w)
          (kv w) (lists w) (log w) (dlq_connection w) (dlq_channel w) (redis_open w) c
          (rc_connected w).

Definition with_rc_connected (c : bool) (w : World) : World :=
  mkWorld (clock w) (ticks w) (random w) (draws w) (io w) (calls w)
          (kv w) (lists w) (log w) (dlq_connection w) (dlq_channel w) (redis_open w)
          (rc_client w) c.

(** [Date.now()], also the reading behind [new Date()]. *)
Definition Date_now : M World Z :=
  fun w => (Ok (clock w (ticks w)), tick w).

(** [Math.random().toString(36).substring(2, 15)] *)
Definition Math_random36 : M World string :=
  fun w => (Ok (random w (draws w)), draw w).

(** One awaited external call: [true] unless it resolves to [false]. *)
Definition io_call : M World bool :=
  fun w =>
    match io w (calls w) with
    | IoOk => (Ok true, called w)
    | IoFalse => (Ok false, called w)
    | IoThrow e => (Throw e, called w)
    end.

Definition effect (e : Effect) : M World unit := modify (emit e).

(** The n-th external call does not throw. *)
Definition responds (w : World) (n : nat) : bool :=
  match io w n with IoThrow _ => false | _ => true end.

(** A computation leaves one component of the world as it found it. *)
Definition preserves {A X} (f : World -> X) (m : M World A) : Prop :=
  forall w, f (snd (m w)) = f w.

(** *** Date.prototype.toISOString, date part (years 0000 to 9999) *)

Definition civil_from_days (z : Z) : Z * Z * Z :=
  let z := z + 719468 in
  let era := z / 146097 in
  let doe := z - era * 146097 in
  let yoe := (doe - doe / 1460 + doe / 36524 - doe / 146096) / 365 in
  let doy := doe - (365 * yoe + yoe / 4 - yoe / 100) in
  let mp := (5 * doy + 2) / 153 in
  let d := doy - (153 * mp + 2) / 5 + 1 in
  let m := if mp <? 10 then mp + 3 else mp - 9 in
  let y := yoe + era * 400 in
  (if m <=? 2 then y + 1 else y, m, d).

Definition pad2 (n : Z) : string :=
  if n <? 10 then "0" ++ pretty n else pretty n.

Definition pad4 (n : Z) : string :=
  if n <? 10 then "000" ++ pretty n
  else if n <? 100 then "00" ++ pretty n
  else if n <? 1000 then "0" ++ pretty n
  else pretty n.

(** [new Date(ms).toISOString().split('T')[0]] *)
Definition isoDate (ms : Z) : string :=
  let '(y, m, d) := civil_from_days (ms / 86400000) in
  pad4 y ++ "-" ++ pad2 m ++ "-" ++ pad2 d.

(** *** RedisClient (src/config/redis.ts) and the raw client *)

Module RedisClient.

Definition connect : M World unit :=
  isOpen <- gets redis_open ;;
  if negb isOpen then
    io_call ;;;
    modify (fun w => with_flags (dlq_connection w) (dlq_channel w) true w)
  else ret tt.

(** [set(key, value, ttl?)]: [setEx] when the TTL is truthy. *)
Definition set (key : string) (value : DLQMessage) (ttl : option Z) : M World unit :=
  io_call ;;;
  let ttl' := match ttl with
              | Some n => if n =? 0 then None else Some n
              | None => None
              end in
  modify (with_kv (insert key (value, ttl'))).

Definition get (key : string) : M World (option DLQMessage) :=
  io_call ;;;
  gets (fun w => fst <$> kv w !! key).

Definition del (key : string) : M World Z :=
  io_call ;;;
  present <- gets (fun w => kv w !! key) ;;
  modify (with_kv (delete key)) ;;;
  ret (match present with Some _ => 1 | None => 0 end).

(** [getClient().keys(prefix + '*')]; Redis returns the keys in no
    specified order, the model takes the map's own. *)
Definition keys (prefix : string) : M World (list string) :=
  io_call ;;;
  gets (fun w => filter (fun k => String.prefix prefix k = true)
                        (fst <$> map_to_list (kv w))).

(** [getClient().lpush(key, value)].  The client that [createClient]
    builds (the one with [isOpen] and [setEx]) names the command [lPush]:
    [lpush] is [undefined] on it, and calling it throws a [TypeError]
    before anything is sent to Redis. *)
Definition lpush (key : string) (v : ArchiveData) : M World unit :=
  throw (Error "this.redis.getClient(...).lpush is not a function").

Definition expire (key : string) (seconds : Z) : M World unit :=
  io_call ;;;
  modify (with_lists (fun m =>
    match m !! key with
    | Some (l, _) => <[key := (l, Some seconds)]> m
    | None => m
    end)).

End RedisClient.

(* ===================================================================== *)
(** ** DeadLetterQueue (services/DeadLetterQueue.ts) *)
(* ===================================================================== *)

Module DeadLetterQueue.

Record DLQConfig := mkConfig {
  cfg_maxRetries : Z;
  retryDelay : Z;          (* seconds *)
  dlqExchange : string;
  dlqQueue : string;
  dlqRoutingKey : string
}.

Definition config : DLQConfig :=
  mkConfig 3 300 "baileys.dlx" "baileys.dlq" "dead.letter".

(** The message handed to [sendToDeadLetterQueue]: its [queue] property
    and its JSON text. *)
Record OriginalMessage := mkOriginal {
  om_queue : option string;
  om_json : string
}.

Definition setupDLQInfrastructure : M World unit :=
  ch <- gets dlq_channel ;;
  if negb ch then ret tt
  else
    io_call ;;; effect (AssertExchange (dlqExchange config) "topic") ;;;
    io_call ;;; effect (AssertQueue (dlqQueue config)) ;;;
    io_call ;;; effect (BindQueue (dlqQueue config) (dlqExchange config)
                                  (dlqRoutingKey config)).

Definition connect : M World unit :=
  try_catch
    (conn <- gets dlq_connection ;;
     (if negb conn then
        io_call ;;;
        modify (fun w => with_flags true (dlq_channel w) (redis_open w) w)
      else ret tt) ;;;
     ch <- gets dlq_channel ;;
     (if negb ch then
        io_call ;;;
        modify (fun w => with_flags (dlq_connection w) true (redis_open w) w) ;;;
        setupDLQInfrastructure
      else ret tt) ;;;
     RedisClient.connect)
    (fun e => throw e).

Definition generateMessageId : M World string :=
  now <- Date_now ;;
  r <- Math_random36 ;;
  ret ("dlq-" ++ pretty now ++ "-" ++ r).

Definition message_key (messageId : string) : string :=
  "dlq:message:" ++ messageId.

Definition saveDLQMessageToRedis (message : DLQMessage) : M World unit :=
  let key := message_key (id message) in
  let ttl := 7 * 24 * 60 * 60 in
  RedisClient.set key message (Some ttl).

Definition getDLQMessageFromRedis (messageId : string) : M World (option DLQMessage) :=
  RedisClient.get (message_key messageId).

(** [this.channel.publish(...)]: a [TypeError] when the channel is
    [null], before the arguments are evaluated. *)
Definition channel_publish (exchange routingKey : string) (content : Body)
           (options : M World PublishOptions) : M World bool :=
  ch <- gets dlq_channel ;;
  if negb ch then
    throw (Error "Cannot read properties of null (reading 'publish')")
  else
    opts <- options ;;
    published <- io_call ;;
    effect (Publish exchange routingKey content opts published) ;;;
    ret published.

Definition or_unknown (s : option string) : string :=
  match s with
  | Some v => if Js.truthy_string v then v else "unknown"
  | None => "unknown"
  end.

Definition sendToDeadLetterQueue (originalMessage : OriginalMessage)
           (originalRoutingKey error : string) (retryCount : Z)
           (instanceId : option string) : M World unit :=
  try_catch
    (connect ;;;
     mid <- generateMessageId ;;
     ts <- Date_now ;;
     lts <- Date_now ;;
     let dlqMessage :=
       mkDLQMessage mid originalRoutingKey "baileys.events"
                    (or_unknown (om_queue originalMessage))
                    (om_json originalMessage) error retryCount
                    (cfg_maxRetries config) ts lts instanceId in
     saveDLQMessageToRedis dlqMessage ;;;
     published <-
       channel_publish (dlqExchange config) (dlqRoutingKey config)
         (JsonOfDLQ dlqMessage)
         (now <- Date_now ;;
          ret (mkOptions true (Some (id dlqMessage)) (Some now)
                 [("x-retry-count", HNum retryCount);
                  ("x-original-routing-key", HStr originalRoutingKey);
                  ("x-error", HStr error);
                  ("x-instance-id", HStr (or_unknown instanceId))])) ;;
     ret tt)
    (fun _ => ret tt).

(** The record [sendToDeadLetterQueue] builds and the options it
    publishes with, from [w], the world [connect] leaves. *)
Definition parked_record (w : World) (om : OriginalMessage) (rk err : string)
           (rc : Z) (inst : option string) : DLQMessage :=
  mkDLQMessage ("dlq-" ++ pretty (clock w (ticks w)) ++ "-" ++ random w (draws w))
               rk "baileys.events" (or_unknown (om_queue om)) (om_json om) err rc
               (cfg_maxRetries config)
               (clock w (S (ticks w))) (clock w (S (S (ticks w)))) inst.

Definition park_options (w : World) (m : DLQMessage) (rk err : string)
           (rc : Z) (inst : option string) : PublishOptions :=
  mkOptions true (Some (id m)) (Some (clock w (S (S (S (ticks w))))))
            [("x-retry-count", HNum rc);
             ("x-original-routing-key", HStr rk);
             ("x-error", HStr err);
             ("x-instance-id", HStr (or_unknown inst))].

Definition retried (m : DLQMessage) (now : Z) : DLQMessage :=
  mkDLQMessage (id m) (originalRoutingKey m) (originalExchange m)
               (originalQueue m) (payload m) (error m) (retryCount m + 1)
               (maxRetries m) (timestamp m) now (instanceId m).

(** The options [retryMessage] publishes with from [w], the world in
    which the call starts: a fresh message id and the clock reading, both
    taken after the record has been saved. *)
Definition retry_options (w : World) (m : DLQMessage) (messageId : string)
  : PublishOptions :=
  mkOptions true
            (Some ("dlq-" ++ pretty (clock w (S (ticks w))) ++ "-" ++ random w (draws w)))
            (Some (clock w (S (S (ticks w)))))
            [("x-retry-attempt", HNum (retryCount m + 1));
             ("x-dlq-message-id", HStr messageId)].

Definition retryMessage (messageId : string) : M World bool :=
  try_catch
    (found <- getDLQMessageFromRedis messageId ;;
     match found with
     | None => ret false
     | Some dlqMessage =>
         if maxRetries dlqMessage <=? retryCount dlqMessage then ret false
         else
           now <- Date_now ;;
           let dlqMessage := retried dlqMessage now in
           saveDLQMessageToRedis dlqMessage ;;;
           published <-
             channel_publish (originalExchange dlqMessage)
               (originalRoutingKey dlqMessage) (Bytes (payload dlqMessage))
               (mid <- generateMessageId ;;
                ts <- Date_now ;;
                ret (mkOptions true (Some mid) (Some ts)
                       [("x-retry-attempt", HNum (retryCount dlqMessage));
                        ("x-dlq-message-id", HStr messageId)])) ;;
           ret published
     end)
    (fun _ => ret false).

(** [for (i = 0; i < Math.min(keys.length, limit); i++)] *)
Fixpoint load (keys : list string) : M World (list DLQMessage) :=
  match keys with
  | [] => ret []
  | k :: keys' =>
      messageData <- RedisClient.get k ;;
      rest <- load keys' ;;
      ret (match messageData with Some m => m :: rest | None => rest end)
  end.

(** [messages.sort((a, b) => b.lastErrorTimestamp - a.lastErrorTimestamp)]:
    a stable sort, most recent error first. *)
Fixpoint insert_sorted (m : DLQMessage) (l : list DLQMessage) : list DLQMessage :=
  match l with
  | [] => [m]
  | x :: l' =>
      if lastErrorTimestamp x <=? lastErrorTimestamp m then m :: x :: l'
      else x :: insert_sorted m l'
  end.

Definition sort_recent_first (l : list DLQMessage) : list DLQMessage :=
  fold_right insert_sorted [] l.

Definition getDLQMessages (limit : nat) : M World (list DLQMessage) :=
  try_catch
    (RedisClient.connect ;;;
     keys <- RedisClient.keys "dlq:message:" ;;
     messages <- load (firstn limit keys) ;;
     ret (sort_recent_first messages))
    (fun _ => ret []).

End DeadLetterQueue.

(* ===================================================================== *)
(** ** DLQManager (services/DLQManager.ts) *)
(* ===================================================================== *)

Module DLQManager.

Record DLQProcessingStats := mkStats {
  processed : Z;
  retried : Z;
  failed : Z;
  discarded : Z
}.

Definition recoverableErrors : list string :=
  ["CONNECTION_RESET"; "TIMEOUT"; "NETWORK_ERROR"; "TEMPORARY_FAILURE";
   "RATE_LIMIT"; "SERVICE_UNAVAILABLE"].

Definition nonRecoverableErrors : list string :=
  ["AUTHENTICATION_ERROR"; "INVALID_MESSAGE_FORMAT"; "VALIDATION_ERROR";
   "PERMISSION_DENIED"; "NOT_FOUND"].

Definition isRecoverableError (error : string) : bool :=
  if Js.some (fun errType => Js.includes error errType) nonRecoverableErrors then false
  else if Js.some (fun errType => Js.includes error errType) recoverableErrors then true
  else true.

(** [timeDiff = (now - lastError) / 1000 < 300] on milliseconds. *)
Definition minRetryDelay : Z := 300.

Definition shouldRetryMessage (message : DLQMessage) : M World bool :=
  if maxRetries message <=? retryCount message then ret false
  else
    now <- Date_now ;;
    if now - lastErrorTimestamp message <? minRetryDelay * 1000 then ret false
    else ret (isRecoverableError (error message)).

(** The decision of [shouldRetryMessage] in the words of the
    specification, at the clock reading [now]: retries left, the minimum
    delay elapsed, and a recoverable error. *)
Definition decision (now : Z) (m : DLQMessage) : bool :=
  (retryCount m <? maxRetries m)
  && (minRetryDelay * 1000 <=? now - lastErrorTimestamp m)
  && isRecoverableError (error m).

Definition archiveMessage (message : DLQMessage) : M World unit :=
  day <- Date_now ;;
  let archiveKey := "dlq:archive:" ++ isoDate day in
  now <- Date_now ;;
  let archiveData :=
    mkArchiveData (id message) now (originalRoutingKey message)
                  (error message) (retryCount message) (instanceId message) in
  try_catch
    (RedisClient.lpush archiveKey archiveData ;;;
     RedisClient.expire archiveKey (30 * 24 * 60 * 60))
    (fun _ => ret tt).

Definition discardMessage (message : DLQMessage) : M World unit :=
  try_catch
    (archiveMessage message ;;;
     RedisClient.del (DeadLetterQueue.message_key (id message)) ;;;
     ret tt)
    (fun _ => ret tt).

Definition bump_retried (s : DLQProcessingStats) : DLQProcessingStats :=
  mkStats (processed s) (retried s + 1) (failed s) (discarded s).
Definition bump_failed (s : DLQProcessingStats) : DLQProcessingStats :=
  mkStats (processed s) (retried s) (failed s + 1) (discarded s).
Definition bump_discarded (s : DLQProcessingStats) : DLQProcessingStats :=
  mkStats (processed s) (retried s) (failed s) (discarded s + 1).
Definition bump_processed (s : DLQProcessingStats) : DLQProcessingStats :=
  mkStats (processed s + 1) (retried s) (failed s) (discarded s).

(** The body of the sweep's loop for one record (the 100 ms pause only
    lets the clock advance). *)
Definition process_one (message : DLQMessage) (stats : DLQProcessingStats)
  : M World DLQProcessingStats :=
  let stats := bump_processed stats in
  try_catch
    (retryIt <- shouldRetryMessage message ;;
     if retryIt then
       retrySuccess <- DeadLetterQueue.retryMessage (id message) ;;
       ret (if retrySuccess then bump_retried stats else bump_failed stats)
     else
       discardMessage message ;;;
       ret (bump_discarded stats))
    (fun _ => ret (bump_failed stats)).

Fixpoint process_all (messages : list DLQMessage) (stats : DLQProcessingStats)
  : M World DLQProcessingStats :=
  match messages with
  | [] => ret stats
  | m :: rest =>
      stats' <- process_one m stats ;;
      process_all rest stats'
  end.

Definition processFailedMessages : M World DLQProcessingStats :=
  dlqMessages <- DeadLetterQueue.getDLQMessages 100 ;;
  process_all dlqMessages (mkStats 0 0 0 0).

Fixpoint retry_all (messages : list DLQMessage) (stats : DLQProcessingStats)
  : M World DLQProcessingStats :=
  match messages with
  | [] => ret stats
  | m :: rest =>
      let stats := bump_processed stats in
      if retryCount m <? maxRetries m then
        success <- DeadLetterQueue.retryMessage (id m) ;;
        retry_all rest (if success then bump_retried stats else bump_failed stats)
      else retry_all rest (bump_discarded stats)
  end.

Definition retryAllMessages : M World DLQProcessingStats :=
  dlqMessages <- DeadLetterQueue.getDLQMessages 1000 ;;
  retry_all dlqMessages (mkStats 0 0 0 0).

End DLQManager.

(* ===================================================================== *)
(** ** UnifiedConsumer (services/UnifiedConsumer.ts): the error path *)
(* ===================================================================== *)

Module UnifiedConsumer.

(** A delivery as amqplib hands it over. *)
Record ConsumedMessage := mkMessage {
  content : string;
  msg_headers : option Headers;     (* properties?.headers *)
  deliveryTag : Z;
  fields_exchange : string;
  fields_routingKey : string
}.

(** [Required<ConsumerConfig>]: the constructor installs these values
    whatever it is given. *)
Record ConsumerConfig := mkConfig {
  maxRetries : Z;
  retryDelay : Z;
  dlqEnabled : bool
}.

Definition config : ConsumerConfig := mkConfig 3 1000 true.

Definition errorHandler : RabbitMQErrorHandler.ErrorHandlingConfig :=
  RabbitMQErrorHandler.constructor
    (RabbitMQErrorHandler.mkPartial
       (Some (maxRetries config)) (Some (retryDelay config)) (Some true)
       (Some (dlqEnabled config)) (Some RabbitMQErrorHandler.error)).

Definition sendCommands : string := "whatsapp.send.commands".
Definition messageBridge : string := "whatsapp.messages.bridge".

(** Truthiness of a header value. *)
Definition truthy (v : HeaderValue) : bool :=
  match v with
  | HNum n => negb (n =? 0)
  | HStr s => Js.truthy_string s
  | HBool b => b
  | HDate _ => true
  | HUndefined => false
  end.

(** [msg.properties?.headers?.['x-retry-count'] || 0]: the header's own
    value when it is truthy, of whatever kind. *)
Definition retryCount (msg : ConsumedMessage) : HeaderValue :=
  match msg_headers msg with
  | Some h =>
      match get_prop "x-retry-count" h with
      | Some v => if truthy v then v else HNum 0
      | None => HNum 0
      end
  | None => HNum 0
  end.

(** The retry count as the number it is, for a delivery whose
    [retryCount] is a number: the header is absent, falsy, or a number
    (this consumer writes numbers).  A truthy header of another kind (a
    string, [true]) goes as it is through the comparisons with
    [maxRetries] and through [+ 1], with JavaScript's coercions, which this
    embedding does not follow: what depends on the count is stated for
    deliveries with [retryCount msg = HNum n]. *)
Definition retry_count (msg : ConsumedMessage) : Z :=
  match msg_headers msg with
  | Some h =>
      match get_prop "x-retry-count" h with
      | Some (HNum n) => n
      | _ => 0
      end
  | None => 0
  end.

Definition type_name (ty : RabbitMQErrorHandler.RabbitMQErrorType) : string :=
  match ty with
  | RabbitMQErrorHandler.CONNECTION_REFUSED => "CONNECTION_REFUSED"
  | RabbitMQErrorHandler.ACCESS_REFUSED => "ACCESS_REFUSED"
  | RabbitMQErrorHandler.NOT_FOUND => "NOT_FOUND"
  | RabbitMQErrorHandler.PRECONDITION_FAILED => "PRECONDITION_FAILED"
  | RabbitMQErrorHandler.RESOURCE_LOCKED => "RESOURCE_LOCKED"
  | RabbitMQErrorHandler.CHANNEL_ERROR => "CHANNEL_ERROR"
  | RabbitMQErrorHandler.PERMISSION_DENIED => "PERMISSION_DENIED"
  | RabbitMQErrorHandler.QUEUE_NOT_FOUND => "QUEUE_NOT_FOUND"
  | RabbitMQErrorHandler.EXCHANGE_NOT_FOUND => "EXCHANGE_NOT_FOUND"
  | RabbitMQErrorHandler.INVALID_ROUTING_KEY => "INVALID_ROUTING_KEY"
  | RabbitMQErrorHandler.MESSAGE_TOO_LARGE => "MESSAGE_TOO_LARGE"
  | RabbitMQErrorHandler.UNKNOWN_ERROR => "UNKNOWN_ERROR"
  end.

Definition inherited (msg : ConsumedMessage) : Headers :=
  match msg_headers msg with Some h => h | None => [] end.

Definition message_value (err : JsError) : HeaderValue :=
  match err_message err with Some m => HStr m | None => HUndefined end.

Definition retry_headers (msg : ConsumedMessage) (err : JsError) (retryCount failedAt : Z)
           (ty : RabbitMQErrorHandler.RabbitMQErrorType) : Headers :=
  set_prop "x-error-type" (HStr (type_name ty))
    (set_prop "x-failed-at" (HDate failedAt)
       (set_prop "x-error-message" (message_value err)
          (set_prop "x-retry-count" (HNum (retryCount + 1)) (inherited msg)))).

Definition dlq_headers (msg : ConsumedMessage) (err : JsError) (retryCount failedAt : Z)
           (ty : RabbitMQErrorHandler.RabbitMQErrorType) : Headers :=
  set_prop "x-final-error" (HBool true)
    (set_prop "x-error-type" (HStr (type_name ty))
       (set_prop "x-failed-at" (HDate failedAt)
          (set_prop "x-error-message" (message_value err)
             (set_prop "x-retry-count" (HNum retryCount) (inherited msg))))).

(** [await this.channel.publish(...)] on the consumer's open channel. *)
Definition channel_publish (exchange routingKey : string) (content : Body)
           (options : PublishOptions) : M World bool :=
  published <- io_call ;;
  effect (Publish exchange routingKey content options published) ;;;
  ret published.

(** [handleMessageError(msg, error, context)].  The call of
    [handleError] stands before the [try]: its first step, in
    [analyzeError], reads [error.message], ahead of the clock. *)
Definition handleMessageError (msg : ConsumedMessage) (error : Thrown)
           (context : string) : M World unit :=
  err <- read_property "message" error ;;
  now <- Date_now ;;
  let errorAction :=
    RabbitMQErrorHandler.handleError errorHandler now err context (retry_count msg) in
  let ty := RabbitMQErrorHandler.type (RabbitMQErrorHandler.errorInfo errorAction) in
  try_catch
    (let retryCount := retry_count msg in
     if RabbitMQErrorHandler.action_eqb (RabbitMQErrorHandler.action errorAction)
          RabbitMQErrorHandler.retry
        && (retryCount <? maxRetries config) then
       failedAt <- Date_now ;;
       let headers := retry_headers msg err retryCount failedAt ty in
       effect (SetTimeoutPublish (RabbitMQErrorHandler.delay errorAction)
                 "baileys.events" "message.retry" (Bytes (content msg))
                 (mkOptions true None None headers)) ;;;
       effect (Ack (deliveryTag msg))
     else if RabbitMQErrorHandler.action_eqb (RabbitMQErrorHandler.action errorAction)
               RabbitMQErrorHandler.dlq
             && dlqEnabled config then
       failedAt <- Date_now ;;
       let headers := dlq_headers msg err retryCount failedAt ty in
       channel_publish "baileys.dlx" "dead.letter" (Bytes (content msg))
                       (mkOptions true None None headers) ;;;
       effect (Ack (deliveryTag msg))
     else
       effect (Nack (deliveryTag msg) false false))
    (fun _ => effect (Nack (deliveryTag msg) false false)).

(** The callback given to [channel.consume]: [handler] stands for the
    parse of the content followed by the business handler. *)
Definition on_delivery (handler : ConsumedMessage -> M World unit)
           (context : string) (msg : ConsumedMessage) : M World unit :=
  try_catch
    (handler msg ;;; effect (Ack (deliveryTag msg)))
    (fun err => handleMessageError msg err context).

End UnifiedConsumer.

(* ===================================================================== *)
(** ** RedisConsumer (src/services/RedisConsumer.ts) *)
(* ===================================================================== *)

Module RedisConsumer.

(** [WhatsAppMessageEvent]; the two object-valued fields are kept as
    the text [JSON.stringify] writes for their value, absent when the
    property is missing or [undefined]. *)
Record WhatsAppMessageEvent := mkEvent {
  sessionId : string;
  messageId : string;
  fromUser : string;
  toUser : option string;
  ev_timestamp : string;
  messageType : string;
  ev_content : option string;
  mediaInfo : option string;
  originalMessage : option string;
  eventTimestamp : string;
  eventId : string
}.

(** The field-value pairs of a stream entry. *)
Record StreamData := mkData {
  d_sessionId : string;
  d_messageId : string;
  d_fromUser : string;
  d_toUser : string;
  d_timestamp : string;
  d_messageType : string;
  d_content : string;
  d_mediaInfo : string;
  d_originalMessage : string;
  d_eventTimestamp : string;
  d_eventId : string
}.

Record StreamMessage := mkStreamMessage {
  entry_id : string;
  message : StreamData
}.

Definition streamName : string := "whatsapp:messages".
Definition consumerGroup : string := "message-processors".

Definition or_empty (s : option string) : string :=
  match s with Some v => v | None => "" end.

Definition truthy_or_undefined (s : string) : option string :=
  if Js.truthy_string s then Some s else None.

Section WithJson.

(** Whether [JSON.parse] accepts a text. *)
Variable valid_json : string -> bool.

Definition JSON_parse (s : string) : M World string :=
  if valid_json s then ret s
  else throw (Error "Unexpected end of JSON input").

(** [connect()]: nothing to do with a connected client; otherwise a
    client is created, it connects (its [connect] event sets
    [isConnected]) and the consumer group is created, an existing group
    ([BUSYGROUP]) being fine.  The [error] and [end] events, which reset
    [isConnected], come from outside. *)
Definition connect : M World unit :=
  try_catch
    (connected <- gets rc_connected ;;
     client <- gets rc_client ;;
     if connected && client then ret tt
     else
       modify (with_rc_client true) ;;;
       io_call ;;;
       modify (with_rc_connected true) ;;;
       try_catch
         (io_call ;;; ret tt)
         (fun error =>
            e <- read_property "message" error ;;
            match err_message e with
            | Some m => if Js.includes m "BUSYGROUP" then ret tt else throw e
            | None => throw (TypeError "undefined" "includes")
            end))
    (fun e => throw e).

(** The [streamData] of [addMessageToStream]: [x ? JSON.stringify(x) : '']
    tests the value of the two object-valued fields, not its text. *)
Definition streamData (message : WhatsAppMessageEvent) : StreamData :=
  mkData (sessionId message) (messageId message) (fromUser message)
         (or_empty (toUser message)) (ev_timestamp message)
         (messageType message) (or_empty (ev_content message))
         (match mediaInfo message with
          | Some j => if Js.truthy_json j then j else ""
          | None => ""
          end)
         (match originalMessage message with
          | Some j => if Js.truthy_json j then j else ""
          | None => ""
          end)
         (eventTimestamp message) (eventId message).

(** [addMessageToStream(message)]: the id Redis assigns, or [null] when
    anything on the way threw. *)
Definition addMessageToStream (message : WhatsAppMessageEvent)
  : M World (option string) :=
  try_catch
    (connect ;;;
     client <- gets rc_client ;;
     if negb client then throw (Error "Cliente Redis não disponível")
     else
       io_call ;;;
       assigned <- Math_random36 ;;
       effect (XAdd streamName (eventId message)) ;;;
       ret (Some assigned))
    (fun _ => ret None).

(** [await this.client?.xAck(stream, group, id)] *)
Definition xAck (entryId : string) : M World unit :=
  client <- gets rc_client ;;
  if client then
    io_call ;;;
    effect (XAck streamName consumerGroup entryId)
  else ret tt.

Definition decode (messageData : StreamData) : M World WhatsAppMessageEvent :=
  media <- (if Js.truthy_string (d_mediaInfo messageData)
            then (j <- JSON_parse (d_mediaInfo messageData) ;; ret (Some j))
            else ret None) ;;
  original <- JSON_parse (d_originalMessage messageData) ;;
  ret (mkEvent (d_sessionId messageData) (d_messageId messageData)
               (d_fromUser messageData)
               (truthy_or_undefined (d_toUser messageData))
               (d_timestamp messageData) (d_messageType messageData)
               (truthy_or_undefined (d_content messageData))
               media (Some original)
               (d_eventTimestamp messageData) (d_eventId messageData)).

(** [processMessage(message)]; [onMessageCallback] is the callback
    installed by [startConsuming], if any. *)
Definition processMessage
           (onMessageCallback : option (WhatsAppMessageEvent -> M World unit))
           (message : StreamMessage) : M World unit :=
  try_catch
    (whatsappMessage <- decode (RedisConsumer.message message) ;;
     match onMessageCallback with
     | Some callback =>
         effect (Callback (eventId whatsappMessage)) ;;;
         callback whatsappMessage
     | None => ret tt
     end ;;;
     xAck (entry_id message))
    (fun _ =>
       try_catch (xAck (entry_id message)) (fun _ => ret tt)).

End WithJson.

End RedisConsumer.

(* ===================================================================== *)
(** ** MessageBridge (services/MessageBridge.ts) *)
(* ===================================================================== *)

Module MessageBridge.

Definition queueName : string := "whatsapp.messages.bridge".

Section WithJson.

Variable valid_json : string -> bool.

(** [JSON.parse(msg.content.toString())] read as an event. *)
Variable parse_event : string -> option RedisConsumer.WhatsAppMessageEvent.

(** The callback of [startRabbitConsumer], for a non-null delivery. *)
Definition on_delivery (msg : UnifiedConsumer.ConsumedMessage) : M World unit :=
  try_catch
    (messageEvent <-
       match parse_event (UnifiedConsumer.content msg) with
       | Some ev => ret ev
       | None => throw (Error "Unexpected token in JSON")
       end ;;
     RedisConsumer.addMessageToStream messageEvent ;;;
     effect (Ack (UnifiedConsumer.deliveryTag msg)))
    (fun _ => effect (Nack (UnifiedConsumer.deliveryTag msg) false false)).

(** [saveMessage] of the database, as the surroundings decide it. *)
Variable saveMessage : RedisConsumer.WhatsAppMessageEvent -> M World unit.

(** The storage callback of [startRedisConsumer]: it rethrows. *)
Definition processMessage (messageEvent : RedisConsumer.WhatsAppMessageEvent)
  : M World unit :=
  try_catch (saveMessage messageEvent) (fun e => throw e).

(** One entry of the log on its way to the store. *)
Definition relay_entry (message : RedisConsumer.StreamMessage) : M World unit :=
  RedisConsumer.processMessage valid_json (Some processMessage) message.

End WithJson.

End MessageBridge.

(* ===================================================================== *)
(** ** Sample surroundings and inputs *)
(* ===================================================================== *)

Module Sample.

(** 2026-11-03T00:00:00Z, one second per clock reading; every external
    call succeeds; connections are up; Redis is empty. *)
Definition steady : World :=
  mkWorld (fun n => 1793664000000 + 1000 * Z.of_nat n) 0
          (fun _ => "k3x9q") 0
          (fun _ => IoOk) 0
          ∅ ∅ [] true true true true true.

(** The same surroundings with other outcomes of the external calls. *)
Definition with_io (f : nat -> IoOutcome) (w : World) : World :=
  mkWorld (clock w) (ticks w) (random w) (draws w) f (calls w)
          (kv w) (lists w) (log w) (dlq_connection w) (dlq_channel w)
          (redis_open w) (rc_client w) (rc_connected w).

Definition channel_closed : JsError := Error "Channel closed".

(** The n-th external call throws, the others succeed. *)
Definition failing_at (n : nat) : nat -> IoOutcome :=
  fun k => if Nat.eqb k n then IoThrow channel_closed else IoOk.

(** The n-th external call resolves to [false], the others succeed. *)
Definition refused_at (n : nat) : nat -> IoOutcome :=
  fun k => if Nat.eqb k n then IoFalse else IoOk.

(** [{"command":"send_message","instanceId":"s1"}] *)
Definition command_json : string :=
  "{" ++ Js.quoted "command" ++ ":" ++ Js.quoted "send_message" ++ ","
  ++ Js.quoted "instanceId" ++ ":" ++ Js.quoted "s1" ++ "}".

(** A send command delivered from [whatsapp.send.commands] through the
    default exchange, first attempt. *)
Definition command : UnifiedConsumer.ConsumedMessage :=
  UnifiedConsumer.mkMessage command_json None 7 "" "whatsapp.send.commands".

(** The same command on its second and on its fourth delivery, and with a
    count that arrived as a string. *)
Definition command_again (v : HeaderValue) : UnifiedConsumer.ConsumedMessage :=
  UnifiedConsumer.mkMessage command_json (Some [("x-retry-count", v)]) 7 ""
                            "whatsapp.send.commands".

Definition locked : JsError := mkError (NumCode 405) (Some "resource busy").
Definition refused : JsError := mkError (NumCode 503) (Some "broker away").

(** A handler whose parse of the content succeeds and whose business
    part throws. *)
Definition throwing (e : Thrown) : UnifiedConsumer.ConsumedMessage -> M World unit :=
  fun _ => throw e.

(** [{"to":"5511"}] *)
Definition payload_json : string :=
  "{" ++ Js.quoted "to" ++ ":" ++ Js.quoted "5511" ++ "}".

(** A parked record: two retries left, last error at the clock's origin. *)
Definition parked : DLQMessage :=
  mkDLQMessage "dlq-1-abc" "instance.create" "baileys.events" "unknown"
               "{'to':'5511'}" "TIMEOUT: no answer" 1 3
               1793660000000 1793663000000 None.

Definition exhausted : DLQMessage :=
  mkDLQMessage "dlq-2-def" "instance.create" "baileys.events" "unknown"
               "{'to':'5511'}" "TIMEOUT: no answer" 3 3
               1793660000000 1793663000000 None.

(** A record with all its retries left whose error names a category of
    both lists. *)
Definition invalid : DLQMessage :=
  mkDLQMessage "dlq-3-ghi" "instance.create" "baileys.events" "unknown"
               "{'to':'5511'}" "VALIDATION_ERROR after TIMEOUT" 0 3
               1793660000000 1793663000000 None.

Definition holding (m : DLQMessage) (w : World) : World :=
  with_kv (insert (DeadLetterQueue.message_key (id m)) (m, Some 604800)) w.

(** [{"key":{"id":"m1"}}] *)
Definition original_json : string :=
  "{" ++ Js.quoted "key" ++ ":{" ++ Js.quoted "id" ++ ":" ++ Js.quoted "m1" ++ "}}".

Definition event : RedisConsumer.WhatsAppMessageEvent :=
  RedisConsumer.mkEvent "s1" "m1" "5511@s.whatsapp.net" None
                        "2026-11-03T00:00:00.000Z" "text" (Some "oi") None
                        (Some original_json) "2026-11-03T00:00:00.000Z" "e1".

(** The text the producer publishes for [event]. *)
Definition event_json : string :=
  "{" ++ Js.quoted "sessionId" ++ ":" ++ Js.quoted "s1" ++ ","
  ++ Js.quoted "messageId" ++ ":" ++ Js.quoted "m1" ++ ","
  ++ Js.quoted "fromUser" ++ ":" ++ Js.quoted "5511@s.whatsapp.net" ++ ","
  ++ Js.quoted "timestamp" ++ ":" ++ Js.quoted "2026-11-03T00:00:00.000Z" ++ ","
  ++ Js.quoted "messageType" ++ ":" ++ Js.quoted "text" ++ ","
  ++ Js.quoted "content" ++ ":" ++ Js.quoted "oi" ++ ","
  ++ Js.quoted "originalMessage" ++ ":" ++ original_json ++ ","
  ++ Js.quoted "eventTimestamp" ++ ":" ++ Js.quoted "2026-11-03T00:00:00.000Z" ++ ","
  ++ Js.quoted "eventId" ++ ":" ++ Js.quoted "e1" ++ "}".

(** A delivery of [event] from the bridge queue. *)
Definition relayed : UnifiedConsumer.ConsumedMessage :=
  UnifiedConsumer.mkMessage event_json None 7 "whatsapp.messages" "message.received".

Definition entry : RedisConsumer.StreamMessage :=
  RedisConsumer.mkStreamMessage "1793664000000-0" (RedisConsumer.streamData event).

Definition nonempty (s : string) : bool := Js.truthy_string s.

(** [JSON.parse] on the texts of these samples. *)
Definition is_json (s : string) : bool :=
  String.eqb s original_json || String.eqb s event_json || String.eqb s command_json.

(** The bridge's reading of a content: the one text that is an event. *)
Definition parse_event (s : string) : option RedisConsumer.WhatsAppMessageEvent :=
  if String.eqb s event_json then Some event else None.

End Sample.

(* ===================================================================== *)
(** ** SessionManager (services/SessionManager.ts), the send path *)
(* ===================================================================== *)

Module SessionManager.

(** The fields of a [MessageLogEntry] that [sendMessage] fills in
    ([direction] is always ['outgoing']); the timestamp is the clock
    reading that [toISOString] formats. *)
Record MessageLogEntry := mkLogEntry {
  le_timestamp : Z;
  le_sessionId : string;
  le_messageId : string;
  le_fromUser : string;
  le_toUser : string;
  le_messageType : string;
  le_content : string;
  le_status : string;
  le_errorMessage : option string
}.

(** What the two send methods answer when they return. *)
Inductive SendResult :=
| Sent (messageId : string) (timestamp : Z)
| RateLimitExceeded (message : option string) (retryAfter timeRemaining : option Z)
| Blocked (reason : option string) (timeRemaining : option Z).

(** What the manager holds besides the breaker: the rate limiter
    singleton, the active sessions (each with its [user?.id]), the
    outcomes of the sockets' [sendMessage] in the order of the calls
    (the sent message's [key.id], [undefined], or a throw), the calls
    made so far, and the entries handed to the message logger. *)
Record Env := mkEnv {
  rateLimiter : RateLimiter.t;
  activeSessions : gmap string (option string);
  socket : nat -> Res (option string);
  sends : list (string * string * string);
  messageLog : list MessageLogEntry
}.

Definition with_limiter (rl : RateLimiter.t) (e : Env) : Env :=
  mkEnv rl (activeSessions e) (socket e) (sends e) (messageLog e).

Definition with_send (call : string * string * string) (e : Env) : Env :=
  mkEnv (rateLimiter e) (activeSessions e) (socket e) (sends e ++ [call]) (messageLog e).

Definition with_entry (entry : MessageLogEntry) (e : Env) : Env :=
  mkEnv (rateLimiter e) (activeSessions e) (socket e) (sends e) (messageLog e ++ [entry]).

Section Run.

Variable clock : nat -> Z.

Definition St : Type := CircuitBreakerService.St Env.

Definition Date_now : M St Z := CircuitBreakerService.Date_now Env clock.

Definition env : M St Env := gets (fun s => CircuitBreakerService.ext (snd s)).

Definition set_env (f : Env -> Env) : M St unit :=
  modify (fun '(cb, w) =>
            (cb, CircuitBreakerService.mkWorld (CircuitBreakerService.ticks w)
                                               (f (CircuitBreakerService.ext w)))).

(** [rateLimiter.canSendMessage(key, content)] on the singleton. *)
Definition canSendMessage (key content : string) : M St RateLimiter.RateLimitResult :=
  now <- Date_now ;;
  e <- env ;;
  let '(result, rl) := RateLimiter.canSendMessage now key content (rateLimiter e) in
  set_env (with_limiter rl) ;;;
  ret result.

(** [session.sendMessage(to, { text })] of the socket. *)
Definition session_sendMessage (sessionId to text : string)
  : CircuitBreakerService.Action Env (option string) :=
  fun w =>
    let e := CircuitBreakerService.ext w in
    (socket e (length (sends e)),
     CircuitBreakerService.mkWorld (CircuitBreakerService.ticks w)
                                   (with_send (sessionId, to, text) e)).

(** [messageLogger.logMessage(entry)]: it catches what it throws. *)
Definition logMessage (entry : MessageLogEntry) : M St unit :=
  set_env (with_entry entry).

(** [x || 'unknown'] *)
Definition or_unknown (x : option string) : string :=
  match x with
  | Some s => if Js.truthy_string s then s else "unknown"
  | None => "unknown"
  end.

(** [error?.message] when it is truthy; [None] stands for
    [String(error)]. *)
Definition message_of (error : Thrown) : option string :=
  match error with
  | Value e =>
      match err_message e with
      | Some m => if Js.truthy_string m then Some m else None
      | None => None
      end
  | _ => None
  end.

(** [sendMessage(sessionId, to, content, messageType)]: the limiter is
    asked under the key [sessionId:to] before the session is looked up;
    the socket is called under the breaker; the catch block logs and
    rethrows. *)
Definition sendMessage (sessionId to content messageType : string) : M St SendResult :=
  try_catch
    (result <- canSendMessage (sessionId ++ ":" ++ to) content ;;
     if negb (RateLimiter.allowed result) then
       ret (RateLimitExceeded (RateLimiter.reason result)
                              (RateLimiter.retryAfter result)
                              (RateLimiter.timeRemaining result))
     else
       e <- env ;;
       match activeSessions e !! sessionId with
       | None => throw (Error ("Sessão " ++ sessionId ++ " não encontrada"))
       | Some user =>
           messageResult <-
             CircuitBreakerService.execute clock
               (session_sendMessage sessionId to content) ;;
           stamp <- Date_now ;;
           match messageResult with
           | None =>
               throw (Error "Cannot read properties of undefined (reading 'key')")
           | Some mid =>
               logMessage (mkLogEntry stamp sessionId mid (or_unknown user) to
                                      messageType content "success" None) ;;;
               stamp' <- Date_now ;;
               ret (Sent mid stamp')
           end
       end)
    (fun error =>
       stamp <- Date_now ;;
       now <- Date_now ;;
       logMessage (mkLogEntry stamp sessionId ("error_" ++ pretty now) "unknown" to
                              messageType content "error" (message_of error)) ;;;
       throw error).

(** [sendMessageWithRateLimit]: [RateLimiter.getInstance()] is the
    manager's own limiter; the session id is the key and the recipient
    is the content of this first check. *)
Definition sendMessageWithRateLimit (sessionId to message : string) : M St SendResult :=
  result <- canSendMessage sessionId to ;;
  if negb (RateLimiter.allowed result) then
    ret (Blocked (RateLimiter.reason result) (RateLimiter.timeRemaining result))
  else sendMessage sessionId to message "text".

(** [resetRateLimit(sessionId, recipient)] *)
Definition resetRateLimit (sessionId recipient : string) : M St unit :=
  set_env (fun e => with_limiter (RateLimiter.resetForRecipient sessionId recipient
                                    (rateLimiter e)) e).

End Run.

(** The breaker of the constructor: 3 failures, 45 s. *)
Definition sendMessageCircuitBreaker : CircuitBreakerService.t :=
  CircuitBreakerService.constructor
    (CircuitBreakerService.mkConfig 3 45000 "SessionManager-Send").

(** The limiter a state holds, and the next clock reading. *)
Definition limiter (s : St) : RateLimiter.t :=
  rateLimiter (CircuitBreakerService.ext (snd s)).

Definition reading (clock : nat -> Z) (s : St) : Z :=
  clock (CircuitBreakerService.ticks (snd s)).

(** A manager that has sent nothing yet: one active session, a socket
    that delivers, the default limiter and the constructor's breaker. *)
Definition quiet : Env :=
  mkEnv RateLimiter.default {["s1" := Some "5511@s.whatsapp.net"]}
        (fun _ => Ok (Some "3EB0A1")) [] [].

Definition fresh : St :=
  (sendMessageCircuitBreaker, CircuitBreakerService.mkWorld 0 quiet).

End SessionManager.

(* ===================================================================== *)
(** ** Notions the further properties are stated with *)
(* ===================================================================== *)

(** A computation leaves one component of its state as it found it. *)
Definition keeps {S A X} (f : S -> X) (m : M S A) : Prop :=
  forall s, f (snd (m s)) = f s.

Section RateLimiterNotions.
Import RateLimiter.

(** Every stored count lies between 1 and the maximum. *)
Definition counts_bounded (rl : t) : Prop :=
  forall k e, rateLimitMap rl !! k = Some e ->
              1 <= messageCount e <= MAX_MESSAGES_PER_WINDOW rl.

(** The attempts of one key with one content at the given times, in order. *)
Fixpoint attempts (times : list Z) (key content : string) (rl : t)
  : list RateLimitResult * t :=
  match times with
  | [] => ([], rl)
  | now :: rest =>
      let '(r, rl1) := canSendMessage now key content rl in
      let '(rs, rl2) := attempts rest key content rl1 in
      (r :: rs, rl2)
  end.

End RateLimiterNotions.

Section BreakerNotions.
Import CircuitBreakerService.
Variable Ext : Type.
Variable clock : nat -> Z.

(** The breaker is open exactly when the failure count has reached the
    threshold. *)
Definition tripped_iff_open (cb : t) : Prop :=
  isOpen cb = true <-> threshold cb <= failureCount cb.

(** Successive calls of [execute], one per action. *)
Fixpoint execute_all {T} (actions : list (Action Ext T)) (s : St Ext)
  : list (Res T) * St Ext :=
  match actions with
  | [] => ([], s)
  | a :: rest =>
      let '(r, s1) := execute clock a s in
      let '(rs, s2) := execute_all rest s1 in
      (r :: rs, s2)
  end.

(** An open breaker has reached its threshold. *)
Definition open_only_tripped (cb : t) : Prop :=
  isOpen cb = true -> threshold cb <= failureCount cb.

(** An action that never throws [undefined] or [null]. *)
Definition throws_values {T} (a : Action Ext T) : Prop :=
  forall w v w', a w = (Throw v, w') -> nullish v = false.

(** An action that throws, whenever it runs, a value other than
    [undefined] and [null]. *)
Definition always_fails {T} (a : Action Ext T) : Prop :=
  forall w, exists (e : JsError) w', a w = (Throw (Value e), w').

End BreakerNotions.

Arguments execute_all {Ext} clock {T} actions s.
Arguments throws_values {Ext T} a.
Arguments always_fails {Ext T} a.

Section ErrorHandlerNotions.
Import RabbitMQErrorHandler.

(** The three flags and the kind of [type] go together. *)
Definition flags_fit (i : RabbitMQErrorInfo) : Prop :=
  match type i with
  | ACCESS_REFUSED | PERMISSION_DENIED | NOT_FOUND | PRECONDITION_FAILED
  | QUEUE_NOT_FOUND | EXCHANGE_NOT_FOUND | INVALID_ROUTING_KEY | MESSAGE_TOO_LARGE =>
      retryable i = false /\ shouldReconnect i = false /\ shouldUseDLQ i = true
  | RESOURCE_LOCKED =>
      retryable i = true /\ shouldReconnect i = false /\ shouldUseDLQ i = false
      /\ retryDelay i = Some 5000
  | CONNECTION_REFUSED =>
      retryable i = true /\ shouldReconnect i = true /\ shouldUseDLQ i = false
      /\ retryDelay i = Some 2000
  | UNKNOWN_ERROR =>
      (retryable i = true /\ shouldReconnect i = true /\ shouldUseDLQ i = true)
      \/ (retryable i = false /\ shouldReconnect i = false /\ shouldUseDLQ i = false)
  | CHANNEL_ERROR => False
  end.

(** The action [handleError] answers, read off the type. *)
Definition action_for (cfg : ErrorHandlingConfig) (i : RabbitMQErrorInfo) (rc : Z) : Action :=
  match type i with
  | ACCESS_REFUSED | PERMISSION_DENIED => log
  | CONNECTION_REFUSED => reconnect
  | RESOURCE_LOCKED => if rc <? maxRetries cfg then retry else discard
  | UNKNOWN_ERROR => if shouldReconnect i then reconnect else discard
  | _ => if dlqEnabled cfg then dlq else discard
  end.

End ErrorHandlerNotions.

Section ConsumerNotions.
Import UnifiedConsumer.

(** The two calls that settle a delivery. *)
Definition settles (tag : Z) (e : Effect) : Prop :=
  e = Ack tag \/ e = Nack tag false false.

(** A call that hands a message to the broker, now or later. *)
Definition hands_over (e : Effect) : Prop :=
  match e with
  | Publish _ _ _ _ _ | SetTimeoutPublish _ _ _ _ _ => True
  | _ => False
  end.

(** The options of the publish to the dead-letter exchange. *)
Definition dlq_options (msg : ConsumedMessage) (err : JsError) (w : World)
           (ty : RabbitMQErrorHandler.RabbitMQErrorType) : PublishOptions :=
  mkOptions true None None
            (dlq_headers msg err (retry_count msg) (clock w (S (ticks w))) ty).

End ConsumerNotions.

(** No stored record has used more retries than it is allowed. *)
Definition budget_respected (w : World) : Prop :=
  forall k m ttl, kv w !! k = Some (m, ttl) -> retryCount m <= maxRetries m.


(** A field the stream carries without loss: [x || undefined] turns the
    empty string into [undefined]. *)
Definition field_survives (f : option string) : Prop :=
  f <> Some "".

Definition json_survives (valid_json : string -> bool) (f : option string) : Prop :=
  match f with
  | Some j => Js.truthy_string j = true /\ valid_json j = true
  | None => True
  end.

(** An object-valued field the stream carries without loss: its value is
    truthy, and [JSON.parse] accepts the text written for it. *)
Definition value_survives (valid_json : string -> bool) (f : option string) : Prop :=
  match f with
  | Some j => Js.truthy_json j = true /\ Js.truthy_string j = true /\ valid_json j = true
  | None => True
  end.

(* ===================================================================== *)
(** * Theorems *)
(* ===================================================================== *)

Section RateLimiterFacts.
Import RateLimiter.

Variable rl : t.
Variables (now : Z) (key content : string).

Lemma canSend_absent :
  rateLimitMap rl !! key = None ->
  canSendMessage now key content rl
  = (ok, set_map rl (<[key := mkEntry now 1 content]> (rateLimitMap rl))).
Proof. intros H. unfold canSendMessage. now rewrite H. Qed.

Lemma canSend_duplicate e :
  rateLimitMap rl !! key = Some e ->
  now - lastMessageTime e < RATE_LIMIT_WINDOW rl ->
  lastMessageContent e = content ->
  canSendMessage now key content rl
  = (rejected DUPLICATE (RATE_LIMIT_WINDOW rl - (now - lastMessageTime e)), rl).
Proof.
  intros H Hw Hc. unfold canSendMessage. rewrite H. cbn zeta.
  apply Z.ltb_lt in Hw. rewrite Hw.
  apply String.eqb_eq in Hc. now rewrite Hc.
Qed.

Lemma canSend_limited e :
  rateLimitMap rl !! key = Some e ->
  now - lastMessageTime e < RATE_LIMIT_WINDOW rl ->
  lastMessageContent e <> content ->
  MAX_MESSAGES_PER_WINDOW rl <= messageCount e ->
  canSendMessage now key content rl
  = (rejected RATE_LIMITED (RATE_LIMIT_WINDOW rl - (now - lastMessageTime e)), rl).
Proof.
  intros H Hw Hc Hm. unfold canSendMessage. rewrite H. cbn zeta.
  apply Z.ltb_lt in Hw. rewrite Hw.
  apply String.eqb_neq in Hc. rewrite Hc.
  apply Z.leb_le in Hm. now rewrite Hm.
Qed.

Lemma canSend_counted e :
  rateLimitMap rl !! key = Some e ->
  now - lastMessageTime e < RATE_LIMIT_WINDOW rl ->
  lastMessageContent e <> content ->
  messageCount e < MAX_MESSAGES_PER_WINDOW rl ->
  canSendMessage now key content rl
  = (ok, set_map rl (<[key := mkEntry now (messageCount e + 1) content]>
                       (rateLimitMap rl))).
Proof.
  intros H Hw Hc Hm. unfold canSendMessage. rewrite H. cbn zeta.
  apply Z.ltb_lt in Hw. rewrite Hw.
  apply String.eqb_neq in Hc. rewrite Hc.
  apply Z.leb_gt in Hm. now rewrite Hm.
Qed.

Lemma canSend_expired e :
  rateLimitMap rl !! key = Some e ->
  RATE_LIMIT_WINDOW rl <= now - lastMessageTime e ->
  canSendMessage now key content rl
  = (ok, set_map rl (<[key := mkEntry now 1 content]> (rateLimitMap rl))).
Proof.
  intros H Hw. unfold canSendMessage. rewrite H. cbn zeta.
  apply Z.ltb_ge in Hw. now rewrite Hw.
Qed.

End RateLimiterFacts.

(** [Math.ceil(x / d)] is the least integer whose multiple by [d] reaches [x]. *)
Lemma ceil_div_bounds x d :
  0 < d -> d * (Js.ceil_div x d - 1) < x <= d * Js.ceil_div x d.
Proof.
  intros Hd. unfold Js.ceil_div.
  pose proof (Z.mul_div_le (- x) d Hd).
  pose proof (Z.mul_succ_div_gt (- x) d Hd).
  lia.
Qed.

Section CircuitBreakerFacts.
Import CircuitBreakerService.

Variable Ext : Type.
Variable clock : nat -> Z.

Lemma execute_closed {T} (a : Action Ext T) cb w :
  isOpen cb = false ->
  execute clock a (cb, w) = settle clock cb (a w).
Proof.
  intros Hc. unfold CircuitBreakerService.execute, guard, bind, this, gets.
  cbn. rewrite Hc. cbn.
  unfold try_catch, bind, call. cbn.
  destruct (a w) as [[v|[| |e]] w']; cbn; try reflexivity.
  unfold failed. destruct (threshold cb <=? failureCount cb + 1); reflexivity.
Qed.

Lemma execute_probe {T} (a : Action Ext T) cb w :
  isOpen cb = true ->
  nextTryTime cb <= clock (ticks w) ->
  execute clock a (cb, w) = settle clock cb (a (later 1 w)).
Proof.
  intros Ho Ht. unfold CircuitBreakerService.execute, guard, bind, this, gets.
  cbn. rewrite Ho. cbn.
  apply Z.ltb_ge in Ht. rewrite Ht. cbn.
  unfold try_catch, bind, call, later. cbn.
  destruct (a _) as [[v|[| |e]] w']; cbn; try reflexivity.
  unfold failed. destruct (threshold cb <=? failureCount cb + 1); reflexivity.
Qed.

Lemma execute_rejected {T} (a : Action Ext T) cb w :
  isOpen cb = true ->
  clock (ticks w) < nextTryTime cb ->
  execute clock a (cb, w)
  = (Throw (Error (open_message (serviceName cb)
                     (Js.ceil_div (nextTryTime cb - clock (S (ticks w))) 1000))),
     (cb, later 2 w)).
Proof.
  intros Ho Ht. unfold CircuitBreakerService.execute, guard, bind, this, gets.
  cbn. rewrite Ho. cbn.
  apply Z.ltb_lt in Ht. rewrite Ht. reflexivity.
Qed.

(** A failure below the threshold is counted; the failure that reaches
    the threshold opens the breaker; a failure that carries [undefined] or
    [null] is counted and nothing more. *)
Lemma settle_counts {T} cb (e : JsError) (w' : World Ext) :
  failureCount cb + 1 < threshold cb ->
  @settle Ext clock T cb (Throw (Value e), w')
  = (Throw (Value e), (recorded cb (clock (ticks w')), later 1 w')).
Proof.
  intros H. apply Z.leb_gt in H. cbn. unfold failed. now rewrite H.
Qed.

Lemma settle_trips {T} cb (e : JsError) (w' : World Ext) :
  threshold cb <= failureCount cb + 1 ->
  @settle Ext clock T cb (Throw (Value e), w')
  = (Throw (Value e),
     (mk (failureCount cb + 1) (threshold cb) (cooldownTime cb) true
         (clock (S (ticks w')) + cooldownTime cb) (serviceName cb)
         (clock (ticks w')) (totalFailures cb + 1) (totalSuccesses cb),
      later 2 w')).
Proof.
  intros H. apply Z.leb_le in H. cbn. unfold failed. now rewrite H.
Qed.

Lemma settle_slips {T} cb v (w' : World Ext) :
  nullish v = true ->
  exists what,
    @settle Ext clock T cb (Throw v, w')
    = (Throw (Value (TypeError what "message")),
       (recorded cb (clock (ticks w')), later 1 w')).
Proof.
  destruct v as [| |e]; [intros _|intros _|discriminate]; eexists; reflexivity.
Qed.

End CircuitBreakerFacts.

Section RateLimiterClaims.
Import RateLimiter.

(** After an accepted send the entry of the key holds the time and the
    content of that send; the two constants never change. *)
Lemma canSend_allowed_entry rl now key content :
  allowed (fst (canSendMessage now key content rl)) = true ->
  exists n,
    rateLimitMap (snd (canSendMessage now key content rl)) !! key
    = Some (mkEntry now n content)
    /\ (n = 1 \/ exists e, rateLimitMap rl !! key = Some e /\ n = messageCount e + 1).
Proof.
  unfold canSendMessage.
  destruct (rateLimitMap rl !! key) as [e|] eqn:He; cbn zeta.
  - destruct (_ <? _).
    + destruct (String.eqb _ _); [discriminate|].
      destruct (_ <=? _); [discriminate|].
      intros _. exists (messageCount e + 1). cbn. rewrite lookup_insert_eq.
      split; [reflexivity|]. right. now exists e.
    + intros _. exists 1. cbn. rewrite lookup_insert_eq. now split; [|left].
  - intros _. exists 1. cbn. rewrite lookup_insert_eq. now split; [|left].
Qed.

Lemma canSend_constants rl now key content :
  RATE_LIMIT_WINDOW (snd (canSendMessage now key content rl)) = RATE_LIMIT_WINDOW rl
  /\ MAX_MESSAGES_PER_WINDOW (snd (canSendMessage now key content rl))
     = MAX_MESSAGES_PER_WINDOW rl.
Proof.
  unfold canSendMessage.
  destruct (rateLimitMap rl !! key) as [e|]; cbn zeta; [|now split].
  destruct (_ <? _); [|now split].
  destruct (String.eqb _ _); [now split|].
  destruct (_ <=? _); now split.
Qed.

(** C6. [canSendMessage] follows the case analysis: no entry: allowed, entry
    created with count 1; inside the window: duplicate content is rejected
    with the remaining window time, otherwise a count at the maximum is
    rejected as rate limited, otherwise the send is allowed, the count is
    incremented and the content stored; window elapsed: the entry is reset
    and the send allowed.  A rejection answers [allowed = false] with its
    reason and, twice, the time that remains of the window, and leaves the
    limiter as it was.  With a window of 30000 ms the same content sent
    again inside the window is rejected as duplicate, and with a maximum of
    1 a second send with another content inside the window is rejected as
    rate limited. *)
Theorem canSendMessage_case_analysis :
  (forall rl now key content,
      rateLimitMap rl !! key = None ->
      canSendMessage now key content rl
      = (mkResult true None None None,
         mk (<[key := mkEntry now 1 content]> (rateLimitMap rl))
            (RATE_LIMIT_WINDOW rl) (MAX_MESSAGES_PER_WINDOW rl)))
  /\ (forall rl now key content e,
         rateLimitMap rl !! key = Some e ->
         now - lastMessageTime e < RATE_LIMIT_WINDOW rl ->
         let remaining := RATE_LIMIT_WINDOW rl - (now - lastMessageTime e) in
         (lastMessageContent e = content ->
          canSendMessage now key content rl
          = (mkResult false (Some "Mensagem duplicada detectada")
                      (Some remaining) (Some remaining), rl))
         /\ (lastMessageContent e <> content ->
             MAX_MESSAGES_PER_WINDOW rl <= messageCount e ->
             canSendMessage now key content rl
             = (mkResult false (Some "Limite de mensagens atingido")
                         (Some remaining) (Some remaining), rl))
         /\ (lastMessageContent e <> content ->
             messageCount e < MAX_MESSAGES_PER_WINDOW rl ->
             canSendMessage now key content rl
             = (mkResult true None None None,
                mk (<[key := mkEntry now (messageCount e + 1) content]> (rateLimitMap rl))
                   (RATE_LIMIT_WINDOW rl) (MAX_MESSAGES_PER_WINDOW rl))))
  /\ (forall rl now key content e,
         rateLimitMap rl !! key = Some e ->
         RATE_LIMIT_WINDOW rl <= now - lastMessageTime e ->
         canSendMessage now key content rl
         = (mkResult true None None None,
            mk (<[key := mkEntry now 1 content]> (rateLimitMap rl))
               (RATE_LIMIT_WINDOW rl) (MAX_MESSAGES_PER_WINDOW rl)))
  /\ (forall rl t1 t2 key content,
         RATE_LIMIT_WINDOW rl = 30000 ->
         allowed (fst (canSendMessage t1 key content rl)) = true ->
         t2 - t1 < 30000 ->
         fst (canSendMessage t2 key content (snd (canSendMessage t1 key content rl)))
         = mkResult false (Some "Mensagem duplicada detectada")
                    (Some (30000 - (t2 - t1))) (Some (30000 - (t2 - t1))))
  /\ (forall rl t1 t2 key c1 c2,
         MAX_MESSAGES_PER_WINDOW rl = 1 ->
         (forall e, rateLimitMap rl !! key = Some e -> 1 <= messageCount e) ->
         allowed (fst (canSendMessage t1 key c1 rl)) = true ->
         c1 <> c2 ->
         t2 - t1 < RATE_LIMIT_WINDOW rl ->
         fst (canSendMessage t2 key c2 (snd (canSendMessage t1 key c1 rl)))
         = mkResult false (Some "Limite de mensagens atingido")
                    (Some (RATE_LIMIT_WINDOW rl - (t2 - t1)))
                    (Some (RATE_LIMIT_WINDOW rl - (t2 - t1)))).
Proof.
  split; [intros; now apply canSend_absent|].
  split.
  { intros rl now key content e He Hw remaining. repeat split; intros.
    - now apply canSend_duplicate.
    - now apply canSend_limited.
    - now apply canSend_counted. }
  split; [intros; now apply canSend_expired with (e := e)|].
  split.
  - intros rl t1 t2 key content HW Hok Ht.
    destruct (canSend_allowed_entry _ _ _ _ Hok) as (n & Hn & _).
    destruct (canSend_constants rl t1 key content) as [HW' _].
    set (rl1 := snd (canSendMessage t1 key content rl)) in *.
    rewrite (canSend_duplicate rl1 t2 key content _ Hn).
    + cbn. rewrite HW', HW. reflexivity.
    + cbn. rewrite HW', HW. exact Ht.
    + reflexivity.
  - intros rl t1 t2 key c1 c2 HM Hinv Hok Hne Ht.
    destruct (canSend_allowed_entry _ _ _ _ Hok) as (n & Hn & Hcount).
    destruct (canSend_constants rl t1 key c1) as [HW' HM'].
    set (rl1 := snd (canSendMessage t1 key c1 rl)) in *.
    rewrite (canSend_limited rl1 t2 key c2 _ Hn).
    + cbn. rewrite HW'. reflexivity.
    + cbn. rewrite HW'. exact Ht.
    + exact Hne.
    + cbn. rewrite HM', HM.
      destruct Hcount as [->|(e & He & ->)]; [lia|]. specialize (Hinv _ He). lia.
Qed.

(** C10. A rejected attempt (duplicate or rate limited) leaves the limiter
    as it was: the entry of the key keeps its time, count and content, and
    so does every other entry. *)
Theorem canSendMessage_rejected_unchanged :
  forall rl now key content,
    allowed (fst (canSendMessage now key content rl)) = false ->
    snd (canSendMessage now key content rl) = rl.
Proof.
  intros rl now key content. unfold canSendMessage.
  destruct (rateLimitMap rl !! key) as [e|]; cbn zeta; [|discriminate].
  destruct (_ <? _); [|discriminate].
  destruct (String.eqb _ _); [reflexivity|].
  destruct (_ <=? _); [reflexivity|discriminate].
Qed.

End RateLimiterClaims.

Section RateLimiterWitnesses.
Import RateLimiter.

Lemma canSendMessage_case_analysis_witness :
  let held := mkEntry 1000 1 "oi" in
  let one := mk {["s1:5511" := held]} 30000 1 in
  let two := mk {["s1:5511" := held]} 30000 2 in
  let duplicate := mkResult false (Some "Mensagem duplicada detectada")
                            (Some 29000) (Some 29000) in
  let limited := mkResult false (Some "Limite de mensagens atingido")
                          (Some 29000) (Some 29000) in
  canSendMessage 1000 "s1:5511" "oi" default = (mkResult true None None None, one)
  /\ canSendMessage 2000 "s1:5511" "oi" one = (duplicate, one)
  /\ canSendMessage 2000 "s1:5511" "tchau" one = (limited, one)
  /\ canSendMessage 2000 "s1:5511" "tchau" two
     = (mkResult true None None None,
        mk (<["s1:5511" := mkEntry 2000 2 "tchau"]> (rateLimitMap two)) 30000 2)
  /\ canSendMessage 31000 "s1:5511" "oi" one
     = (mkResult true None None None,
        mk (<["s1:5511" := mkEntry 31000 1 "oi"]> (rateLimitMap one)) 30000 1)
  /\ fst (canSendMessage 2000 "s1:5511" "oi"
            (snd (canSendMessage 1000 "s1:5511" "oi" default)))
     = duplicate
  /\ fst (canSendMessage 2000 "s1:5511" "tchau"
            (snd (canSendMessage 1000 "s1:5511" "oi" default)))
     = limited.
Proof.
  intros held one two duplicate limited.
  destruct canSendMessage_case_analysis as (Hnew & Hin & Hout & Hdup & Hlim).
  split.
  { rewrite (Hnew default 1000 "s1:5511" "oi"); reflexivity. }
  destruct (Hin one 2000 "s1:5511" "oi" held) as (Ha & _ & _);
    [reflexivity | cbn; lia |].
  split; [apply Ha; reflexivity|].
  destruct (Hin one 2000 "s1:5511" "tchau" held) as (_ & Hb & _);
    [reflexivity | cbn; lia |].
  split; [apply Hb; [discriminate | cbn; lia]|].
  destruct (Hin two 2000 "s1:5511" "tchau" held) as (_ & _ & Hc);
    [reflexivity | cbn; lia |].
  split; [apply Hc; [discriminate | cbn; lia]|].
  split; [apply (Hout one 31000 "s1:5511" "oi" held); [reflexivity | cbn; lia]|].
  split.
  - apply (Hdup default 1000 2000 "s1:5511" "oi"); [reflexivity | reflexivity | lia].
  - apply (Hlim default 1000 2000 "s1:5511" "oi" "tchau");
      [reflexivity | intros e He; discriminate He | reflexivity | discriminate | cbn; lia].
Defined.

Lemma canSendMessage_rejected_unchanged_witness :
  let one := mk {["s1:5511" := mkEntry 1000 1 "oi"]} 30000 1 in
  allowed (fst (canSendMessage 2000 "s1:5511" "oi" one)) = false
  /\ snd (canSendMessage 2000 "s1:5511" "oi" one) = one
  /\ snd (canSendMessage 2000 "s1:5511" "tchau" one) = one.
Proof.
  intros one. split; [reflexivity|]. split.
  - apply (canSendMessage_rejected_unchanged one 2000 "s1:5511" "oi"). reflexivity.
  - apply (canSendMessage_rejected_unchanged one 2000 "s1:5511" "tchau"). reflexivity.
Defined.

End RateLimiterWitnesses.

Section CircuitBreakerClaims.
Import CircuitBreakerService.

Variable Ext : Type.
Variable clock : nat -> Z.

(** C2.  A breaker created with threshold 3 is open after three
    consecutive executions whose action throws a value other than
    [undefined] and [null], with [nextTryTime] the clock reading taken on
    opening plus the cooldown.  While open and before [nextTryTime],
    [execute] throws an error carrying the remaining cooldown in seconds,
    rounded up, and the action is not run (the outcome does not depend on
    it and only the clock has been read, twice).  At or after
    [nextTryTime] the action is run, and when it succeeds the breaker is
    closed with [failureCount] 0.
    When the third failure carries [undefined] or [null], the failure is
    counted, [execute] throws the [TypeError] of the log line of
    [onFailure], and the breaker is left closed with three failures on its
    count. *)
Theorem breaker_transition :
  (forall (cooldown : Z) (name : string) (T : Type) (a1 a2 a3 : Action Ext T)
          w0 (e1 e2 e3 : JsError) w1 w2 w3,
      a1 w0 = (Throw (Value e1), w1) ->
      a2 (later 1 w1) = (Throw (Value e2), w2) ->
      a3 (later 1 w2) = (Throw (Value e3), w3) ->
      let s1 := snd (execute clock a1 (constructor (mkConfig 3 cooldown name), w0)) in
      let s2 := snd (execute clock a2 s1) in
      let r3 := execute clock a3 s2 in
      fst r3 = Throw (Value e3)
      /\ isOpen (fst (snd r3)) = true
      /\ failureCount (fst (snd r3)) = 3
      /\ nextTryTime (fst (snd r3)) = clock (S (ticks w3)) + cooldown
      /\ snd (snd r3) = later 2 w3)
  /\ (forall (T : Type) (a : Action Ext T) cb w,
         isOpen cb = true ->
         clock (ticks w) < nextTryTime cb ->
         exists seconds,
           1000 * (seconds - 1) < nextTryTime cb - clock (S (ticks w)) <= 1000 * seconds
           /\ execute clock a (cb, w)
              = (Throw (Error ("Circuit breaker aberto para " ++ serviceName cb
                               ++ ". Tente novamente em " ++ pretty seconds ++ "s")),
                 (cb, mkWorld (2 + ticks w) (ext w))))
  /\ (forall (T : Type) (a : Action Ext T) cb w,
         isOpen cb = true ->
         nextTryTime cb <= clock (ticks w) ->
         execute clock a (cb, w) = settle clock cb (a (later 1 w))
         /\ forall v w',
             a (later 1 w) = (Ok v, w') ->
             execute clock a (cb, w) = (Ok v, (succeeded cb, w'))
             /\ isOpen (succeeded cb) = false
             /\ failureCount (succeeded cb) = 0)
  /\ (forall (cooldown : Z) (name : string) (T : Type) (a1 a2 a3 : Action Ext T)
             w0 v1 v2 v3 w1 w2 w3,
         a1 w0 = (Throw v1, w1) ->
         a2 (later 1 w1) = (Throw v2, w2) ->
         a3 (later 1 w2) = (Throw v3, w3) ->
         nullish v3 = true ->
         let s1 := snd (execute clock a1 (constructor (mkConfig 3 cooldown name), w0)) in
         let s2 := snd (execute clock a2 s1) in
         let r3 := execute clock a3 s2 in
         (exists what, fst r3 = Throw (Value (TypeError what "message")))
         /\ isOpen (fst (snd r3)) = false
         /\ failureCount (fst (snd r3)) = 3
         /\ nextTryTime (fst (snd r3)) = 0
         /\ snd (snd r3) = later 1 w3).
Proof.
  split; [|split; [|split]].
  - intros cooldown name T a1 a2 a3 w0 e1 e2 e3 w1 w2 w3 H1 H2 H3 s1 s2 r3.
    set (cb0 := constructor (mkConfig 3 cooldown name)) in *.
    assert (E1 : s1 = (recorded cb0 (clock (ticks w1)), later 1 w1)).
    { subst s1. rewrite execute_closed by reflexivity. rewrite H1.
      rewrite settle_counts by (cbn; lia). reflexivity. }
    assert (E2 : s2 = (recorded (recorded cb0 (clock (ticks w1))) (clock (ticks w2)),
                       later 1 w2)).
    { subst s2. rewrite E1. rewrite execute_closed by reflexivity. rewrite H2.
      rewrite settle_counts by (cbn; lia). reflexivity. }
    subst r3. rewrite E2. rewrite execute_closed by reflexivity. rewrite H3.
    rewrite settle_trips by (cbn; lia). cbn. repeat split.
  - intros T a cb w Ho Ht.
    exists (Js.ceil_div (nextTryTime cb - clock (S (ticks w))) 1000).
    split; [apply ceil_div_bounds; lia|]. now apply execute_rejected.
  - intros T a cb w Ho Ht. split; [now apply execute_probe|].
    intros v w' Ha. rewrite execute_probe by assumption. rewrite Ha. cbn.
    repeat split.
  - intros cooldown name T a1 a2 a3 w0 v1 v2 v3 w1 w2 w3 H1 H2 H3 Hn s1 s2 r3.
    set (cb0 := constructor (mkConfig 3 cooldown name)) in *.
    assert (E1 : s1 = (recorded cb0 (clock (ticks w1)), later 1 w1)).
    { subst s1. rewrite execute_closed by reflexivity. rewrite H1.
      destruct v1 as [| |e1]; [reflexivity|reflexivity|].
      rewrite settle_counts by (cbn; lia). reflexivity. }
    assert (E2 : s2 = (recorded (recorded cb0 (clock (ticks w1))) (clock (ticks w2)),
                       later 1 w2)).
    { subst s2. rewrite E1. rewrite execute_closed by reflexivity. rewrite H2.
      destruct v2 as [| |e2]; [reflexivity|reflexivity|].
      rewrite settle_counts by (cbn; lia). reflexivity. }
    subst r3. rewrite E2. rewrite execute_closed by reflexivity. rewrite H3.
    destruct (settle_slips Ext clock (T := T)
                (recorded (recorded cb0 (clock (ticks w1))) (clock (ticks w2)))
                v3 w3 Hn) as (what & ->).
    split; [now exists what|]. cbn. repeat split.
Qed.

End CircuitBreakerClaims.

Section CircuitBreakerWitness.
Import CircuitBreakerService.

Lemma breaker_transition_witness :
  let cb0 := constructor (mkConfig 3 30000 "OpenAI") in
  let opened := mk 3 3 30000 true 33000 "OpenAI" 2000 3 0 in
  let run a s := snd (execute second_clock a s) in
  let s3 := run failing (run failing (run failing (cb0, mkWorld 0%nat 0%nat))) in
  let u3 := run rejecting (run rejecting (run rejecting (cb0, mkWorld 0%nat 0%nat))) in
  (isOpen (fst s3) = true
   /\ failureCount (fst s3) = 3
   /\ nextTryTime (fst s3) = second_clock 3 + 30000)
  /\ s3 = (opened, mkWorld 4%nat 3%nat)
  /\ execute second_clock working (opened, mkWorld 4%nat 3%nat)
     = (Throw (Error "Circuit breaker aberto para OpenAI. Tente novamente em 28s"),
        (opened, mkWorld 6%nat 3%nat))
  /\ execute second_clock working (opened, mkWorld 40%nat 3%nat)
     = (Ok tt, (mk 0 3 30000 false 33000 "OpenAI" 2000 3 1, mkWorld 41%nat 4%nat))
  /\ (isOpen (fst u3) = false
      /\ failureCount (fst u3) = 3
      /\ nextTryTime (fst u3) = 0).
Proof.
  intros cb0 opened run s3 u3.
  destruct (breaker_transition nat second_clock) as (Hopen & Hreject & Hprobe & Hslip).
  split; [|split; [|split; [|split]]].
  - destruct (Hopen 30000 "OpenAI" unit failing failing failing
                (mkWorld 0%nat 0%nat)
                (Error "ECONNRESET") (Error "ECONNRESET") (Error "ECONNRESET")
                (mkWorld 0%nat 1%nat) (mkWorld 1%nat 2%nat) (mkWorld 2%nat 3%nat)
                eq_refl eq_refl eq_refl) as (_ & Ho & Hc & Hn & _).
    split; [exact Ho|]. split; [exact Hc|exact Hn].
  - reflexivity.
  - destruct (Hreject unit working opened (mkWorld 4%nat 3%nat)) as (seconds & Hs & ->);
      [reflexivity | unfold second_clock; cbn; lia |].
    assert (seconds = 28) as -> by (unfold second_clock in Hs; cbn in Hs; lia).
    reflexivity.
  - destruct (Hprobe unit working opened (mkWorld 40%nat 3%nat)) as (_ & Hok);
      [reflexivity | unfold second_clock; cbn; lia |].
    destruct (Hok tt (mkWorld 41%nat 4%nat) eq_refl) as (-> & _ & _).
    reflexivity.
  - destruct (Hslip 30000 "OpenAI" unit rejecting rejecting rejecting
                (mkWorld 0%nat 0%nat) Undefined Undefined Undefined
                (mkWorld 0%nat 1%nat) (mkWorld 1%nat 2%nat) (mkWorld 2%nat 3%nat)
                eq_refl eq_refl eq_refl eq_refl) as (_ & Ho & Hc & Hn & _).
    split; [exact Ho|]. split; [exact Hc|exact Hn].
Defined.

End CircuitBreakerWitness.

Section ErrorHandlerFacts.
Import RabbitMQErrorHandler.

(** Case analysis on every test of a classification at once. *)
Ltac split_tests :=
  repeat match goal with
         | |- context [if ?b then _ else _] => destruct b eqn:?
         end.

Lemma by_message_in_place m i :
  in_place_locked i -> in_place_locked (by_message m i).
Proof.
  unfold by_message, in_place_locked.
  generalize (Js.includes (Js.toLowerCase m)); intros has Hi.
  split_tests; cbn; intros; try discriminate; auto.
Qed.

Lemma by_code_in_place err i : in_place_locked (by_code err i).
Proof.
  unfold by_code, in_place_locked.
  destruct (err_code err) as [|n|s]; split_tests; cbn; intros;
    try discriminate; auto.
Qed.

Lemma retryable_in_place now err ctx :
  in_place_locked (analyzeError now err ctx).
Proof.
  unfold analyzeError.
  assert (Hinit : forall i, retryable i = false -> in_place_locked i).
  { intros i Hi Hr. rewrite Hi in Hr. discriminate. }
  destruct (truthy_code (err_code err));
    destruct (err_message err) as [m|]; try destruct (Js.truthy_string m);
    try apply by_message_in_place; try apply by_code_in_place;
    now apply Hinit.
Qed.




Lemma handleError_retry_inv cfg now err ctx rc :
  action (handleError cfg now err ctx rc) = retry ->
  shouldReconnect (analyzeError now err ctx) = false
  /\ shouldRetry cfg (analyzeError now err ctx) rc = true
  /\ errorInfo (handleError cfg now err ctx rc) = analyzeError now err ctx
  /\ delay (handleError cfg now err ctx rc)
     = calculateRetryDelay cfg (analyzeError now err ctx) rc.
Proof.
  unfold handleError.
  destruct (type_eqb _ ACCESS_REFUSED); [discriminate|].
  destruct (type_eqb _ PERMISSION_DENIED); [discriminate|].
  destruct (shouldReconnect _); [discriminate|].
  destruct (shouldRetry _ _ _); [now repeat split|].
  destruct (_ && _); discriminate.
Qed.

Lemma shouldRetry_true cfg i rc :
  shouldRetry cfg i rc = true -> retryable i = true /\ rc < maxRetries cfg.
Proof.
  unfold shouldRetry. destruct (retryable i); [|discriminate]. cbn.
  destruct (maxRetries cfg <=? rc) eqn:H; [discriminate|].
  intros _. apply Z.leb_gt in H. now split.
Qed.

(** Whenever the handler answers [retry], the delay is the locked
    resource's five seconds: the exponential formula is only reached by
    [reconnect]. *)
Lemma retry_delay_fixed cfg now err ctx rc :
  action (handleError cfg now err ctx rc) = retry ->
  type (analyzeError now err ctx) = RESOURCE_LOCKED
  /\ delay (handleError cfg now err ctx rc) = 5000
  /\ rc < maxRetries cfg.
Proof.
  intros H. apply handleError_retry_inv in H as (Hrc & Hsr & _ & Hd).
  apply shouldRetry_true in Hsr as (Hr & Hlt).
  destruct (retryable_in_place now err ctx Hr Hrc) as (Hty & Hdelay).
  repeat split; try assumption.
  rewrite Hd. unfold calculateRetryDelay. now rewrite Hdelay.
Qed.

End ErrorHandlerFacts.

Section ErrorHandlerClaims.
Import RabbitMQErrorHandler.




End ErrorHandlerClaims.

Section HeaderFacts.

Lemma get_set_prop_eq k v h : get_prop k (set_prop k v h) = Some v.
Proof.
  induction h as [|[k' v'] h IH]; cbn.
  - now rewrite String.eqb_refl.
  - destruct (String.eqb k k') eqn:E; cbn; rewrite E; [reflexivity | exact IH].
Qed.

Lemma get_set_prop_ne k k' v h :
  k <> k' -> get_prop k (set_prop k' v h) = get_prop k h.
Proof.
  intros Hne. induction h as [|[k'' v'] h IH]; cbn.
  - apply String.eqb_neq in Hne. now rewrite Hne.
  - destruct (String.eqb k' k'') eqn:E; cbn.
    + apply String.eqb_eq in E. subst k''.
      apply String.eqb_neq in Hne. now rewrite Hne.
    + now rewrite IH.
Qed.

End HeaderFacts.

Section ConsumerClaims.
Import UnifiedConsumer.

Lemma retry_headers_count msg err rc failedAt ty :
  get_prop "x-retry-count" (retry_headers msg err rc failedAt ty) = Some (HNum (rc + 1)).
Proof.
  unfold retry_headers.
  rewrite !get_set_prop_ne by discriminate. apply get_set_prop_eq.
Qed.

(** When the count read from the header is a number, it is [retry_count]. *)
Lemma counted_number msg n : retryCount msg = HNum n -> retry_count msg = n.
Proof.
  unfold retryCount, retry_count.
  destruct (msg_headers msg) as [h|]; [|now intros [= <-]].
  destruct (get_prop "x-retry-count" h) as [v|]; [|now intros [= <-]].
  destruct v as [z|s|b|ms|]; cbn.
  - destruct (Z.eqb_spec z 0) as [->|_]; cbn; now intros [= <-].
  - destruct (Js.truthy_string s); [discriminate|now intros [= <-]].
  - destruct b; [discriminate|now intros [= <-]].
  - discriminate.
  - now intros [= <-].
Qed.

(** The retry branch of [handleMessageError]. *)
Lemma handleMessageError_retry msg (err : JsError) ctx w :
  let h := RabbitMQErrorHandler.handleError errorHandler (clock w (ticks w)) err ctx
             (retry_count msg) in
  RabbitMQErrorHandler.action h = RabbitMQErrorHandler.retry ->
  retry_count msg < maxRetries config ->
  handleMessageError msg err ctx w
  = (Ok tt,
     emit (Ack (deliveryTag msg))
       (emit (SetTimeoutPublish (RabbitMQErrorHandler.delay h)
                "baileys.events" "message.retry" (Bytes (content msg))
                (mkOptions true None None
                   (retry_headers msg err (retry_count msg) (clock w (S (ticks w)))
                      (RabbitMQErrorHandler.type (RabbitMQErrorHandler.errorInfo h)))))
          (tick (tick w)))).
Proof.
  intros h Ha Hlt. unfold handleMessageError, read_property, bind, ret, Date_now, try_catch.
  fold h. rewrite Ha. apply Z.ltb_lt in Hlt. rewrite Hlt. reflexivity.
Qed.

(** C3 (as amended). When the handler of a delivery whose retry count is a
    number (the header is absent, falsy or a number) throws a value other
    than [undefined] and [null] that the error handler resolves to [retry]
    (which requires a retry count below the maximum), the consumer schedules
    one republish of the same content with [x-retry-count] raised to the
    retry count plus one, after the delay the error handler derived from
    the error (here always the error's own fixed delay of 5000 ms, with no
    cap involved), and then acks the original delivery; nothing else is
    sent to the channel. *)
Theorem retry_republishes_then_acks :
  forall (handler : ConsumedMessage -> M World unit) ctx msg w (err : JsError) w1 n,
    handler msg w = (Throw (Value err), w1) ->
    retryCount msg = HNum n ->
    let h := RabbitMQErrorHandler.handleError errorHandler (clock w1 (ticks w1)) err ctx n in
    RabbitMQErrorHandler.action h = RabbitMQErrorHandler.retry ->
    n < maxRetries config /\
    exists exchange routingKey options w2,
      on_delivery handler ctx msg w = (Ok tt, w2)
      /\ log w2
         = (log w1 ++ [SetTimeoutPublish (RabbitMQErrorHandler.delay h) exchange routingKey
                         (Bytes (content msg)) options;
                       Ack (deliveryTag msg)])%list
      /\ get_prop "x-retry-count" (headers options) = Some (HNum (n + 1))
      /\ RabbitMQErrorHandler.delay h
         = RabbitMQErrorHandler.calculateRetryDelay errorHandler
             (RabbitMQErrorHandler.errorInfo h) n
      /\ RabbitMQErrorHandler.delay h = 5000.
Proof.
  intros handler ctx msg w err w1 n Hh Hn h Ha.
  apply counted_number in Hn. subst n.
  destruct (retry_delay_fixed _ _ _ _ _ Ha) as (_ & Hd & Hlt).
  split; [exact Hlt|].
  eexists _, _, _, _. split.
  - unfold on_delivery, try_catch, bind. rewrite Hh.
    apply handleMessageError_retry; assumption.
  - split; [cbn; now rewrite <- app_assoc|].
    split; [apply retry_headers_count|].
    split; [|exact Hd].
    apply handleError_retry_inv in Ha as (_ & _ & Hi & Hdelay).
    fold h in Hi, Hdelay. now rewrite Hi.
Qed.

End ConsumerClaims.

Section ConsumerExamples.
Import UnifiedConsumer.

Lemma retry_republishes_then_acks_witness :
  (exists exchange routingKey options w2,
      on_delivery (Sample.throwing Sample.locked) "send-command" Sample.command Sample.steady
      = (Ok tt, w2)
      /\ log w2 = [SetTimeoutPublish 5000 exchange routingKey
                     (Bytes Sample.command_json) options;
                   Ack 7]
      /\ get_prop "x-retry-count" (headers options) = Some (HNum 1))
  /\ (exists exchange routingKey options w2,
         on_delivery (Sample.throwing Sample.locked) "send-command"
           (Sample.command_again (HNum 2)) Sample.steady
         = (Ok tt, w2)
         /\ log w2 = [SetTimeoutPublish 5000 exchange routingKey
                        (Bytes Sample.command_json) options;
                      Ack 7]
         /\ get_prop "x-retry-count" (headers options) = Some (HNum 3)).
Proof.
  split.
  - destruct (retry_republishes_then_acks
                (Sample.throwing Sample.locked) "send-command" Sample.command
                Sample.steady Sample.locked Sample.steady 0 eq_refl eq_refl eq_refl)
      as (_ & exchange & routingKey & options & w2 & Hrun & Hlog & Hcount & _ & Hd).
    exists exchange, routingKey, options, w2.
    rewrite Hd in Hlog. repeat split; assumption.
  - destruct (retry_republishes_then_acks
                (Sample.throwing Sample.locked) "send-command" (Sample.command_again (HNum 2))
                Sample.steady Sample.locked Sample.steady 2 eq_refl eq_refl eq_refl)
      as (_ & exchange & routingKey & options & w2 & Hrun & Hlog & Hcount & _ & Hd).
    exists exchange, routingKey, options, w2.
    rewrite Hd in Hlog. repeat split; assumption.
Defined.

(** C3 as stated fails.  A command consumed from [whatsapp.send.commands]
    whose handler throws a locked-resource error (retryable, retry count 0
    of 3) is republished to the exchange [baileys.events] under the routing
    key [message.retry], not to the queue it came from, and after 5000 ms,
    which no cap turns into 1000 * 2^0.  A handler that throws a
    connection-refused error (retryable too) leads to no republish and no
    ack at all: the delivery is nacked without requeue. *)
Lemma retry_same_queue_counterexample :
  log (snd (on_delivery (Sample.throwing Sample.locked) "send-command"
              Sample.command Sample.steady))
  = [SetTimeoutPublish 5000 "baileys.events" "message.retry"
       (Bytes Sample.command_json)
       (mkOptions true None None
          [("x-retry-count", HNum 1);
           ("x-error-message", HStr "resource busy");
           ("x-failed-at", HDate 1793664001000);
           ("x-error-type", HStr "RESOURCE_LOCKED")]);
     Ack 7]
  /\ ("baileys.events", "message.retry")
     <> (fields_exchange Sample.command, fields_routingKey Sample.command)
  /\ (forall cap, 5000 <> Z.min (retryDelay config * 2 ^ retry_count Sample.command) cap)
  /\ RabbitMQErrorHandler.retryable
       (RabbitMQErrorHandler.analyzeError 0 Sample.refused "send-command") = true
  /\ retry_count Sample.command < maxRetries config
  /\ log (snd (on_delivery (Sample.throwing Sample.refused) "send-command"
                 Sample.command Sample.steady))
     = [Nack 7 false false].
Proof.
  split; [reflexivity|]. split; [discriminate|].
  split; [intros cap; cbn; lia|].
  split; [reflexivity|]. split; reflexivity.
Qed.

End ConsumerExamples.

Section DeadLetterFacts.
Import DeadLetterQueue.

Ltac run :=
  unfold retryMessage, getDLQMessageFromRedis,
    saveDLQMessageToRedis, channel_publish, generateMessageId,
    RedisClient.get, RedisClient.set, RedisClient.del,
    try_catch, bind, ret, throw, gets, modify, io_call, Date_now, Math_random36, effect.

Ltac step := cbn -[lookup insert delete message_key pretty String.append Z.mul].

Lemma retryMessage_missing w mid :
  kv w !! message_key mid = None ->
  fst (retryMessage mid w) = Ok false
  /\ kv (snd (retryMessage mid w)) = kv w.
Proof.
  intros H. run.
  destruct (io w (calls w)); step; rewrite ?H; split; reflexivity.
Qed.

Lemma retryMessage_exhausted w mid m ttl :
  kv w !! message_key mid = Some (m, ttl) ->
  maxRetries m <= retryCount m ->
  fst (retryMessage mid w) = Ok false
  /\ kv (snd (retryMessage mid w)) = kv w.
Proof.
  intros H Hmax. apply Z.leb_le in Hmax. run.
  destruct (io w (calls w)); step; rewrite ?H; step; rewrite ?Hmax; split; reflexivity.
Qed.

Lemma retryMessage_saved w mid m ttl :
  kv w !! message_key mid = Some (m, ttl) ->
  retryCount m < maxRetries m ->
  responds w (calls w) = true ->
  responds w (S (calls w)) = true ->
  kv (snd (retryMessage mid w))
  = <[message_key (id m) := (retried m (clock w (ticks w)), Some 604800)]> (kv w).
Proof.
  intros H Hlt Hget Hset. apply Z.leb_gt in Hlt. unfold responds in *. run.
  destruct (io w (calls w)) eqn:E0; try discriminate; step; rewrite ?H; step; rewrite ?Hlt; step;
  (destruct (io w (S (calls w))) eqn:E1; try discriminate; step);
  (destruct (dlq_channel w); step; [|reflexivity]);
  (destruct (io w (S (S (calls w)))); step; reflexivity).
Qed.

Lemma retryMessage_published w mid m ttl :
  kv w !! message_key mid = Some (m, ttl) ->
  retryCount m < maxRetries m ->
  responds w (calls w) = true ->
  responds w (S (calls w)) = true ->
  dlq_channel w = true ->
  match io w (S (S (calls w))) with
  | IoOk =>
      fst (retryMessage mid w) = Ok true
      /\ log (snd (retryMessage mid w))
         = (log w ++ [Publish (originalExchange m) (originalRoutingKey m)
                        (Bytes (payload m)) (retry_options w m mid) true])%list
  | IoFalse =>
      fst (retryMessage mid w) = Ok false
      /\ log (snd (retryMessage mid w))
         = (log w ++ [Publish (originalExchange m) (originalRoutingKey m)
                        (Bytes (payload m)) (retry_options w m mid) false])%list
  | IoThrow _ =>
      fst (retryMessage mid w) = Ok false
      /\ log (snd (retryMessage mid w)) = log w
  end.
Proof.
  intros H Hlt Hget Hset Hch. apply Z.leb_gt in Hlt. unfold responds in *. run.
  destruct (io w (calls w)) eqn:E0; try discriminate; step; rewrite ?H; step; rewrite ?Hlt; step;
  (destruct (io w (S (calls w))) eqn:E1; try discriminate; step);
  rewrite Hch; step;
  (destruct (io w (S (S (calls w)))); step; split; reflexivity).
Qed.

Lemma retryMessage_no_channel w mid m ttl :
  kv w !! message_key mid = Some (m, ttl) ->
  retryCount m < maxRetries m ->
  responds w (calls w) = true ->
  responds w (S (calls w)) = true ->
  dlq_channel w = false ->
  fst (retryMessage mid w) = Ok false
  /\ log (snd (retryMessage mid w)) = log w.
Proof.
  intros H Hlt Hget Hset Hch. apply Z.leb_gt in Hlt. unfold responds in *. run.
  destruct (io w (calls w)) eqn:E0; try discriminate; step; rewrite ?H; step; rewrite ?Hlt; step;
  (destruct (io w (S (calls w))) eqn:E1; try discriminate; step);
  rewrite Hch; step; split; reflexivity.
Qed.

End DeadLetterFacts.

Section DeadLetterClaims.
Import DeadLetterQueue.

(** C5. [retryMessage] answers [false] and leaves the store as it is when
    the record is missing or its retry count has reached the maximum.
    Otherwise (the store answering the read and the write) the record is
    stored again with the retry count incremented and [lastErrorTimestamp]
    set to the clock reading, the original payload is published to the
    record's original exchange and routing key, and the answer is what the
    publish returned; a publish that throws, or a missing channel, gives
    [false]. *)
Theorem retryMessage_contract :
  (forall w mid,
      kv w !! message_key mid = None ->
      fst (retryMessage mid w) = Ok false
      /\ kv (snd (retryMessage mid w)) = kv w)
  /\ (forall w mid m ttl,
         kv w !! message_key mid = Some (m, ttl) ->
         maxRetries m <= retryCount m ->
         fst (retryMessage mid w) = Ok false
         /\ kv (snd (retryMessage mid w)) = kv w)
  /\ (forall w mid m ttl,
         kv w !! message_key mid = Some (m, ttl) ->
         id m = mid ->
         retryCount m < maxRetries m ->
         responds w (calls w) = true ->
         responds w (S (calls w)) = true ->
         let now := clock w (ticks w) in
         kv (snd (retryMessage mid w))
         = <[message_key mid := (retried m now, Some 604800)]> (kv w)
         /\ retryCount (retried m now) = retryCount m + 1
         /\ lastErrorTimestamp (retried m now) = now
         /\ (dlq_channel w = true ->
             match io w (S (S (calls w))) with
             | IoOk =>
                 fst (retryMessage mid w) = Ok true
                 /\ log (snd (retryMessage mid w))
                    = (log w ++ [Publish (originalExchange m) (originalRoutingKey m)
                                   (Bytes (payload m)) (retry_options w m mid) true])%list
             | IoFalse =>
                 fst (retryMessage mid w) = Ok false
                 /\ log (snd (retryMessage mid w))
                    = (log w ++ [Publish (originalExchange m) (originalRoutingKey m)
                                   (Bytes (payload m)) (retry_options w m mid) false])%list
             | IoThrow _ =>
                 fst (retryMessage mid w) = Ok false
                 /\ log (snd (retryMessage mid w)) = log w
             end)
         /\ (dlq_channel w = false ->
             fst (retryMessage mid w) = Ok false
             /\ log (snd (retryMessage mid w)) = log w)).
Proof.
  split; [exact retryMessage_missing|].
  split; [exact retryMessage_exhausted|].
  intros w mid m ttl H Hid Hlt Hget Hset now.
  split.
  { rewrite (retryMessage_saved w mid m ttl H Hlt Hget Hset). now rewrite Hid. }
  split; [reflexivity|]. split; [reflexivity|].
  split; intros Hch.
  - exact (retryMessage_published w mid m ttl H Hlt Hget Hset Hch).
  - exact (retryMessage_no_channel w mid m ttl H Hlt Hget Hset Hch).
Qed.

(** C9. A retry that fails still consumes retry budget: with a retry left
    and the store answering, the record with the incremented count and the
    refreshed [lastErrorTimestamp] is written before the publish is tried,
    so when the publish returns [false], throws, or has no channel to go
    through, [retryMessage] answers [false] and the stored record's
    [retryCount] has grown by one. *)
Theorem failed_retry_consumes_budget :
  forall w mid m ttl,
    kv w !! message_key mid = Some (m, ttl) ->
    id m = mid ->
    retryCount m < maxRetries m ->
    responds w (calls w) = true ->
    responds w (S (calls w)) = true ->
    (dlq_channel w = false
     \/ io w (S (S (calls w))) = IoFalse
     \/ exists e, io w (S (S (calls w))) = IoThrow e) ->
    fst (retryMessage mid w) = Ok false
    /\ exists m',
        kv (snd (retryMessage mid w)) !! message_key mid = Some (m', Some 604800)
        /\ retryCount m' = retryCount m + 1
        /\ lastErrorTimestamp m' = clock w (ticks w).
Proof.
  intros w mid m ttl H Hid Hlt Hget Hset Hfail. split.
  - destruct (dlq_channel w) eqn:Hch.
    + pose proof (retryMessage_published w mid m ttl H Hlt Hget Hset Hch) as Hp.
      destruct Hfail as [Hf|[Hf|[e Hf]]]; [discriminate| |]; rewrite Hf in Hp; apply Hp.
    + apply (retryMessage_no_channel w mid m ttl H Hlt Hget Hset Hch).
  - exists (retried m (clock w (ticks w))).
    rewrite (retryMessage_saved w mid m ttl H Hlt Hget Hset), Hid.
    rewrite lookup_insert_eq. repeat split.
Qed.

Lemma retryMessage_contract_witness :
  let w := Sample.holding Sample.parked Sample.steady in
  (fst (retryMessage "dlq-9-zzz" w) = Ok false
   /\ kv (snd (retryMessage "dlq-9-zzz" w)) = kv w)
  /\ (fst (retryMessage "dlq-2-def" (Sample.holding Sample.exhausted w)) = Ok false
      /\ kv (snd (retryMessage "dlq-2-def" (Sample.holding Sample.exhausted w)))
         = kv (Sample.holding Sample.exhausted w))
  /\ kv (snd (retryMessage "dlq-1-abc" w))
     = <[message_key "dlq-1-abc" := (retried Sample.parked 1793664000000, Some 604800)]> (kv w)
  /\ fst (retryMessage "dlq-1-abc" w) = Ok true
  /\ log (snd (retryMessage "dlq-1-abc" w))
     = [Publish "baileys.events" "instance.create" (Bytes "{'to':'5511'}")
          (retry_options w Sample.parked "dlq-1-abc") true].
Proof.
  intros w.
  destruct retryMessage_contract as (Hmissing & Hspent & Hretry).
  split; [apply (Hmissing w "dlq-9-zzz"); reflexivity|].
  split.
  { apply (Hspent (Sample.holding Sample.exhausted w) "dlq-2-def" Sample.exhausted
                  (Some 604800)); [reflexivity | cbn; lia]. }
  destruct (Hretry w "dlq-1-abc" Sample.parked (Some 604800))
    as (Hkv & _ & _ & Hpub & _);
    [reflexivity | reflexivity | cbn; lia | reflexivity | reflexivity |].
  split; [exact Hkv|].
  exact (Hpub eq_refl).
Defined.

Lemma failed_retry_consumes_budget_witness :
  let w := Sample.with_io (Sample.failing_at 2) (Sample.holding Sample.parked Sample.steady) in
  fst (retryMessage "dlq-1-abc" w) = Ok false
  /\ exists m',
      kv (snd (retryMessage "dlq-1-abc" w)) !! message_key "dlq-1-abc"
      = Some (m', Some 604800)
      /\ retryCount m' = 2
      /\ lastErrorTimestamp m' = 1793664000000.
Proof.
  intros w.
  apply (failed_retry_consumes_budget w "dlq-1-abc" Sample.parked (Some 604800));
    [reflexivity | reflexivity | cbn; lia | reflexivity | reflexivity |].
  right. right. exists Sample.channel_closed. reflexivity.
Defined.

End DeadLetterClaims.

Section Frame.

Context {X : Type} (f : World -> X).

Lemma preserves_ret {A} (a : A) : preserves f (ret a).
Proof. intros w. reflexivity. Qed.

Lemma preserves_throw {A} e : preserves f (@throw World A e).
Proof. intros w. reflexivity. Qed.

Lemma preserves_bind {A B} (m : M World A) (k : A -> M World B) :
  preserves f m -> (forall a, preserves f (k a)) -> preserves f (bind m k).
Proof.
  intros Hm Hk w. unfold bind. specialize (Hm w).
  destruct (m w) as [[a|e] w']; cbn in *; [|exact Hm].
  now rewrite Hk.
Qed.

Lemma preserves_try_catch {A} (m : M World A) (h : Thrown -> M World A) :
  preserves f m -> (forall e, preserves f (h e)) -> preserves f (try_catch m h).
Proof.
  intros Hm Hh w. unfold try_catch. specialize (Hm w).
  destruct (m w) as [[a|e] w']; cbn in *; [exact Hm|].
  now rewrite Hh.
Qed.

Lemma preserves_gets {A} (g : World -> A) : preserves f (gets g).
Proof. intros w. reflexivity. Qed.

Lemma preserves_modify (g : World -> World) :
  (forall w, f (g w) = f w) -> preserves f (modify g).
Proof. intros Hg w. apply Hg. Qed.

Lemma preserves_if {A} (b : bool) (m1 m2 : M World A) :
  preserves f m1 -> preserves f m2 -> preserves f (if b then m1 else m2).
Proof. now destruct b. Qed.

End Frame.

(** Components that only the store commands write. *)
Lemma io_call_keeps {X} (f : World -> X) :
  (forall w, f (called w) = f w) -> preserves f io_call.
Proof.
  intros H w. unfold io_call. destruct (io w (calls w)); apply H.
Qed.

Lemma Date_now_keeps {X} (f : World -> X) :
  (forall w, f (tick w) = f w) -> preserves f Date_now.
Proof. intros H w. apply H. Qed.

Lemma Math_random36_keeps {X} (f : World -> X) :
  (forall w, f (draw w) = f w) -> preserves f Math_random36.
Proof. intros H w. apply H. Qed.

Ltac frame :=
  repeat first
    [ apply preserves_ret
    | apply preserves_throw
    | apply preserves_gets
    | apply preserves_bind; [|intros ?]
    | apply preserves_try_catch; [|intros ?]
    | apply preserves_if
    | apply io_call_keeps; reflexivity
    | apply Date_now_keeps; reflexivity
    | apply Math_random36_keeps; reflexivity
    | apply preserves_modify; reflexivity
    | match goal with
      | |- preserves _ (match ?x with _ => _ end) => destruct x
      end ].

Lemma connect_keeps_lists : preserves lists DeadLetterQueue.connect.
Proof.
  unfold DeadLetterQueue.connect, DeadLetterQueue.setupDLQInfrastructure,
    RedisClient.connect, effect. frame.
Qed.

Lemma sendToDeadLetterQueue_keeps_lists om rk err rc inst :
  preserves lists (DeadLetterQueue.sendToDeadLetterQueue om rk err rc inst).
Proof.
  unfold DeadLetterQueue.sendToDeadLetterQueue, DeadLetterQueue.saveDLQMessageToRedis,
    DeadLetterQueue.channel_publish, DeadLetterQueue.generateMessageId,
    RedisClient.set, effect.
  frame; try apply connect_keeps_lists.
Qed.

Section MonadFacts.

Lemma bind_ok {S A B} (m : M S A) (k : A -> M S B) s b s2 :
  bind m k s = (Ok b, s2) ->
  exists a s1, m s = (Ok a, s1) /\ k a s1 = (Ok b, s2).
Proof.
  unfold bind. destruct (m s) as [[a|e] s1]; [|discriminate].
  intros H. now exists a, s1.
Qed.

Lemma try_catch_rethrow {S A} (m : M S A) s :
  try_catch m (fun e => throw e) s = m s.
Proof. unfold try_catch, throw. now destruct (m s) as [[a|e] s1]. Qed.

End MonadFacts.

Section ParkFacts.
Import DeadLetterQueue.

Ltac step := cbn -[lookup insert delete message_key pretty String.append Z.mul].

Lemma setup_keeps_channel : preserves dlq_channel setupDLQInfrastructure.
Proof. unfold setupDLQInfrastructure, effect. frame. Qed.

Lemma redis_connect_keeps_channel : preserves dlq_channel RedisClient.connect.
Proof. unfold RedisClient.connect. frame. Qed.

Lemma connect_keeps {X} (f : World -> X) :
  (forall w, f (called w) = f w) ->
  (forall c ch r w, f (with_flags c ch r w) = f w) ->
  (forall e w, f (emit e w) = f w) ->
  preserves f connect.
Proof.
  intros Hc Hf He.
  unfold connect, setupDLQInfrastructure, RedisClient.connect, effect.
  repeat first
    [ apply preserves_ret | apply preserves_throw | apply preserves_gets
    | apply preserves_bind; [|intros ?]
    | apply preserves_try_catch; [|intros ?]
    | apply preserves_if
    | apply io_call_keeps; exact Hc
    | apply preserves_modify; intros ?; first [apply Hf | apply He] ].
Qed.

(** A [connect] that returns leaves a channel behind. *)
Lemma connect_ok_channel w w1 :
  connect w = (Ok tt, w1) -> dlq_channel w1 = true.
Proof.
  unfold connect. rewrite try_catch_rethrow. intros H.
  apply bind_ok in H as (conn & w0 & _ & H).
  apply bind_ok in H as (u1 & wa & _ & H).
  apply bind_ok in H as (ch & wb & Hb & H).
  unfold gets in Hb. injection Hb as Hch Hwb. subst ch wb.
  apply bind_ok in H as (u2 & wc & Hc & H).
  replace w1 with (snd (RedisClient.connect wc)) by now rewrite H.
  rewrite redis_connect_keeps_channel.
  destruct (dlq_channel wa) eqn:Hcha; cbn [negb] in Hc.
  - unfold ret in Hc. injection Hc as Hu Hw. now subst wc.
  - apply bind_ok in Hc as (u3 & w2 & _ & Hc).
    apply bind_ok in Hc as (u4 & w3 & Hm & Hc).
    unfold modify in Hm. injection Hm as Hu Hw3. subst w3.
    replace wc with (snd (setupDLQInfrastructure
                            (with_flags (dlq_connection w2) true (redis_open w2) w2)))
      by now rewrite Hc.
    now rewrite setup_keeps_channel.
Qed.

Lemma sendToDeadLetterQueue_stored om rk err rc inst w w1 :
  connect w = (Ok tt, w1) ->
  responds w1 (calls w1) = true ->
  let record := parked_record w1 om rk err rc inst in
  kv (snd (sendToDeadLetterQueue om rk err rc inst w))
  = <[message_key (id record) := (record, Some (7 * 24 * 60 * 60))]> (kv w)
  /\ match io w1 (S (calls w1)) with
     | IoOk =>
         log (snd (sendToDeadLetterQueue om rk err rc inst w))
         = (log w1 ++ [Publish "baileys.dlx" "dead.letter" (JsonOfDLQ record)
                         (park_options w1 record rk err rc inst) true])%list
     | IoFalse =>
         log (snd (sendToDeadLetterQueue om rk err rc inst w))
         = (log w1 ++ [Publish "baileys.dlx" "dead.letter" (JsonOfDLQ record)
                         (park_options w1 record rk err rc inst) false])%list
     | IoThrow _ => log (snd (sendToDeadLetterQueue om rk err rc inst w)) = log w1
     end.
Proof.
  intros Hc Hset record.
  pose proof (connect_ok_channel w w1 Hc) as Hch.
  assert (Hkv : kv w1 = kv w).
  { replace w1 with (snd (connect w)) by now rewrite Hc.
    apply connect_keeps; reflexivity. }
  unfold sendToDeadLetterQueue, try_catch, bind. rewrite Hc.
  unfold saveDLQMessageToRedis, channel_publish, generateMessageId, RedisClient.set,
    try_catch, bind, ret, throw, gets, modify, io_call, Date_now, Math_random36, effect.
  step. unfold responds in Hset.
  destruct (io w1 (calls w1)) eqn:E; try discriminate; step; rewrite Hch; step;
    (destruct (io w1 (S (calls w1))); step; rewrite <- Hkv; split; reflexivity).
Qed.

End ParkFacts.

Section ParkClaims.
Import DeadLetterQueue.

(** C7 (as amended). [sendToDeadLetterQueue] writes no archive entry: the
    archive lists are left as they were, whatever happens.  When [connect]
    returns and the store accepts the write, the record is stored under
    [dlq:message:<id>] with a TTL of 7 days (604800 s), and it is then
    handed to the channel for the dead-letter exchange. *)
Theorem park_stores_without_archive :
  (forall om rk err rc inst w,
      lists (snd (sendToDeadLetterQueue om rk err rc inst w)) = lists w)
  /\ (forall om rk err rc inst w w1,
         connect w = (Ok tt, w1) ->
         responds w1 (calls w1) = true ->
         let record := parked_record w1 om rk err rc inst in
         kv (snd (sendToDeadLetterQueue om rk err rc inst w))
         = <[message_key (id record) := (record, Some 604800)]> (kv w)
         /\ match io w1 (S (calls w1)) with
            | IoOk =>
                log (snd (sendToDeadLetterQueue om rk err rc inst w))
                = (log w1 ++ [Publish "baileys.dlx" "dead.letter" (JsonOfDLQ record)
                                (park_options w1 record rk err rc inst) true])%list
            | IoFalse =>
                log (snd (sendToDeadLetterQueue om rk err rc inst w))
                = (log w1 ++ [Publish "baileys.dlx" "dead.letter" (JsonOfDLQ record)
                                (park_options w1 record rk err rc inst) false])%list
            | IoThrow _ =>
                log (snd (sendToDeadLetterQueue om rk err rc inst w)) = log w1
            end).
Proof.
  split.
  - intros om rk err rc inst. apply sendToDeadLetterQueue_keeps_lists.
  - intros om rk err rc inst w w1 Hc Hset.
    exact (sendToDeadLetterQueue_stored om rk err rc inst w w1 Hc Hset).
Qed.

Lemma park_stores_without_archive_witness :
  let om := mkOriginal None Sample.payload_json in
  let record := parked_record Sample.steady om "instance.create" "TIMEOUT" 0 None in
  let w' := snd (sendToDeadLetterQueue om "instance.create" "TIMEOUT" 0 None Sample.steady) in
  lists w' = ∅
  /\ kv w' = <[message_key (id record) := (record, Some 604800)]> ∅
  /\ log w' = [Publish "baileys.dlx" "dead.letter" (JsonOfDLQ record)
                 (park_options Sample.steady record "instance.create" "TIMEOUT" 0 None) true].
Proof.
  intros om record w'.
  destruct park_stores_without_archive as (Hlists & Hstore).
  split; [exact (Hlists om "instance.create" "TIMEOUT" 0 None Sample.steady)|].
  exact (Hstore om "instance.create" "TIMEOUT" 0 None Sample.steady Sample.steady
                eq_refl eq_refl).
Defined.

(** C7 as stated fails: parking a message in an empty store leaves the
    record under its key with the 7-day TTL and no archive list at all, in
    particular none for the day of parking. *)
Lemma park_archive_counterexample :
  let om := mkOriginal None Sample.payload_json in
  let w' := snd (sendToDeadLetterQueue om "instance.create" "TIMEOUT" 0 None Sample.steady) in
  snd <$> kv w' !! "dlq:message:dlq-1793664000000-k3x9q" = Some (Some 604800)
  /\ isoDate (clock Sample.steady 0) = "2026-11-03"
  /\ lists w' !! "dlq:archive:2026-11-03" = None
  /\ map_to_list (lists w') = [].
Proof.
  intros om w'. repeat split; vm_compute; reflexivity.
Qed.

End ParkClaims.

Section SweepFacts.
Import DLQManager.

Ltac step := cbn -[lookup insert delete DeadLetterQueue.message_key pretty String.append Z.mul isoDate].

Lemma shouldRetryMessage_decision m w :
  fst (shouldRetryMessage m w) = Ok (decision (clock w (ticks w)) m)
  /\ log (snd (shouldRetryMessage m w)) = log w
  /\ kv (snd (shouldRetryMessage m w)) = kv w
  /\ lists (snd (shouldRetryMessage m w)) = lists w
  /\ calls (snd (shouldRetryMessage m w)) = calls w
  /\ io (snd (shouldRetryMessage m w)) = io w
  /\ clock (snd (shouldRetryMessage m w)) = clock w.
Proof.
  unfold shouldRetryMessage, decision, bind, ret, Date_now.
  rewrite (Z.ltb_antisym (maxRetries m) (retryCount m)).
  rewrite (Z.leb_antisym (clock w (ticks w) - lastErrorTimestamp m) (minRetryDelay * 1000)).
  destruct (maxRetries m <=? retryCount m); cbn; [repeat split|].
  destruct (_ <? _); cbn; repeat split.
Qed.

Lemma decision_true now m :
  decision now m = true
  <-> retryCount m < maxRetries m
      /\ minRetryDelay * 1000 <= now - lastErrorTimestamp m
      /\ isRecoverableError (error m) = true.
Proof.
  unfold decision. rewrite !andb_true_iff, Z.ltb_lt, Z.leb_le. tauto.
Qed.

Lemma isRecoverableError_deny e :
  isRecoverableError e = false
  <-> exists d, In d nonRecoverableErrors /\ Js.includes e d = true.
Proof.
  unfold isRecoverableError, Js.some.
  destruct (existsb _ nonRecoverableErrors) eqn:H.
  - split; [intros _|reflexivity]. apply existsb_exists in H. exact H.
  - split.
    + destruct (existsb _ recoverableErrors); discriminate.
    + intros Hex.
      assert (Ht : existsb (fun errType => Js.includes e errType) nonRecoverableErrors = true)
        by (apply existsb_exists; exact Hex).
      rewrite Ht in H. discriminate.
Qed.

Lemma isRecoverableError_allow e :
  isRecoverableError e = true
  <-> forall d, In d nonRecoverableErrors -> Js.includes e d = false.
Proof.
  split.
  - intros Hr d Hd. destruct (Js.includes e d) eqn:E; [|reflexivity].
    assert (Hf : isRecoverableError e = false) by (apply isRecoverableError_deny; eauto).
    congruence.
  - intros Hall. destruct (isRecoverableError e) eqn:E; [reflexivity|].
    apply isRecoverableError_deny in E as (d & Hd & Hi).
    rewrite (Hall d Hd) in Hi. discriminate.
Qed.

(** [discardMessage] never throws, writes no archive entry and makes no
    broker call; the record's key is deleted when the DEL goes through. *)
Lemma discardMessage_run m w :
  fst (discardMessage m w) = Ok tt
  /\ lists (snd (discardMessage m w)) = lists w
  /\ log (snd (discardMessage m w)) = log w
  /\ (responds w (calls w) = true ->
      kv (snd (discardMessage m w)) = delete (DeadLetterQueue.message_key (id m)) (kv w))
  /\ (responds w (calls w) = false -> kv (snd (discardMessage m w)) = kv w).
Proof.
  unfold responds.
  unfold discardMessage, archiveMessage, RedisClient.lpush, RedisClient.expire, RedisClient.del,
    try_catch, bind, ret, throw, gets, modify, io_call, Date_now.
  step.
  destruct (io w (calls w)); step; repeat split; intros; try discriminate; reflexivity.
Qed.

Lemma process_one_retry m stats w :
  decision (clock w (ticks w)) m = true ->
  process_one m stats w
  = match DeadLetterQueue.retryMessage (id m) (snd (shouldRetryMessage m w)) with
    | (Ok true, w2) => (Ok (bump_retried (bump_processed stats)), w2)
    | (Ok false, w2) => (Ok (bump_failed (bump_processed stats)), w2)
    | (Throw _, w2) => (Ok (bump_failed (bump_processed stats)), w2)
    end.
Proof.
  intros Hd. destruct (shouldRetryMessage_decision m w) as (Hr & _).
  unfold process_one, try_catch, bind.
  destruct (shouldRetryMessage m w) as [r w1]. cbn [fst snd] in *. subst r. rewrite Hd.
  destruct (DeadLetterQueue.retryMessage (id m) w1) as [[[|]|e] w2]; reflexivity.
Qed.

Lemma process_one_discard m stats w :
  decision (clock w (ticks w)) m = false ->
  let w1 := snd (shouldRetryMessage m w) in
  fst (process_one m stats w) = Ok (bump_discarded (bump_processed stats))
  /\ lists (snd (process_one m stats w)) = lists w
  /\ log (snd (process_one m stats w)) = log w
  /\ (responds w1 (calls w1) = true ->
      kv (snd (process_one m stats w)) = delete (DeadLetterQueue.message_key (id m)) (kv w)).
Proof.
  intros Hd w1.
  destruct (shouldRetryMessage_decision m w) as (Hr & Hlog & Hkv & Hlists & _).
  destruct (discardMessage_run m w1) as (Hf & Hl & Hg & Hk & _).
  unfold process_one, try_catch, bind. fold w1 in Hlog, Hkv, Hlists.
  destruct (shouldRetryMessage m w) as [r w1'] eqn:E. cbn [fst snd] in *. subst r w1.
  rewrite Hd.
  destruct (discardMessage m w1') as [[[]|e] w2]; unfold ret; cbn [fst snd] in *; [|discriminate].
  rewrite Hl, Hg, Hlists, Hlog. repeat split.
  intros H. now rewrite (Hk H), Hkv.
Qed.

End SweepFacts.

Section SweepClaims.
Import DLQManager.

(** C4.  For a record examined by the sweep, [shouldRetryMessage] answers
    yes exactly when retries are left, at least 300 seconds have passed
    since [lastErrorTimestamp], and the error contains none of the five
    deny-listed categories (whether or not it contains an allow-listed one,
    so an error matching neither list is retried).  On yes (the record
    held under its id, the store and the broker answering) the payload is
    republished to the record's original exchange and routing key, the
    stored retry count grows by one and the record counts as retried.  On
    no the record counts as discarded and nothing is published; the live
    key is deleted when the DEL goes through, and no archive entry is
    written in any case: the archive lists are as they were. *)
Theorem sweep_retries_or_discards :
  forall m stats w,
    let now := clock w (ticks w) in
    let w1 := snd (shouldRetryMessage m w) in
    let key := DeadLetterQueue.message_key (id m) in
    exists retryIt,
      fst (shouldRetryMessage m w) = Ok retryIt
      /\ (retryIt = true
          <-> retryCount m < maxRetries m
              /\ 300 * 1000 <= now - lastErrorTimestamp m
              /\ forall d,
                  In d ["AUTHENTICATION_ERROR"; "INVALID_MESSAGE_FORMAT"; "VALIDATION_ERROR";
                        "PERMISSION_DENIED"; "NOT_FOUND"] ->
                  Js.includes (error m) d = false)
      /\ (retryIt = true ->
          forall ttl,
            kv w !! key = Some (m, ttl) ->
            responds w1 (calls w1) = true ->
            responds w1 (S (calls w1)) = true ->
            dlq_channel w1 = true ->
            io w1 (S (S (calls w1))) = IoOk ->
            fst (process_one m stats w)
            = Ok (mkStats (processed stats + 1) (retried stats + 1) (failed stats)
                          (discarded stats))
            /\ log (snd (process_one m stats w))
               = (log w ++ [Publish (originalExchange m) (originalRoutingKey m)
                              (Bytes (payload m))
                              (DeadLetterQueue.retry_options w1 m (id m)) true])%list
            /\ exists m',
                kv (snd (process_one m stats w)) !! key = Some (m', Some 604800)
                /\ retryCount m' = retryCount m + 1)
      /\ (retryIt = false ->
          fst (process_one m stats w)
          = Ok (mkStats (processed stats + 1) (retried stats) (failed stats)
                        (discarded stats + 1))
          /\ lists (snd (process_one m stats w)) = lists w
          /\ log (snd (process_one m stats w)) = log w
          /\ (responds w1 (calls w1) = true ->
              kv (snd (process_one m stats w)) = delete key (kv w))).
Proof.
  intros m stats w now w1 key.
  destruct (shouldRetryMessage_decision m w) as (Hr & Hlog & Hkv & _).
  fold now w1 in Hr, Hlog, Hkv.
  exists (decision now m). split; [exact Hr|]. split; [|split].
  - rewrite decision_true, isRecoverableError_allow. reflexivity.
  - intros Hd ttl Hheld H0 H1 Hch Hpub.
    apply decision_true in Hd as Hparts. destruct Hparts as (Hlt & _ & _).
    rewrite <- Hkv in Hheld.
    pose proof (retryMessage_published w1 (id m) m ttl Hheld Hlt H0 H1 Hch) as Hp.
    rewrite Hpub in Hp. destruct Hp as (Hok & Hpl).
    pose proof (retryMessage_saved w1 (id m) m ttl Hheld Hlt H0 H1) as Hs.
    rewrite (process_one_retry m stats w Hd). fold w1.
    destruct (DeadLetterQueue.retryMessage (id m) w1) as [r w2]. cbn [fst snd] in *.
    subst r. cbn [fst snd]. split; [reflexivity|]. split; [now rewrite Hpl, Hlog|].
    exists (DeadLetterQueue.retried m (clock w1 (ticks w1))).
    rewrite Hs. fold key. rewrite lookup_insert_eq. split; reflexivity.
  - intros Hd. exact (process_one_discard m stats w Hd).
Qed.

Lemma sweep_retries_or_discards_witness :
  let w := Sample.holding Sample.invalid
             (Sample.holding Sample.exhausted (Sample.holding Sample.parked Sample.steady)) in
  let s0 := mkStats 0 0 0 0 in
  (fst (process_one Sample.parked s0 w) = Ok (mkStats 1 1 0 0)
   /\ log (snd (process_one Sample.parked s0 w))
      = [Publish "baileys.events" "instance.create" (Bytes (payload Sample.parked))
           (DeadLetterQueue.retry_options (tick w) Sample.parked "dlq-1-abc") true])
  /\ (fst (process_one Sample.exhausted s0 w) = Ok (mkStats 1 0 0 1)
      /\ lists (snd (process_one Sample.exhausted s0 w)) = ∅
      /\ log (snd (process_one Sample.exhausted s0 w)) = []
      /\ kv (snd (process_one Sample.exhausted s0 w)) = delete "dlq:message:dlq-2-def" (kv w))
  /\ (fst (process_one Sample.invalid s0 w) = Ok (mkStats 1 0 0 1)
      /\ lists (snd (process_one Sample.invalid s0 w)) = ∅
      /\ log (snd (process_one Sample.invalid s0 w)) = []
      /\ kv (snd (process_one Sample.invalid s0 w)) = delete "dlq:message:dlq-3-ghi" (kv w)).
Proof.
  intros w s0. split; [|split].
  - destruct (sweep_retries_or_discards Sample.parked s0 w) as (b & Hb & _ & Hretry & _).
    assert (Hyes : b = true) by (vm_compute in Hb; congruence).
    destruct (Hretry Hyes (Some 604800)) as (Hs & Hl & _); try reflexivity.
    split; [exact Hs|exact Hl].
  - destruct (sweep_retries_or_discards Sample.exhausted s0 w) as (b & Hb & _ & _ & Hdiscard).
    assert (Hno : b = false) by (vm_compute in Hb; congruence).
    destruct (Hdiscard Hno) as (Hs & Hl & Hg & Hk).
    split; [exact Hs|]. split; [exact Hl|]. split; [exact Hg|]. now apply Hk.
  - destruct (sweep_retries_or_discards Sample.invalid s0 w) as (b & Hb & _ & _ & Hdiscard).
    assert (Hno : b = false).
    { destruct b; [|reflexivity]. vm_compute in Hb. congruence. }
    destruct (Hdiscard Hno) as (Hs & Hl & Hg & Hk).
    split; [exact Hs|]. split; [exact Hl|]. split; [exact Hg|]. now apply Hk.
Defined.

(** C4 on the failing input.  A record out of retries held in the store,
    with Redis answering every command: the sweep counts it as discarded
    and deletes its key, and there is no archive list afterwards, in
    particular none for the day of the sweep. *)
Lemma sweep_discard_loses_record :
  let w := Sample.holding Sample.exhausted Sample.steady in
  let w' := snd (process_one Sample.exhausted (mkStats 0 0 0 0) w) in
  fst (process_one Sample.exhausted (mkStats 0 0 0 0) w) = Ok (mkStats 1 0 0 1)
  /\ kv w !! "dlq:message:dlq-2-def" = Some (Sample.exhausted, Some 604800)
  /\ kv w' !! "dlq:message:dlq-2-def" = None
  /\ isoDate (clock w 0) = "2026-11-03"
  /\ lists w' !! "dlq:archive:2026-11-03" = None
  /\ map_to_list (lists w') = [].
Proof.
  intros w w'. repeat split; vm_compute; reflexivity.
Qed.

End SweepClaims.

Section RelayFacts.
Import RedisConsumer.

Variable valid_json : string -> bool.

Lemma connect_keeps_log : preserves log connect.
Proof.
  unfold connect, read_property.
  repeat first
    [ apply preserves_ret | apply preserves_throw | apply preserves_gets
    | apply preserves_bind; [|intros ?]
    | apply preserves_try_catch; [|intros ?]
    | apply preserves_if
    | apply io_call_keeps; reflexivity
    | apply preserves_modify; reflexivity
    | match goal with
      | |- preserves _ (match ?x with _ => _ end) => destruct x
      end ].
Qed.

(** An append that returns an id has written exactly one entry. *)
Lemma addMessageToStream_some ev w sid w1 :
  addMessageToStream ev w = (Ok (Some sid), w1) ->
  log w1 = (log w ++ [XAdd streamName (eventId ev)])%list.
Proof.
  unfold addMessageToStream, try_catch, bind.
  pose proof (connect_keeps_log w) as Hlog.
  destruct (connect w) as [[[]|e] wc]; cbn [snd] in Hlog; [|discriminate].
  unfold gets. destruct (rc_client wc); cbn [negb]; [|discriminate].
  unfold io_call. destruct (io wc (calls wc)); try discriminate;
    cbn; intros H; injection H as _ <-; cbn; now rewrite Hlog.
Qed.

(** Decoding reads the entry and leaves the world alone. *)
Lemma decode_pure d w r w' :
  decode valid_json d w = (r, w') -> w' = w.
Proof.
  unfold decode, JSON_parse, bind, ret, throw.
  destruct (Js.truthy_string (d_mediaInfo d)); [destruct (valid_json (d_mediaInfo d))|];
    destruct (valid_json (d_originalMessage d)); intros H; now injection H.
Qed.

Lemma xAck_run entryId w :
  rc_client w = true ->
  responds w (calls w) = true ->
  xAck entryId w = (Ok tt, emit (XAck streamName consumerGroup entryId) (called w)).
Proof.
  intros Hc Hr. unfold xAck, bind, gets, io_call, effect, modify, responds in *.
  rewrite Hc. destruct (io w (calls w)); try discriminate; reflexivity.
Qed.

Lemma processMessage_acks_after (cb : WhatsAppMessageEvent -> M World unit) entry ev w r w2 :
  decode valid_json (message entry) w = (Ok ev, w) ->
  cb ev (emit (Callback (eventId ev)) w) = (r, w2) ->
  rc_client w2 = true ->
  responds w2 (calls w2) = true ->
  processMessage valid_json (Some cb) entry w
  = (Ok tt, emit (XAck streamName consumerGroup (entry_id entry)) (called w2)).
Proof.
  intros Hd Hcb Hc Hr.
  unfold processMessage, try_catch, bind. rewrite Hd.
  unfold effect, modify. rewrite Hcb.
  destruct r as [[]|e]; rewrite (xAck_run _ _ Hc Hr); reflexivity.
Qed.

(** An undecodable entry is acked without the callback having run. *)
Lemma processMessage_undecodable cb entry e w :
  decode valid_json (message entry) w = (Throw e, w) ->
  rc_client w = true ->
  responds w (calls w) = true ->
  processMessage valid_json cb entry w
  = (Ok tt, emit (XAck streamName consumerGroup (entry_id entry)) (called w)).
Proof.
  intros Hd Hc Hr. unfold processMessage, try_catch, bind. rewrite Hd.
  now rewrite (xAck_run _ _ Hc Hr).
Qed.

(** An XACK adds the acknowledgement to the calls made, or nothing. *)
Lemma xAck_log entryId w :
  exists tail,
    log (snd (xAck entryId w)) = (log w ++ tail)%list
    /\ (tail = [] \/ tail = [XAck streamName consumerGroup entryId]).
Proof.
  unfold xAck, bind, gets, io_call, effect, modify.
  destruct (rc_client w); [|exists []; cbn; rewrite app_nil_r; auto].
  destruct (io w (calls w)); cbn;
    [eexists; split; [reflexivity|now right]
    |eexists; split; [reflexivity|now right]
    |exists []; rewrite app_nil_r; auto].
Qed.

Lemma xAck_throw_log entryId w e w' :
  xAck entryId w = (Throw e, w') -> log w' = log w.
Proof.
  unfold xAck, bind, gets, io_call, effect, modify.
  destruct (rc_client w); [|discriminate].
  destruct (io w (calls w)); cbn; intros H; try discriminate.
  now injection H as _ <-.
Qed.

(** What follows the decoding of an entry: the call of the callback, if
    any, then the acknowledgement, from the [try] or from the [catch].
    Whatever happens it returns, and all it adds to the calls made up to
    the end of the callback is at most the one XACK of the entry. *)
Lemma acknowledge_log (m : M World unit) entryId w :
  let done := try_catch (m ;;; xAck entryId)
                (fun _ => try_catch (xAck entryId) (fun _ => ret tt)) w in
  fst done = Ok tt
  /\ exists tail,
      log (snd done) = (log (snd (m w)) ++ tail)%list
      /\ (tail = [] \/ tail = [XAck streamName consumerGroup entryId]).
Proof.
  cbv zeta.
  assert (H : try_catch (m ;;; xAck entryId)
                (fun _ => try_catch (xAck entryId) (fun _ => ret tt)) w
              = match m w with
                | (Ok _, w2) =>
                    match xAck entryId w2 with
                    | (Ok a, w3) => (Ok a, w3)
                    | (Throw _, w3) => try_catch (xAck entryId) (fun _ => ret tt) w3
                    end
                | (Throw _, w2) => try_catch (xAck entryId) (fun _ => ret tt) w2
                end).
  { unfold try_catch at 1, bind.
    destruct (m w) as [[[]|e] w2]; [destruct (xAck entryId w2) as [[[]|e] w3]|];
      reflexivity. }
  rewrite H. clear H.
  destruct (m w) as [[[]|e] w2]; cbn [fst snd].
  - pose proof (xAck_log entryId w2) as H1.
    destruct (xAck entryId w2) as [[[]|e] w3] eqn:E; cbn [fst snd] in *.
    + split; [reflexivity|exact H1].
    + apply xAck_throw_log in E. unfold try_catch.
      pose proof (xAck_log entryId w3) as H2.
      destruct (xAck entryId w3) as [[[]|e'] w4]; cbn [fst snd] in *;
        (split; [reflexivity|]); rewrite <- E; exact H2.
  - unfold try_catch. pose proof (xAck_log entryId w2) as H2.
    destruct (xAck entryId w2) as [[[]|e'] w4]; cbn [fst snd] in *;
      (split; [reflexivity|]); exact H2.
Qed.

End RelayFacts.

Section BridgeFacts.
Import MessageBridge.

Variable parse_event : string -> option RedisConsumer.WhatsAppMessageEvent.

Lemma on_delivery_unparsed msg w :
  parse_event (UnifiedConsumer.content msg) = None ->
  on_delivery parse_event msg w
  = (Ok tt, emit (Nack (UnifiedConsumer.deliveryTag msg) false false) w).
Proof.
  intros H. unfold on_delivery, try_catch, bind. rewrite H. reflexivity.
Qed.

Lemma on_delivery_appended msg ev w sid w1 :
  parse_event (UnifiedConsumer.content msg) = Some ev ->
  RedisConsumer.addMessageToStream ev w = (Ok (Some sid), w1) ->
  on_delivery parse_event msg w = (Ok tt, emit (Ack (UnifiedConsumer.deliveryTag msg)) w1)
  /\ log (emit (Ack (UnifiedConsumer.deliveryTag msg)) w1)
     = (log w ++ [XAdd RedisConsumer.streamName (RedisConsumer.eventId ev);
                  Ack (UnifiedConsumer.deliveryTag msg)])%list.
Proof.
  intros H Ha. split.
  - unfold on_delivery, try_catch, bind, ret. rewrite H, Ha. reflexivity.
  - cbn. rewrite (addMessageToStream_some ev w sid w1 Ha). now rewrite <- app_assoc.
Qed.

End BridgeFacts.

Section RelayClaims.

(** C1 (as amended). Broker to log: a delivery whose content cannot be read
    is nacked without requeue and not acked; when the append to the stream
    has returned an id, the delivery is acked after it (the XADD precedes
    the ack in the order of calls).  Log to store: for an entry that
    decodes, the storage callback is called, and whether it returns or
    throws, nothing but the XACK of the entry is added to the calls made up
    to its end; with a client at hand and an XACK that goes through, the
    entry is acked in both cases.  An entry that does not decode is acked
    in the same way without the callback being called. *)
Theorem relay_ack_order :
  forall (valid_json : string -> bool)
         (parse_event : string -> option RedisConsumer.WhatsAppMessageEvent),
    (forall msg w,
        parse_event (UnifiedConsumer.content msg) = None ->
        MessageBridge.on_delivery parse_event msg w
        = (Ok tt, emit (Nack (UnifiedConsumer.deliveryTag msg) false false) w))
    /\ (forall msg ev w sid w1,
           parse_event (UnifiedConsumer.content msg) = Some ev ->
           RedisConsumer.addMessageToStream ev w = (Ok (Some sid), w1) ->
           MessageBridge.on_delivery parse_event msg w
           = (Ok tt, emit (Ack (UnifiedConsumer.deliveryTag msg)) w1)
           /\ log (emit (Ack (UnifiedConsumer.deliveryTag msg)) w1)
              = (log w ++ [XAdd RedisConsumer.streamName (RedisConsumer.eventId ev);
                           Ack (UnifiedConsumer.deliveryTag msg)])%list)
    /\ (forall (cb : RedisConsumer.WhatsAppMessageEvent -> M World unit) entry ev w,
           RedisConsumer.decode valid_json (RedisConsumer.message entry) w = (Ok ev, w) ->
           let ack := XAck RedisConsumer.streamName RedisConsumer.consumerGroup
                           (RedisConsumer.entry_id entry) in
           let called_back := cb ev (emit (Callback (RedisConsumer.eventId ev)) w) in
           let done := RedisConsumer.processMessage valid_json (Some cb) entry w in
           fst done = Ok tt
           /\ (exists tail,
                  log (snd done) = (log (snd called_back) ++ tail)%list
                  /\ (tail = [] \/ tail = [ack]))
           /\ (rc_client (snd called_back) = true ->
               responds (snd called_back) (calls (snd called_back)) = true ->
               log (snd done) = (log (snd called_back) ++ [ack])%list))
    /\ (forall (cb : RedisConsumer.WhatsAppMessageEvent -> M World unit) entry e w,
           RedisConsumer.decode valid_json (RedisConsumer.message entry) w = (Throw e, w) ->
           let ack := XAck RedisConsumer.streamName RedisConsumer.consumerGroup
                           (RedisConsumer.entry_id entry) in
           let done := RedisConsumer.processMessage valid_json (Some cb) entry w in
           fst done = Ok tt
           /\ (exists tail,
                  log (snd done) = (log w ++ tail)%list
                  /\ (tail = [] \/ tail = [ack]))
           /\ (rc_client w = true ->
               responds w (calls w) = true ->
               log (snd done) = (log w ++ [ack])%list)).
Proof.
  intros valid_json parse_event. split; [|split; [|split]].
  - apply on_delivery_unparsed.
  - apply on_delivery_appended.
  - intros cb entry ev w Hd ack called_back done.
    pose proof (acknowledge_log
                  (effect (Callback (RedisConsumer.eventId ev)) ;;; cb ev)
                  (RedisConsumer.entry_id entry) w) as Hlog.
    assert (Hdone : done
                    = try_catch
                        ((effect (Callback (RedisConsumer.eventId ev)) ;;; cb ev)
                         ;;; RedisConsumer.xAck (RedisConsumer.entry_id entry))
                        (fun _ => try_catch (RedisConsumer.xAck (RedisConsumer.entry_id entry))
                                    (fun _ => ret tt)) w).
    { subst done. unfold RedisConsumer.processMessage, try_catch, bind. now rewrite Hd. }
    rewrite <- Hdone in Hlog. cbv zeta in Hlog.
    assert (Hcb : snd ((effect (Callback (RedisConsumer.eventId ev)) ;;; cb ev) w)
                  = snd called_back) by reflexivity.
    rewrite Hcb in Hlog. destruct Hlog as (Hok & Htail).
    split; [exact Hok|]. split; [exact Htail|].
    intros Hc Hr. subst done.
    destruct called_back as [r w2] eqn:E. cbn [snd] in *.
    now rewrite (processMessage_acks_after valid_json cb entry ev w r w2 Hd E Hc Hr).
  - intros cb entry e w Hd ack done.
    pose proof (acknowledge_log (throw e) (RedisConsumer.entry_id entry) w) as Hlog.
    assert (Hdone : done
                    = try_catch
                        (@throw World unit e
                         ;;; RedisConsumer.xAck (RedisConsumer.entry_id entry))
                        (fun _ => try_catch (RedisConsumer.xAck (RedisConsumer.entry_id entry))
                                    (fun _ => ret tt)) w).
    { subst done. unfold RedisConsumer.processMessage, try_catch, bind. now rewrite Hd. }
    rewrite <- Hdone in Hlog. cbv zeta in Hlog. destruct Hlog as (Hok & Htail).
    split; [exact Hok|]. split; [exact Htail|].
    intros Hc Hr. subst done.
    now rewrite (processMessage_undecodable valid_json (Some cb) entry e w Hd Hc Hr).
Qed.

Lemma relay_ack_order_witness :
  let ack := XAck "whatsapp:messages" "message-processors" "1793664000000-0" in
  let bare := RedisConsumer.mkStreamMessage "1793664000000-0"
                (RedisConsumer.streamData
                   (RedisConsumer.mkEvent "s1" "m2" "5511@s.whatsapp.net" None
                      "2026-11-03T00:00:01.000Z" "text" (Some "oi") None None
                      "2026-11-03T00:00:01.000Z" "e2")) in
  MessageBridge.on_delivery Sample.parse_event
    (UnifiedConsumer.mkMessage "oi" None 8 "whatsapp.messages" "message.received")
    Sample.steady
  = (Ok tt, emit (Nack 8 false false) Sample.steady)
  /\ log (snd (MessageBridge.on_delivery Sample.parse_event Sample.relayed Sample.steady))
     = [XAdd "whatsapp:messages" "e1"; Ack 7]
  /\ log (snd (RedisConsumer.processMessage Sample.is_json (Some (fun _ => ret tt))
                 Sample.entry Sample.steady))
     = [Callback "e1"; ack]
  /\ log (snd (RedisConsumer.processMessage Sample.is_json
                 (Some (fun _ => throw (Error "disk full"))) Sample.entry Sample.steady))
     = [Callback "e1"; ack]
  /\ log (snd (RedisConsumer.processMessage Sample.is_json (Some (fun _ => ret tt))
                 bare Sample.steady))
     = [ack].
Proof.
  intros ack bare.
  destruct (relay_ack_order Sample.is_json Sample.parse_event)
    as (Hnack & Hack & Hentry & Hlost).
  split; [apply Hnack; reflexivity|]. split; [|split; [|split]].
  - destruct (Hack Sample.relayed Sample.event Sample.steady "k3x9q"
                   (snd (RedisConsumer.addMessageToStream Sample.event Sample.steady))
                   eq_refl eq_refl) as (Hrun & Hlog).
    rewrite Hrun. exact Hlog.
  - destruct (Hentry (fun _ => ret tt) Sample.entry Sample.event Sample.steady eq_refl)
      as (_ & _ & Hacked).
    exact (Hacked eq_refl eq_refl).
  - destruct (Hentry (fun _ => throw (Error "disk full")) Sample.entry Sample.event
                Sample.steady eq_refl) as (_ & _ & Hacked).
    exact (Hacked eq_refl eq_refl).
  - destruct (Hlost (fun _ => ret tt) bare (Error "Unexpected end of JSON input")
                Sample.steady eq_refl) as (_ & _ & Hacked).
    exact (Hacked eq_refl eq_refl).
Defined.

(** C1 as stated fails on both halves.  When the XADD throws,
    [addMessageToStream] answers [null] instead of throwing, and the bridge
    acks the delivery: the only call is the ack, there is no XADD and no
    nack.  When the storage callback throws, the entry is acked all the
    same, from the error handler. *)
Lemma relay_ack_counterexample :
  let lost := Sample.with_io (Sample.failing_at 0) Sample.steady in
  fst (RedisConsumer.addMessageToStream Sample.event lost) = Ok None
  /\ Sample.parse_event (UnifiedConsumer.content Sample.relayed) = Some Sample.event
  /\ log (snd (MessageBridge.on_delivery Sample.parse_event Sample.relayed lost))
     = [Ack 7]
  /\ log (snd (MessageBridge.relay_entry Sample.is_json
                 (fun _ => throw (Error "disk full")) Sample.entry Sample.steady))
     = [Callback "e1"; XAck "whatsapp:messages" "message-processors" "1793664000000-0"].
Proof. intros lost. repeat split; vm_compute; reflexivity. Qed.

End RelayClaims.

(* ===================================================================== *)
(** * Further properties *)
(* ===================================================================== *)

(** ** RateLimiter *)

Section RateLimiterMore.
Import RateLimiter.

(** A check never touches the entries of other keys. *)
Lemma canSend_other_keys rl now key content k' :
  k' <> key ->
  rateLimitMap (snd (canSendMessage now key content rl)) !! k' = rateLimitMap rl !! k'.
Proof.
  intros Hne. unfold canSendMessage.
  destruct (rateLimitMap rl !! key) as [e|]; cbn zeta.
  - destruct (_ <? _); [destruct (String.eqb _ _); [reflexivity|destruct (_ <=? _); [reflexivity|]]|];
      cbn; now rewrite lookup_insert_ne.
  - cbn. now rewrite lookup_insert_ne.
Qed.

Lemma canSend_rejected_same rl now key content :
  allowed (fst (canSendMessage now key content rl)) = false ->
  snd (canSendMessage now key content rl) = rl.
Proof.
  unfold canSendMessage.
  destruct (rateLimitMap rl !! key) as [e|]; cbn zeta; [|discriminate].
  destruct (_ <? _); [|discriminate].
  destruct (String.eqb _ _); [reflexivity|].
  destruct (_ <=? _); [reflexivity|discriminate].
Qed.

Lemma counts_bounded_empty window max : counts_bounded (create window max).
Proof. intros k e H. cbn in H. now rewrite lookup_empty in H. Qed.

(** X1. With a maximum of at least one message per window, the counts the
    limiter stores stay between 1 and the maximum, whatever is asked. *)
Theorem canSendMessage_counts_bounded rl now key content :
  1 <= MAX_MESSAGES_PER_WINDOW rl ->
  counts_bounded rl ->
  counts_bounded (snd (canSendMessage now key content rl)).
Proof.
  intros Hmax Hinv k e. destruct (canSend_constants rl now key content) as (_ & HM).
  rewrite HM. clear HM. unfold canSendMessage.
  destruct (rateLimitMap rl !! key) as [e0|] eqn:He0; cbn zeta.
  - destruct (_ <? _).
    + destruct (String.eqb _ _); [apply Hinv|].
      destruct (_ <=? _) eqn:Hle; [apply Hinv|]. cbn.
      destruct (decide (k = key)) as [->|Hne].
      * rewrite lookup_insert_eq. intros [= <-]. cbn.
        apply Z.leb_gt in Hle. specialize (Hinv _ _ He0). lia.
      * rewrite lookup_insert_ne by congruence. apply Hinv.
    + cbn. destruct (decide (k = key)) as [->|Hne].
      * rewrite lookup_insert_eq. intros [= <-]. cbn. lia.
      * rewrite lookup_insert_ne by congruence. apply Hinv.
  - cbn. destruct (decide (k = key)) as [->|Hne].
    + rewrite lookup_insert_eq. intros [= <-]. cbn. lia.
    + rewrite lookup_insert_ne by congruence. apply Hinv.
Qed.

Lemma canSendMessage_counts_bounded_witness :
  counts_bounded (snd (canSendMessage 1000 "s1:5511" "oi" default)).
Proof.
  apply (canSendMessage_counts_bounded default 1000 "s1:5511" "oi").
  - cbn. lia.
  - apply counts_bounded_empty.
Defined.

Lemma attempts_all_duplicates times rl key content t0 n :
  rateLimitMap rl !! key = Some (mkEntry t0 n content) ->
  Forall (fun t => t - t0 < RATE_LIMIT_WINDOW rl) times ->
  attempts times key content rl
  = (map (fun t => rejected DUPLICATE (RATE_LIMIT_WINDOW rl - (t - t0))) times, rl).
Proof.
  intros He Hall. induction Hall as [|t rest Ht _ IH]; [reflexivity|].
  cbn [attempts map].
  rewrite (canSend_duplicate rl t key content _ He Ht eq_refl). cbn [lastMessageTime].
  now rewrite IH.
Qed.

(** X2. Rejected duplicates do not extend the window.  Once a send has
    been accepted at [t0], every further attempt with the same content
    before [t0 + window] is rejected as a duplicate and changes nothing,
    however many there are; an attempt at [t0 + window] or later is
    accepted. *)
Theorem duplicates_do_not_extend_window rl key content t0 times t :
  allowed (fst (canSendMessage t0 key content rl)) = true ->
  Forall (fun t' => t' - t0 < RATE_LIMIT_WINDOW rl) times ->
  RATE_LIMIT_WINDOW rl <= t - t0 ->
  let rl1 := snd (canSendMessage t0 key content rl) in
  Forall (fun r => allowed r = false /\ reason r = Some DUPLICATE)
         (fst (attempts times key content rl1))
  /\ snd (attempts times key content rl1) = rl1
  /\ allowed (fst (canSendMessage t key content (snd (attempts times key content rl1)))) = true.
Proof.
  intros Hok Hall Ht rl1.
  destruct (canSend_allowed_entry _ _ _ _ Hok) as (n & Hn & _).
  destruct (canSend_constants rl t0 key content) as (HW & _).
  fold rl1 in Hn, HW.
  rewrite (attempts_all_duplicates times rl1 key content t0 n Hn)
    by (now rewrite HW).
  cbn [fst snd]. split; [|split; [reflexivity|]].
  - apply Forall_map. apply Forall_forall. intros x _. now split.
  - rewrite (canSend_expired rl1 t key content _ Hn); [reflexivity|].
    cbn. now rewrite HW.
Qed.

Lemma duplicates_do_not_extend_window_witness :
  let rl1 := snd (canSendMessage 0 "s1:5511" "oi" default) in
  snd (attempts [1000; 15000; 29999] "s1:5511" "oi" rl1) = rl1
  /\ allowed (fst (canSendMessage 30000 "s1:5511" "oi"
                     (snd (attempts [1000; 15000; 29999] "s1:5511" "oi" rl1)))) = true.
Proof.
  intros rl1.
  destruct (duplicates_do_not_extend_window default "s1:5511" "oi" 0
              [1000; 15000; 29999] 30000) as (_ & Hsame & Hnext).
  - reflexivity.
  - repeat constructor; cbn; lia.
  - cbn. lia.
  - split; assumption.
Defined.

(** [cleanup] keeps exactly the entries idle for at most twice the window. *)
Lemma cleanup_lookup rl now k e :
  rateLimitMap (cleanup now rl) !! k = Some e
  <-> rateLimitMap rl !! k = Some e
      /\ now - lastMessageTime e <= RATE_LIMIT_WINDOW rl * 2.
Proof.
  unfold cleanup. cbn. rewrite map_lookup_filter_Some. cbn.
  rewrite negb_true_iff, Z.ltb_ge. tauto.
Qed.

(** X3. [cleanup] is invisible to callers: a check made after a cleanup
    gets the verdict, and leaves the entry, it would have got and left
    without it (the clock does not run backwards, the window is not
    negative). *)
Theorem cleanup_keeps_verdicts rl now now' key content :
  0 <= RATE_LIMIT_WINDOW rl ->
  now <= now' ->
  fst (canSendMessage now' key content (cleanup now rl))
  = fst (canSendMessage now' key content rl)
  /\ rateLimitMap (snd (canSendMessage now' key content (cleanup now rl))) !! key
     = rateLimitMap (snd (canSendMessage now' key content rl)) !! key.
Proof.
  intros HW Hnow.
  destruct (rateLimitMap rl !! key) as [e|] eqn:He.
  - destruct (Z.ltb_spec (RATE_LIMIT_WINDOW rl * 2) (now - lastMessageTime e)) as [Hidle|Hfresh].
    + assert (Hgone : rateLimitMap (cleanup now rl) !! key = None).
      { destruct (rateLimitMap (cleanup now rl) !! key) as [e'|] eqn:E; [|reflexivity].
        apply cleanup_lookup in E as (E & Hk). rewrite He in E. injection E as <-. lia. }
      rewrite (canSend_absent _ now' key content Hgone).
      rewrite (canSend_expired rl now' key content e He) by lia.
      cbn. now rewrite !lookup_insert_eq.
    + assert (Hkept : rateLimitMap (cleanup now rl) !! key = Some e).
      { apply cleanup_lookup. now split. }
      unfold canSendMessage. rewrite Hkept, He. cbn zeta.
      change (RATE_LIMIT_WINDOW (cleanup now rl)) with (RATE_LIMIT_WINDOW rl).
      change (MAX_MESSAGES_PER_WINDOW (cleanup now rl)) with (MAX_MESSAGES_PER_WINDOW rl).
      destruct (_ <? _); [destruct (String.eqb _ _); [|destruct (_ <=? _)]|];
        cbn; rewrite ?lookup_insert_eq, ?Hkept, ?He; now split.
  - assert (Hgone : rateLimitMap (cleanup now rl) !! key = None).
    { destruct (rateLimitMap (cleanup now rl) !! key) as [e'|] eqn:E; [|reflexivity].
      apply cleanup_lookup in E as (E & _). congruence. }
    rewrite (canSend_absent _ now' key content Hgone), (canSend_absent _ now' key content He).
    cbn. now rewrite !lookup_insert_eq.
Qed.

Lemma cleanup_keeps_verdicts_witness :
  let rl1 := snd (canSendMessage 0 "s1:5511" "oi" default) in
  fst (canSendMessage 70000 "s1:5511" "oi" (cleanup 61000 rl1))
  = fst (canSendMessage 70000 "s1:5511" "oi" rl1).
Proof.
  intros rl1.
  refine (proj1 (cleanup_keeps_verdicts rl1 61000 70000 "s1:5511" "oi" _ _)).
  - vm_compute. discriminate.
  - lia.
Defined.

End RateLimiterMore.

(** ** CircuitBreakerService *)

Section BreakerMore.
Import CircuitBreakerService.
Variable Ext : Type.
Variable clock : nat -> Z.

Lemma execute_cases {T} (a : Action Ext T) cb w :
  (isOpen cb = true /\ clock (ticks w) < nextTryTime cb
   /\ execute clock a (cb, w)
      = (Throw (Error (open_message (serviceName cb)
                         (Js.ceil_div (nextTryTime cb - clock (S (ticks w))) 1000))),
         (cb, later 2 w)))
  \/ (exists w0, execute clock a (cb, w) = settle clock cb (a w0)).
Proof.
  destruct (isOpen cb) eqn:Ho.
  - destruct (Z.lt_ge_cases (clock (ticks w)) (nextTryTime cb)) as [Hlt|Hge].
    + left. repeat split; [assumption|]. now apply execute_rejected.
    + right. exists (later 1 w). now apply execute_probe.
  - right. exists w. now apply execute_closed.
Qed.

Lemma settle_threshold {T} cb (o : Res T * World Ext) :
  threshold (fst (snd (settle clock cb o))) = threshold cb.
Proof.
  destruct o as [[v|[| |e]] w']; cbn; try reflexivity.
  unfold failed. destruct (threshold cb <=? failureCount cb + 1); reflexivity.
Qed.

Lemma settle_keeps_open_tripped {T} cb (o : Res T * World Ext) :
  open_only_tripped cb -> open_only_tripped (fst (snd (settle clock cb o))).
Proof.
  unfold open_only_tripped. intros Hinv.
  destruct o as [[v|[| |e]] w']; cbn.
  - discriminate.
  - intros Ho. apply Hinv in Ho. lia.
  - intros Ho. apply Hinv in Ho. lia.
  - unfold failed. destruct (threshold cb <=? failureCount cb + 1) eqn:Hle; cbn.
    + apply Z.leb_le in Hle. intros _. exact Hle.
    + intros Ho. apply Hinv in Ho. lia.
Qed.

Lemma settle_keeps_invariant {T} cb (o : Res T * World Ext) :
  0 < threshold cb ->
  tripped_iff_open cb ->
  (forall v, fst o = Throw v -> nullish v = false) ->
  tripped_iff_open (fst (snd (settle clock cb o))).
Proof.
  intros Hpos Hinv Hval. unfold tripped_iff_open in *.
  destruct o as [[v|[| |e]] w']; cbn.
  - split; [discriminate|lia].
  - specialize (Hval Undefined eq_refl). discriminate.
  - specialize (Hval Null eq_refl). discriminate.
  - unfold failed. destruct (threshold cb <=? failureCount cb + 1) eqn:Hle; cbn.
    + apply Z.leb_le in Hle. split; [intros _; exact Hle|reflexivity].
    + apply Z.leb_gt in Hle. split.
      * intros Ho. apply Hinv in Ho. lia.
      * lia.
Qed.

(** X4. [execute] never changes the threshold, and it keeps an open
    breaker at or over its threshold, whether the call is rejected,
    succeeds or fails.  With a positive threshold and an action that never
    throws [undefined] or [null], it keeps the breaker open exactly when
    the failure count has reached the threshold.  A failure that carries
    [undefined] or [null] and brings the count of a closed breaker to its
    threshold leaves the breaker closed. *)
Theorem execute_keeps_invariant {T} (a : Action Ext T) cb w :
  let cb' := fst (snd (execute clock a (cb, w))) in
  threshold cb' = threshold cb
  /\ (open_only_tripped cb -> open_only_tripped cb')
  /\ (0 < threshold cb -> tripped_iff_open cb -> throws_values a -> tripped_iff_open cb')
  /\ (forall v w',
         isOpen cb = false ->
         threshold cb <= failureCount cb + 1 ->
         a w = (Throw v, w') ->
         nullish v = true ->
         isOpen cb' = false /\ threshold cb' <= failureCount cb').
Proof.
  intros cb'. subst cb'. split; [|split; [|split]].
  - destruct (execute_cases a cb w) as [(_ & _ & ->)|(w0 & ->)];
      [reflexivity|apply settle_threshold].
  - intros Hinv. destruct (execute_cases a cb w) as [(_ & _ & ->)|(w0 & ->)];
      [exact Hinv|now apply settle_keeps_open_tripped].
  - intros Hpos Hinv Hval.
    destruct (execute_cases a cb w) as [(_ & _ & ->)|(w0 & ->)]; [exact Hinv|].
    apply settle_keeps_invariant; try assumption.
    intros v Hv. destruct (a w0) as [r w1] eqn:E. cbn in Hv. subst r.
    exact (Hval _ _ _ E).
  - intros v w' Hc Hle Ha Hn. rewrite execute_closed by assumption. rewrite Ha.
    destruct (settle_slips Ext clock (T := T) cb v w' Hn) as (what & ->).
    cbn. split; [exact Hc|exact Hle].
Qed.

(** X5. A failed probe.  When the cooldown of an open breaker has elapsed
    the call goes through.  If it throws a value other than [undefined]
    and [null], that value is rethrown and the breaker stays open with its
    next try one cooldown after the failure, the failure being counted.
    If it throws [undefined] or [null], [execute] throws a [TypeError]
    instead, the failure is counted and the breaker stays open, but its
    next try is not moved: the next call goes through as well. *)
Theorem probe_failure_reopens {T} (a : Action Ext T) cb w v w' :
  isOpen cb = true ->
  tripped_iff_open cb ->
  nextTryTime cb <= clock (ticks w) ->
  a (later 1 w) = (Throw v, w') ->
  (forall e : JsError, v = Value e ->
     exists cb',
       execute clock a (cb, w) = (Throw (Value e), (cb', later 2 w'))
       /\ isOpen cb' = true
       /\ nextTryTime cb' = clock (S (ticks w')) + cooldownTime cb
       /\ failureCount cb' = failureCount cb + 1)
  /\ (nullish v = true ->
      exists what cb',
        execute clock a (cb, w) = (Throw (Value (TypeError what "message")), (cb', later 1 w'))
        /\ isOpen cb' = true
        /\ nextTryTime cb' = nextTryTime cb
        /\ failureCount cb' = failureCount cb + 1).
Proof.
  intros Ho Hinv Ht Ha. apply Hinv in Ho as Hc.
  rewrite execute_probe by assumption. rewrite Ha. split.
  - intros e ->. rewrite settle_trips by lia.
    eexists. split; [reflexivity|]. cbn. repeat split.
  - intros Hn. destruct (settle_slips Ext clock (T := T) cb v w' Hn) as (what & ->).
    exists what. eexists. split; [reflexivity|]. cbn. repeat split. exact Ho.
Qed.

(** From a closed breaker, failures are counted one by one and the breaker
    opens with the failure that reaches the threshold. *)
Lemma failures_count_up {T} (actions : list (Action Ext T)) :
  forall cb w,
    isOpen cb = false ->
    failureCount cb + Z.of_nat (length actions) <= threshold cb ->
    Forall always_fails actions ->
    let cb' := fst (snd (execute_all clock actions (cb, w))) in
    failureCount cb' = failureCount cb + Z.of_nat (length actions)
    /\ threshold cb' = threshold cb
    /\ isOpen cb' = match actions with
                    | [] => false
                    | _ => threshold cb <=? failureCount cb + Z.of_nat (length actions)
                    end.
Proof.
  induction actions as [|a rest IH]; intros cb w Hc Hlen Hall.
  - cbn. repeat split; [lia|assumption].
  - inversion Hall as [|? ? Ha Hrest]. subst.
    destruct (Ha w) as (e & w1 & Hrun).
    cbn [execute_all]. rewrite execute_closed by assumption. rewrite Hrun.
    cbn [length] in Hlen. rewrite Nat2Z.inj_succ in Hlen.
    destruct rest as [|a2 rest'].
    + cbn [execute_all length]. change (Z.of_nat 1) with 1.
      destruct (Z.leb_spec (threshold cb) (failureCount cb + 1)) as [Hle|Hgt].
      * rewrite settle_trips by assumption. cbn. repeat split.
      * rewrite settle_counts by assumption. cbn. repeat split. assumption.
    + assert (Hgt : failureCount cb + 1 < threshold cb) by (cbn [length] in Hlen; lia).
      rewrite settle_counts by assumption.
      set (cb1 := recorded cb (clock (ticks w1))).
      specialize (IH cb1 (later 1 w1) Hc).
      destruct (execute_all clock (a2 :: rest') (cb1, later 1 w1)) as [rs s2] eqn:Hrest2.
      cbn [fst snd] in *.
      destruct IH as (Hf & Ht & Hi); [cbn; cbn [length] in Hlen; lia|exact Hrest|].
      rewrite Hf, Ht, Hi. cbn [length failureCount threshold cb1 recorded].
      rewrite !Nat2Z.inj_succ. repeat split; try lia.
      f_equal. lia.
Qed.

(** X6. A new breaker with threshold [n] counts consecutive failures one
    by one and is open after them exactly when there were [n]: no earlier,
    and whatever the clock, for actions that throw a value other than
    [undefined] and [null]. *)
Theorem breaker_opens_at_threshold {T} (actions : list (Action Ext T)) n cooldown name w :
  0 < n ->
  Z.of_nat (length actions) <= n ->
  Forall always_fails actions ->
  let cb' := fst (snd (execute_all clock actions (constructor (mkConfig n cooldown name), w))) in
  failureCount cb' = Z.of_nat (length actions)
  /\ (isOpen cb' = true <-> Z.of_nat (length actions) = n).
Proof.
  intros Hn Hlen Hall cb'.
  destruct (failures_count_up actions (constructor (mkConfig n cooldown name)) w)
    as (Hf & _ & Hi); [reflexivity|cbn; lia|exact Hall|].
  fold cb' in Hf, Hi. cbn in Hf, Hi. split; [exact Hf|].
  rewrite Hi. destruct actions as [|a rest].
  - cbn. split; [discriminate|lia].
  - rewrite Z.leb_le. cbn [length] in *. lia.
Qed.

End BreakerMore.

Section BreakerMoreWitnesses.
Import CircuitBreakerService.

Lemma failing_always_fails : always_fails failing.
Proof. intros w. now exists (Error "ECONNRESET"), (mkWorld (ticks w) (S (ext w))). Qed.

Lemma execute_keeps_invariant_witness :
  let cb := constructor (mkConfig 3 30000 "openai") in
  let two := mk 2 3 30000 false 0 "openai" 1000 2 0 in
  tripped_iff_open (fst (snd (execute second_clock failing (cb, mkWorld 0 0%nat))))
  /\ (isOpen (fst (snd (execute second_clock rejecting (two, mkWorld 2 2%nat)))) = false
      /\ 3 <= failureCount (fst (snd (execute second_clock rejecting (two, mkWorld 2 2%nat))))).
Proof.
  intros cb two. split.
  - destruct (execute_keeps_invariant nat second_clock failing cb (mkWorld 0 0%nat))
      as (_ & _ & Hiff & _).
    apply Hiff.
    + cbn. lia.
    + unfold tripped_iff_open. cbn. split; [discriminate|lia].
    + intros w v w' H. injection H as <- _. reflexivity.
  - destruct (execute_keeps_invariant nat second_clock rejecting two (mkWorld 2 2%nat))
      as (Hthr & _ & _ & Hslip).
    destruct (Hslip Undefined (mkWorld 2 3%nat)) as (Hc & Hle);
      [reflexivity | cbn; lia | reflexivity | reflexivity |].
    split; [exact Hc|]. cbv zeta in Hthr. rewrite Hthr in Hle. exact Hle.
Defined.

Lemma probe_failure_reopens_witness :
  let cb := mk 3 3 30000 true 1000 "openai" 0 3 0 in
  (exists cb',
      execute second_clock failing (cb, mkWorld 5 0%nat)
      = (Throw (Error "ECONNRESET"), (cb', later 2 (mkWorld 6 1%nat)))
      /\ isOpen cb' = true
      /\ nextTryTime cb' = second_clock 7 + 30000
      /\ failureCount cb' = 4)
  /\ (exists what cb',
         execute second_clock rejecting (cb, mkWorld 5 0%nat)
         = (Throw (Value (TypeError what "message")), (cb', later 1 (mkWorld 6 1%nat)))
         /\ isOpen cb' = true
         /\ nextTryTime cb' = 1000
         /\ failureCount cb' = 4).
Proof.
  intros cb. split.
  - refine (proj1 (probe_failure_reopens nat second_clock failing cb (mkWorld 5 0%nat)
                     (Value (Error "ECONNRESET")) (mkWorld 6 1%nat) eq_refl _ _ eq_refl)
                  (Error "ECONNRESET") eq_refl).
    + unfold tripped_iff_open. cbn. split; [lia|reflexivity].
    + unfold second_clock. cbn. lia.
  - refine (proj2 (probe_failure_reopens nat second_clock rejecting cb (mkWorld 5 0%nat)
                     Undefined (mkWorld 6 1%nat) eq_refl _ _ eq_refl) eq_refl).
    + unfold tripped_iff_open. cbn. split; [lia|reflexivity].
    + unfold second_clock. cbn. lia.
Defined.

Lemma breaker_opens_at_threshold_witness :
  isOpen (fst (snd (execute_all second_clock [failing; failing; failing]
                      (constructor (mkConfig 3 30000 "openai"), mkWorld 0 0%nat))))
  = true.
Proof.
  refine (proj2 (proj2 (breaker_opens_at_threshold nat second_clock
                          [failing; failing; failing] 3 30000 "openai" (mkWorld 0 0%nat)
                          _ _ _)) eq_refl).
  - lia.
  - cbn. lia.
  - repeat constructor; apply failing_always_fails.
Defined.

(** X7. The registry keeps the first configuration: a second
    [getInstance] under the same name answers the instance of the first,
    with the first threshold and cooldown, and leaves the registry alone. *)
Theorem getInstance_first_configuration_wins name t1 c1 t2 c2 reg :
  let reg1 := snd (getInstance name t1 c1 reg) in
  getInstance name t2 c2 reg1 = (fst (getInstance name t1 c1 reg), reg1)
  /\ (reg !! name = None ->
      threshold (fst (getInstance name t2 c2 reg1)) = t1
      /\ cooldownTime (fst (getInstance name t2 c2 reg1)) = c1).
Proof.
  unfold getInstance. destruct (reg !! name) as [cb|] eqn:E; cbn.
  - rewrite E. split; [reflexivity|discriminate].
  - rewrite lookup_insert_eq. split; [reflexivity|]. intros _. split; reflexivity.
Qed.

End BreakerMoreWitnesses.

(** ** RabbitMQErrorHandler *)

Section IncludesFacts.

Lemma append_cons c (a b : string) : String c a ++ b = String c (a ++ b).
Proof. reflexivity. Qed.

Lemma prefix_app p s : String.prefix p (p ++ s) = true.
Proof.
  induction p as [|c p IH]; [now destruct s|].
  rewrite append_cons. simpl.
  destruct (ascii_dec c c); [exact IH|congruence].
Qed.

Lemma prefix_split p s : String.prefix p s = true -> exists q, s = p ++ q.
Proof.
  revert s. induction p as [|c p IH]; intros s H.
  - now exists s.
  - destruct s as [|c' s]; simpl in H; [discriminate|].
    destruct (ascii_dec c c') as [<-|]; [|discriminate].
    destruct (IH s H) as (q & ->). now exists q.
Qed.

Lemma includes_split s t :
  Js.includes s t = true <-> exists p q, s = p ++ t ++ q.
Proof.
  split.
  - induction s as [|c s IH]; cbn [Js.includes]; rewrite orb_true_iff; intros [H|H].
    + apply prefix_split in H as (q & Hq). now exists "", q.
    + discriminate.
    + apply prefix_split in H as (q & Hq). now exists "", q.
    + destruct (IH H) as (p & q & ->). now exists (String c p), q.
  - intros (p & q & ->). induction p as [|c p IH].
    + change ("" ++ t ++ q) with (t ++ q).
      destruct (t ++ q) eqn:E; cbn [Js.includes]; rewrite <- E, prefix_app; reflexivity.
    + change (String c p ++ t ++ q) with (String c (p ++ t ++ q)).
      cbn [Js.includes]. rewrite IH. apply orb_true_r.
Qed.

Lemma append_assoc (a b c : string) : (a ++ b) ++ c = a ++ b ++ c.
Proof.
  induction a as [|x a IH]; [reflexivity|].
  rewrite !append_cons. f_equal. exact IH.
Qed.

(** A string that contains [a ++ t ++ b] contains [t]. *)
Lemma includes_inner s a t b :
  Js.includes s (a ++ t ++ b) = true -> Js.includes s t = true.
Proof.
  rewrite !includes_split. intros (p & q & ->).
  exists (p ++ a), (b ++ q). now rewrite !append_assoc.
Qed.

End IncludesFacts.

Section ErrorHandlerMore.
Import RabbitMQErrorHandler.

Ltac split_tests :=
  repeat match goal with
         | |- context [if ?b then _ else _] => destruct b eqn:?
         end.

Lemma by_message_fits m i : flags_fit i -> flags_fit (by_message m i).
Proof.
  unfold by_message, flags_fit.
  generalize (Js.includes (Js.toLowerCase m)); intros has Hi.
  split_tests; cbn; auto.
Qed.

Lemma by_code_fits err i : flags_fit (by_code err i).
Proof.
  unfold by_code, flags_fit.
  destruct (err_code err) as [|n|s]; split_tests; cbn; auto.
Qed.

Lemma analyzeError_fits now err ctx : flags_fit (analyzeError now err ctx).
Proof.
  unfold analyzeError.
  destruct (truthy_code (err_code err));
    destruct (err_message err) as [m|]; try destruct (Js.truthy_string m);
    try apply by_message_fits; try apply by_code_fits;
    unfold flags_fit; cbn; auto.
Qed.

Lemma handleError_action_for cfg now err ctx rc :
  action (handleError cfg now err ctx rc) = action_for cfg (analyzeError now err ctx) rc.
Proof.
  pose proof (analyzeError_fits now err ctx) as Hfit.
  unfold handleError, action_for, shouldRetry, calculateRetryDelay, flags_fit in *.
  rewrite (Z.ltb_antisym (maxRetries cfg) rc).
  destruct (type (analyzeError now err ctx)); cbn [type_eqb];
    try contradiction;
    repeat match type of Hfit with
           | _ /\ _ => let H := fresh in destruct Hfit as (H & Hfit); rewrite H
           | _ \/ _ => destruct Hfit as [Hfit|Hfit]
           | _ = _ => rewrite Hfit
           end;
    cbn [negb andb];
    try (destruct (maxRetries cfg <=? rc)); try (destruct (dlqEnabled cfg));
    cbn; reflexivity.
Qed.

(** X8. The decision table of [handleError].  The three flags of an
    analysed error are determined by its type (with two variants for
    unknown errors), and the action follows from the type alone: log for
    the two access errors, reconnect for a refused connection, retry for a
    locked resource while retries remain, reconnect or discard for unknown
    errors, and the dead-letter queue (when enabled) for the rest. *)
Theorem handleError_by_type cfg now err ctx rc :
  flags_fit (analyzeError now err ctx)
  /\ action (handleError cfg now err ctx rc) = action_for cfg (analyzeError now err ctx) rc.
Proof.
  split; [apply analyzeError_fits|apply handleError_action_for].
Qed.

(** X9. Three types are never assigned.  A message that contains
    [queue not found] or [exchange not found] contains [not found], which
    is tested first, and no branch assigns [CHANNEL_ERROR]. *)
Theorem shadowed_types_never_assigned now err ctx :
  type (analyzeError now err ctx) <> QUEUE_NOT_FOUND
  /\ type (analyzeError now err ctx) <> EXCHANGE_NOT_FOUND
  /\ type (analyzeError now err ctx) <> CHANNEL_ERROR.
Proof.
  assert (Hmsg : forall m i,
             type i <> QUEUE_NOT_FOUND -> type i <> EXCHANGE_NOT_FOUND ->
             type i <> CHANNEL_ERROR ->
             type (by_message m i) <> QUEUE_NOT_FOUND
             /\ type (by_message m i) <> EXCHANGE_NOT_FOUND
             /\ type (by_message m i) <> CHANNEL_ERROR).
  { intros m i H1 H2 H3. unfold by_message.
    destruct (Js.includes (Js.toLowerCase m) "access refused" || _) eqn:Ha;
      [cbn; repeat split; discriminate|].
    destruct (Js.includes (Js.toLowerCase m) "not found" || _) eqn:Hn;
      [cbn; repeat split; discriminate|].
    apply orb_false_iff in Hn as (Hn & _).
    assert (Hq : Js.includes (Js.toLowerCase m) "queue not found" = false).
    { destruct (Js.includes _ "queue not found") eqn:E; [|reflexivity].
      apply (includes_inner _ "queue " "not found" "") in E. congruence. }
    assert (He : Js.includes (Js.toLowerCase m) "exchange not found" = false).
    { destruct (Js.includes _ "exchange not found") eqn:E; [|reflexivity].
      apply (includes_inner _ "exchange " "not found" "") in E. congruence. }
    rewrite Hq, He. split_tests; cbn; repeat split; solve [discriminate | assumption]. }
  assert (Hcode : forall i,
             type (by_code err i) <> QUEUE_NOT_FOUND
             /\ type (by_code err i) <> EXCHANGE_NOT_FOUND
             /\ type (by_code err i) <> CHANNEL_ERROR).
  { intros i. unfold by_code. destruct (err_code err) as [|n|s]; split_tests; cbn;
      repeat split; discriminate. }
  unfold analyzeError.
  destruct (truthy_code (err_code err));
    destruct (err_message err) as [m|]; try destruct (Js.truthy_string m);
    try (apply Hmsg; try apply Hcode; cbn; discriminate);
    try apply Hcode; cbn; repeat split; discriminate.
Qed.

(** X10. Without a delay of the error's own, the exponential backoff
    doubles the delay with every retry and has no ceiling: with a positive
    base delay it exceeds every bound. *)
Theorem backoff_doubles_without_cap cfg i rc :
  exponentialBackoff cfg = true ->
  retryDelay i = None ->
  0 <= rc ->
  calculateRetryDelay cfg i (rc + 1) = 2 * calculateRetryDelay cfg i rc
  /\ (0 < cfg_retryDelay cfg ->
      forall bound, exists n, 0 <= n /\ bound < calculateRetryDelay cfg i n).
Proof.
  intros Hexp Hd Hrc. unfold calculateRetryDelay. rewrite Hd, Hexp. split.
  - rewrite Z.pow_add_r by lia. lia.
  - intros Hpos bound. exists (Z.max 0 bound). split; [lia|].
    assert (H : Z.max 0 bound < 2 ^ Z.max 0 bound) by (apply Z.pow_gt_lin_r; lia).
    nia.
Qed.

Lemma backoff_doubles_without_cap_witness :
  let i := analyzeError 0 (Error "boom") "consumer" in
  calculateRetryDelay defaultErrorHandler i 4 = 2 * calculateRetryDelay defaultErrorHandler i 3.
Proof.
  intros i.
  refine (proj1 (backoff_doubles_without_cap defaultErrorHandler i 3 eq_refl eq_refl _)).
  lia.
Defined.

End ErrorHandlerMore.

(** ** UnifiedConsumer *)

Section ConsumerMore.
Import UnifiedConsumer.

Lemma handleMessageError_dlq msg (err : JsError) ctx w :
  let h := RabbitMQErrorHandler.handleError errorHandler (clock w (ticks w)) err ctx
             (retry_count msg) in
  RabbitMQErrorHandler.action h = RabbitMQErrorHandler.dlq ->
  handleMessageError msg err ctx w
  = let ty := RabbitMQErrorHandler.type (RabbitMQErrorHandler.errorInfo h) in
    let w1 := called (tick (tick w)) in
    match io w (calls w) with
    | IoOk =>
        (Ok tt, emit (Ack (deliveryTag msg))
                  (emit (Publish "baileys.dlx" "dead.letter" (Bytes (content msg))
                           (dlq_options msg err w ty) true) w1))
    | IoFalse =>
        (Ok tt, emit (Ack (deliveryTag msg))
                  (emit (Publish "baileys.dlx" "dead.letter" (Bytes (content msg))
                           (dlq_options msg err w ty) false) w1))
    | IoThrow _ => (Ok tt, emit (Nack (deliveryTag msg) false false) w1)
    end.
Proof.
  intros h Ha. unfold handleMessageError, read_property, channel_publish, bind, Date_now,
    try_catch, io_call, effect, modify, ret.
  fold h. rewrite Ha. cbn [RabbitMQErrorHandler.action_eqb andb dlqEnabled config].
  cbn [io tick calls]. destruct (io w (calls w)); reflexivity.
Qed.

Lemma handleMessageError_other msg (err : JsError) ctx w :
  let h := RabbitMQErrorHandler.handleError errorHandler (clock w (ticks w)) err ctx
             (retry_count msg) in
  RabbitMQErrorHandler.action h <> RabbitMQErrorHandler.retry ->
  RabbitMQErrorHandler.action h <> RabbitMQErrorHandler.dlq ->
  handleMessageError msg err ctx w
  = (Ok tt, emit (Nack (deliveryTag msg) false false) (tick w)).
Proof.
  intros h Hr Hd. unfold handleMessageError, read_property, bind, ret, Date_now, try_catch.
  fold h. destruct (RabbitMQErrorHandler.action h); try congruence; reflexivity.
Qed.

(** The error path settles the delivery once, after at most one publish. *)
Lemma handleMessageError_settles msg (err : JsError) ctx w :
  fst (handleMessageError msg err ctx w) = Ok tt
  /\ exists pre s,
      log (snd (handleMessageError msg err ctx w)) = (log w ++ pre ++ [s])%list
      /\ settles (deliveryTag msg) s
      /\ (length pre <= 1)%nat
      /\ Forall hands_over pre.
Proof.
  set (h := RabbitMQErrorHandler.handleError errorHandler (clock w (ticks w)) err ctx
              (retry_count msg)).
  destruct (RabbitMQErrorHandler.action h) eqn:Ha.
  - pose proof (retry_delay_fixed _ _ _ _ _ Ha) as (_ & _ & Hlt).
    rewrite (handleMessageError_retry msg err ctx w Ha Hlt). split; [reflexivity|].
    eexists [_], _. cbn. rewrite <- app_assoc. split; [reflexivity|].
    split; [now left|]. split; [lia|]. repeat constructor.
  - rewrite handleMessageError_other by (fold h; congruence). split; [reflexivity|].
    exists [], (Nack (deliveryTag msg) false false). cbn. split; [reflexivity|].
    split; [now right|]. split; [lia|constructor].
  - rewrite (handleMessageError_dlq msg err ctx w Ha). cbn zeta.
    destruct (io w (calls w)); (split; [reflexivity|]).
    + eexists [_], _. cbn. rewrite <- app_assoc. split; [reflexivity|].
      split; [now left|]. split; [lia|]. repeat constructor.
    + eexists [_], _. cbn. rewrite <- app_assoc. split; [reflexivity|].
      split; [now left|]. split; [lia|]. repeat constructor.
    + exists [], (Nack (deliveryTag msg) false false). cbn. split; [reflexivity|].
      split; [now right|]. split; [lia|constructor].
  - rewrite handleMessageError_other by (fold h; congruence). split; [reflexivity|].
    exists [], (Nack (deliveryTag msg) false false). cbn. split; [reflexivity|].
    split; [now right|]. split; [lia|constructor].
  - rewrite handleMessageError_other by (fold h; congruence). split; [reflexivity|].
    exists [], (Nack (deliveryTag msg) false false). cbn. split; [reflexivity|].
    split; [now right|]. split; [lia|constructor].
Qed.

(** On [undefined] and [null] the error path throws before it has done
    anything. *)
Lemma handleMessageError_nullish msg v ctx w :
  nullish v = true ->
  exists what,
    handleMessageError msg v ctx w = (Throw (Value (TypeError what "message")), w).
Proof.
  destruct v as [| |e]; [intros _|intros _|discriminate]; eexists; reflexivity.
Qed.

(** X11. A delivery whose handler returns, or throws a value other than
    [undefined] and [null], is settled exactly once: the consume callback
    returns, and what it adds to the handler's own calls is at most one
    publish (now or scheduled) followed by one ack or one nack without
    requeue of this delivery; when the handler returns it is the ack alone.
    A delivery whose handler throws [undefined] or [null] is not settled:
    the callback throws a [TypeError] and adds no call at all. *)
Theorem delivery_settled_once (handler : ConsumedMessage -> M World unit) ctx msg w :
  ((forall v, fst (handler msg w) = Throw v -> nullish v = false) ->
   fst (on_delivery handler ctx msg w) = Ok tt
   /\ exists pre s,
       log (snd (on_delivery handler ctx msg w))
       = (log (snd (handler msg w)) ++ pre ++ [s])%list
       /\ settles (deliveryTag msg) s
       /\ (length pre <= 1)%nat
       /\ Forall hands_over pre
       /\ (fst (handler msg w) = Ok tt -> pre = [] /\ s = Ack (deliveryTag msg)))
  /\ (forall v,
         fst (handler msg w) = Throw v ->
         nullish v = true ->
         exists what,
           on_delivery handler ctx msg w
           = (Throw (Value (TypeError what "message")), snd (handler msg w))).
Proof.
  unfold on_delivery, try_catch, bind.
  destruct (handler msg w) as [[[]|v] w1]; cbn [fst snd] in *; split.
  - intros _. split; [reflexivity|]. exists [], (Ack (deliveryTag msg)).
    split; [reflexivity|]. split; [now left|]. split; [cbn; lia|].
    split; [constructor|]. now intros _.
  - discriminate.
  - intros Hval. specialize (Hval v eq_refl). destruct v as [| |e]; try discriminate.
    destruct (handleMessageError_settles msg e ctx w1) as (Hok & pre & s & Hlog & Hs & Hlen & Hpre).
    split; [exact Hok|]. exists pre, s. repeat split; try assumption; discriminate.
  - intros v' [= <-] Hn. exact (handleMessageError_nullish msg v ctx w1 Hn).
Qed.

Lemma delivery_settled_once_witness :
  (fst (on_delivery (Sample.throwing Sample.refused) "send-command" Sample.command
          Sample.steady) = Ok tt
   /\ exists pre s,
       log (snd (on_delivery (Sample.throwing Sample.refused) "send-command" Sample.command
                   Sample.steady))
       = (pre ++ [s])%list
       /\ settles 7 s
       /\ (length pre <= 1)%nat)
  /\ (exists what,
         on_delivery (Sample.throwing Undefined) "send-command" Sample.command Sample.steady
         = (Throw (Value (TypeError what "message")), Sample.steady)).
Proof.
  split.
  - destruct (proj1 (delivery_settled_once (Sample.throwing Sample.refused) "send-command"
                       Sample.command Sample.steady))
      as (Hok & pre & s & Hlog & Hs & Hlen & _).
    + intros v H. injection H as <-. reflexivity.
    + split; [exact Hok|]. exists pre, s. repeat split; assumption.
  - exact (proj2 (delivery_settled_once (Sample.throwing Undefined) "send-command"
                    Sample.command Sample.steady) Undefined eq_refl eq_refl).
Defined.

(** X12. Terminal errors go to the dead-letter exchange with the retry
    count they arrived with (for a count that is a number) and the
    final-error mark, and the delivery is acked; when that publish throws
    the delivery is nacked without requeue instead. *)
Theorem terminal_error_dead_lettered msg (err : JsError) ctx w n :
  let i := RabbitMQErrorHandler.analyzeError (clock w (ticks w)) err ctx in
  retryCount msg = HNum n ->
  In (RabbitMQErrorHandler.type i)
     [RabbitMQErrorHandler.NOT_FOUND; RabbitMQErrorHandler.PRECONDITION_FAILED;
      RabbitMQErrorHandler.INVALID_ROUTING_KEY; RabbitMQErrorHandler.MESSAGE_TOO_LARGE] ->
  exists options,
    get_prop "x-retry-count" (headers options) = Some (retryCount msg)
    /\ get_prop "x-final-error" (headers options) = Some (HBool true)
    /\ match io w (calls w) with
       | IoOk =>
           log (snd (handleMessageError msg err ctx w))
           = (log w ++ [Publish "baileys.dlx" "dead.letter" (Bytes (content msg)) options true;
                        Ack (deliveryTag msg)])%list
       | IoFalse =>
           log (snd (handleMessageError msg err ctx w))
           = (log w ++ [Publish "baileys.dlx" "dead.letter" (Bytes (content msg)) options false;
                        Ack (deliveryTag msg)])%list
       | IoThrow _ =>
           log (snd (handleMessageError msg err ctx w))
           = (log w ++ [Nack (deliveryTag msg) false false])%list
       end.
Proof.
  intros i Hn Hin.
  set (h := RabbitMQErrorHandler.handleError errorHandler (clock w (ticks w)) err ctx
              (retry_count msg)).
  assert (Ha : RabbitMQErrorHandler.action h = RabbitMQErrorHandler.dlq).
  { pose proof (handleError_action_for errorHandler (clock w (ticks w)) err ctx
                  (retry_count msg)) as Hact.
    fold h i in Hact. rewrite Hact. unfold action_for.
    cbn in Hin. destruct Hin as [<-|[<-|[<-|[<-|[]]]]]; reflexivity. }
  exists (dlq_options msg err w (RabbitMQErrorHandler.type (RabbitMQErrorHandler.errorInfo h))).
  split; [|split].
  - unfold dlq_options, dlq_headers. cbn [headers].
    rewrite !get_set_prop_ne by discriminate. rewrite get_set_prop_eq.
    rewrite Hn. now rewrite (counted_number msg n Hn).
  - unfold dlq_options, dlq_headers. cbn [headers]. apply get_set_prop_eq.
  - rewrite (handleMessageError_dlq msg err ctx w Ha). cbn zeta.
    destruct (io w (calls w)); cbn; now rewrite <- ?app_assoc.
Qed.

Lemma terminal_error_dead_lettered_witness :
  exists options,
    get_prop "x-retry-count" (headers options) = Some (HNum 2)
    /\ get_prop "x-final-error" (headers options) = Some (HBool true)
    /\ log (snd (handleMessageError (Sample.command_again (HNum 2))
                   (Error "Precondition failed: inequivalent arg")
                   "whatsapp.send.commands" Sample.steady))
       = [Publish "baileys.dlx" "dead.letter" (Bytes Sample.command_json) options true;
          Ack 7].
Proof.
  refine (terminal_error_dead_lettered (Sample.command_again (HNum 2))
            (Error "Precondition failed: inequivalent arg")
            "whatsapp.send.commands" Sample.steady 2 eq_refl _).
  vm_compute. auto.
Defined.

(** X13. Errors that call for a reconnection or for logging only, and
    locked resources out of retries, are dropped: the delivery is nacked
    without requeue and nothing is published, retried or dead-lettered. *)
Theorem reconnect_errors_dropped msg err ctx w :
  let i := RabbitMQErrorHandler.analyzeError (clock w (ticks w)) err ctx in
  In (RabbitMQErrorHandler.type i)
     [RabbitMQErrorHandler.CONNECTION_REFUSED; RabbitMQErrorHandler.ACCESS_REFUSED;
      RabbitMQErrorHandler.PERMISSION_DENIED; RabbitMQErrorHandler.UNKNOWN_ERROR]
  \/ (RabbitMQErrorHandler.type i = RabbitMQErrorHandler.RESOURCE_LOCKED
      /\ maxRetries config <= retry_count msg) ->
  handleMessageError msg err ctx w
  = (Ok tt, emit (Nack (deliveryTag msg) false false) (tick w)).
Proof.
  intros i Hin.
  pose proof (handleError_action_for errorHandler (clock w (ticks w)) err ctx
                (retry_count msg)) as Hact.
  fold i in Hact.
  apply handleMessageError_other; rewrite Hact; unfold action_for.
  - destruct Hin as [Hin|(-> & Hrc)].
    + cbn in Hin. destruct Hin as [<-|[<-|[<-|[<-|[]]]]]; try discriminate.
      destruct (RabbitMQErrorHandler.shouldReconnect i); discriminate.
    + apply Z.ltb_ge in Hrc. cbn in Hrc |- *. rewrite Hrc. discriminate.
  - destruct Hin as [Hin|(-> & Hrc)].
    + cbn in Hin. destruct Hin as [<-|[<-|[<-|[<-|[]]]]]; try discriminate.
      destruct (RabbitMQErrorHandler.shouldReconnect i); discriminate.
    + destruct (_ <? _); discriminate.
Qed.

Lemma reconnect_errors_dropped_witness :
  handleMessageError Sample.command (mkError (StrCode "ECONNREFUSED") (Some "connect ECONNREFUSED"))
    "whatsapp.send.commands" Sample.steady
  = (Ok tt, emit (Nack 7 false false) (tick Sample.steady)).
Proof.
  refine (reconnect_errors_dropped Sample.command
            (mkError (StrCode "ECONNREFUSED") (Some "connect ECONNREFUSED"))
            "whatsapp.send.commands" Sample.steady _).
  left. vm_compute. auto.
Defined.

End ConsumerMore.

(** ** DeadLetterQueue *)

Section FrameMore.
Context {S X : Type} (f : S -> X).

Lemma keeps_ret {A} (a : A) : keeps f (ret a).
Proof. now intros s. Qed.

Lemma keeps_throw {A} e : keeps f (@throw S A e).
Proof. now intros s. Qed.

Lemma keeps_gets {A} (g : S -> A) : keeps f (gets g).
Proof. now intros s. Qed.

Lemma keeps_read_property prop v : keeps f (@read_property S prop v).
Proof. now destruct v; intros s. Qed.

Lemma keeps_bind {A B} (m : M S A) (k : A -> M S B) :
  keeps f m -> (forall a, keeps f (k a)) -> keeps f (bind m k).
Proof.
  intros Hm Hk s. unfold bind. specialize (Hm s).
  destruct (m s) as [[a|e] s1]; cbn [snd] in *; [now rewrite Hk|assumption].
Qed.

Lemma keeps_try_catch {A} (m : M S A) h :
  keeps f m -> (forall e, keeps f (h e)) -> keeps f (try_catch m h).
Proof.
  intros Hm Hh s. unfold try_catch. specialize (Hm s).
  destruct (m s) as [[a|e] s1]; cbn [snd] in *; [assumption|now rewrite Hh].
Qed.

Lemma keeps_if {A} (b : bool) (m1 m2 : M S A) :
  keeps f m1 -> keeps f m2 -> keeps f (if b then m1 else m2).
Proof. now destruct b. Qed.

(** When all that follows keeps [f], [f] is as the first step left it. *)
Lemma state_after_bind {A B} (m : M S A) (k : A -> M S B) s :
  (forall a, keeps f (k a)) -> f (snd (bind m k s)) = f (snd (m s)).
Proof.
  intros Hk. unfold bind. destruct (m s) as [[a|e] s1]; cbn [snd]; [apply Hk|reflexivity].
Qed.

Lemma state_after_try {A} (m : M S A) h s :
  (forall e, keeps f (h e)) -> f (snd (try_catch m h s)) = f (snd (m s)).
Proof.
  intros Hh. unfold try_catch. destruct (m s) as [[a|e] s1]; cbn [snd]; [reflexivity|apply Hh].
Qed.

End FrameMore.

Section SortFacts.
Import DeadLetterQueue.




End SortFacts.

Section LoadFacts.
Import DeadLetterQueue.






End LoadFacts.

Section BudgetFacts.
Import DeadLetterQueue.

Ltac run :=
  unfold retryMessage, getDLQMessageFromRedis,
    saveDLQMessageToRedis, channel_publish, generateMessageId,
    RedisClient.get, RedisClient.set, RedisClient.del,
    try_catch, bind, ret, throw, gets, modify, io_call, Date_now, Math_random36, effect.

Ltac step := cbn -[lookup insert delete message_key pretty String.append Z.mul].

(** [retryMessage] writes nothing and answers [false], or it rewrites one
    record that had retries left with one retry more. *)
Lemma retryMessage_kv mid w :
  (kv (snd (retryMessage mid w)) = kv w /\ fst (retryMessage mid w) = Ok false)
  \/ exists m ttl,
      kv w !! message_key mid = Some (m, ttl)
      /\ retryCount m < maxRetries m
      /\ kv (snd (retryMessage mid w))
         = <[message_key (id m) := (retried m (clock w (ticks w)), Some 604800)]> (kv w).
Proof.
  run. step.
  destruct (io w (calls w)); step; try (left; split; reflexivity);
  (destruct (kv w !! message_key mid) as [[m ttl]|] eqn:H; step; [|left; split; reflexivity]);
  (destruct (maxRetries m <=? retryCount m) eqn:Hmax; step; [left; split; reflexivity|]);
  apply Z.leb_gt in Hmax;
  (destruct (io w (S (calls w))); step; try (left; split; reflexivity));
  (destruct (dlq_channel w); step;
   [destruct (io w (S (S (calls w)))); step|]);
  right; exists m, ttl; repeat split; assumption || reflexivity.
Qed.

Lemma retryMessage_budget mid w :
  budget_respected w -> budget_respected (snd (retryMessage mid w)).
Proof.
  intros Hinv. destruct (retryMessage_kv mid w) as [(H & _)|(m & ttl & Hm & Hlt & H)].
  { intros k m' ttl'. rewrite H. apply Hinv. }
  intros k m' ttl'. rewrite H. destruct (decide (k = message_key (id m))) as [->|Hne].
  - rewrite lookup_insert_eq. intros [= <- <-]. cbn. lia.
  - rewrite lookup_insert_ne by congruence. apply Hinv.
Qed.

(** X15. [retryMessage] never takes a record over its budget: if no
    stored record has more retries than its maximum before the call, none
    has after it; and a call that answers [true] found its record with
    retries left. *)
Theorem retryMessage_respects_budget mid w :
  budget_respected w ->
  budget_respected (snd (retryMessage mid w))
  /\ (fst (retryMessage mid w) = Ok true ->
      exists m ttl, kv w !! message_key mid = Some (m, ttl)
                    /\ retryCount m < maxRetries m).
Proof.
  intros Hinv. split; [now apply retryMessage_budget|].
  intros Htrue. destruct (retryMessage_kv mid w) as [(_ & H)|(m & ttl & Hm & Hlt & _)].
  - rewrite H in Htrue. discriminate.
  - now exists m, ttl.
Qed.

Lemma budget_holding m w :
  retryCount m <= maxRetries m ->
  budget_respected w ->
  budget_respected (Sample.holding m w).
Proof.
  intros Hm Hw k m' ttl. unfold Sample.holding. cbn.
  destruct (decide (k = message_key (id m))) as [->|Hne].
  - rewrite lookup_insert_eq. now intros [= <- <-].
  - rewrite lookup_insert_ne by congruence. apply Hw.
Qed.

Lemma budget_steady : budget_respected Sample.steady.
Proof. intros k m ttl H. cbn in H. now rewrite lookup_empty in H. Qed.

Lemma retryMessage_respects_budget_witness :
  budget_respected
    (snd (retryMessage "dlq-1-abc" (Sample.holding Sample.parked Sample.steady))).
Proof.
  refine (proj1 (retryMessage_respects_budget "dlq-1-abc"
                   (Sample.holding Sample.parked Sample.steady) _)).
  apply budget_holding; [cbn; lia|apply budget_steady].
Defined.

End BudgetFacts.

Section ParkMore.
Import DeadLetterQueue.

Ltac step := cbn -[lookup insert delete message_key pretty String.append Z.mul].

Ltac frame_flags :=
  repeat first
    [ apply preserves_ret | apply preserves_throw | apply preserves_gets
    | apply preserves_bind; [|intros ?]
    | apply preserves_try_catch; [|intros ?]
    | apply preserves_if
    | apply io_call_keeps; reflexivity
    | apply Date_now_keeps; reflexivity
    | apply Math_random36_keeps; reflexivity
    | apply preserves_modify; reflexivity ].

Lemma bind_frame {A B X} (f : World -> X) (m : M World A) (k : A -> M World B) w :
  (forall a, preserves f (k a)) -> f (snd (bind m k w)) = f (snd (m w)).
Proof.
  intros Hk. unfold bind. destruct (m w) as [[a|e] w1]; cbn [snd]; [apply Hk|reflexivity].
Qed.

Lemma try_catch_frame {A X} (f : World -> X) (m : M World A) h w :
  (forall e, preserves f (h e)) -> f (snd (try_catch m h w)) = f (snd (m w)).
Proof.
  intros Hh. unfold try_catch. destruct (m w) as [[a|e] w1]; cbn [snd]; [reflexivity|apply Hh].
Qed.

Lemma park_channel om rk err rc inst w :
  dlq_channel (snd (sendToDeadLetterQueue om rk err rc inst w))
  = dlq_channel (snd (connect w)).
Proof.
  unfold sendToDeadLetterQueue.
  rewrite (try_catch_frame dlq_channel) by (intros e; apply preserves_ret).
  apply bind_frame. intros [].
  unfold saveDLQMessageToRedis, channel_publish, generateMessageId, RedisClient.set, effect.
  frame_flags.
Qed.

(** X16. Park, then retry.  A message parked with fewer than three
    retries can be read back under the id it was given, and a retry of that
    id (the store and the broker answering) publishes the original payload
    to [baileys.events] under the original routing key and answers
    [true]. *)
Theorem parked_record_can_be_retried om rk err rc inst w w1 :
  connect w = (Ok tt, w1) ->
  responds w1 (calls w1) = true ->
  rc < 3 ->
  let record := parked_record w1 om rk err rc inst in
  let w' := snd (sendToDeadLetterQueue om rk err rc inst w) in
  responds w' (calls w') = true ->
  responds w' (S (calls w')) = true ->
  io w' (S (S (calls w'))) = IoOk ->
  fst (getDLQMessageFromRedis (id record) w') = Ok (Some record)
  /\ fst (retryMessage (id record) w') = Ok true
  /\ log (snd (retryMessage (id record) w'))
     = (log w' ++ [Publish "baileys.events" rk (Bytes (om_json om))
                     (retry_options w' record (id record)) true])%list.
Proof.
  intros Hc Hset Hrc record w' Hget Hsave Hpub.
  destruct (sendToDeadLetterQueue_stored om rk err rc inst w w1 Hc Hset) as (Hkv & _).
  fold record w' in Hkv.
  assert (Hlook : kv w' !! message_key (id record) = Some (record, Some 604800)).
  { rewrite Hkv. apply lookup_insert_eq. }
  assert (Hch : dlq_channel w' = true).
  { unfold w'. rewrite park_channel, Hc. exact (connect_ok_channel w w1 Hc). }
  split.
  - clear Hkv. revert Hlook. generalize (id record). intros mid Hlook.
    unfold getDLQMessageFromRedis, RedisClient.get, bind, io_call, gets.
    unfold responds in Hget. destruct (io w' (calls w')); try discriminate;
      cbn -[message_key lookup Z.mul]; now rewrite Hlook.
  - pose proof (retryMessage_published w' (id record) record (Some 604800) Hlook) as H.
    rewrite Hpub in H. apply H; assumption.
Qed.

Lemma parked_record_can_be_retried_witness :
  let om := mkOriginal None "{'to':'5511'}" in
  let w' := snd (sendToDeadLetterQueue om "instance.create" "TIMEOUT" 0 None Sample.steady) in
  fst (retryMessage "dlq-1793664000000-k3x9q" w') = Ok true.
Proof.
  intros om w'.
  refine (proj1 (proj2 (parked_record_can_be_retried om "instance.create" "TIMEOUT" 0 None
                          Sample.steady Sample.steady eq_refl eq_refl _ _ _ _))).
  - lia.
  - vm_compute. reflexivity.
  - vm_compute. reflexivity.
  - vm_compute. reflexivity.
Defined.

Lemma returned {S A} (r : Res A * S) a : fst r = Ok a -> r = (Ok a, snd r).
Proof. destruct r as [x s]. cbn. now intros ->. Qed.

(** Flags after a [connect] that returned. *)
Lemma connect_ok_flags w w1 :
  connect w = (Ok tt, w1) ->
  dlq_connection w1 = true /\ dlq_channel w1 = true /\ redis_open w1 = true.
Proof.
  intros H. split; [|split; [exact (connect_ok_channel w w1 H)|]].
  - revert H. unfold connect. rewrite try_catch_rethrow. intros H.
    apply bind_ok in H as (conn & w0 & Hg & H).
    unfold gets in Hg. injection Hg as Hconn Hw0. subst conn w0.
    apply bind_ok in H as (u1 & wa & Ha & H).
    assert (Hwa : dlq_connection wa = true).
    { destruct (dlq_connection w) eqn:E; cbn [negb] in Ha.
      - unfold ret in Ha. injection Ha as _ <-. exact E.
      - apply bind_ok in Ha as (b & w2 & _ & Ha). unfold modify in Ha.
        injection Ha as _ <-. reflexivity. }
    replace w1 with (snd ((ch <- gets dlq_channel ;;
              (if negb ch
               then io_call ;;;
                    modify (fun w => with_flags (dlq_connection w) true (redis_open w) w) ;;;
                    setupDLQInfrastructure
               else ret tt) ;;; RedisClient.connect) wa)) by now rewrite H.
    rewrite <- Hwa.
    unfold setupDLQInfrastructure, RedisClient.connect, effect. frame_flags.
  - revert H. unfold connect. rewrite try_catch_rethrow. intros H.
    apply bind_ok in H as (conn & w0 & _ & H).
    apply bind_ok in H as (u1 & wa & _ & H).
    apply bind_ok in H as (ch & wb & _ & H).
    apply bind_ok in H as (u2 & wc & _ & H).
    unfold RedisClient.connect in H.
    apply bind_ok in H as (ro & wd & Hg & H).
    unfold gets in Hg. injection Hg as Hro Hwd. subst ro wd.
    destruct (redis_open wc) eqn:E; cbn [negb] in H.
    + unfold ret in H. injection H as <-. exact E.
    + apply bind_ok in H as (b & w2 & _ & H). unfold modify in H.
      injection H as <-. reflexivity.
Qed.

(** X17. [connect] is idempotent: after a [connect] that returned, the
    connection, the channel and the Redis client are up, and another
    [connect] makes no call and changes nothing. *)
Theorem connect_idempotent w w1 :
  connect w = (Ok tt, w1) ->
  (dlq_connection w1 = true /\ dlq_channel w1 = true /\ redis_open w1 = true)
  /\ connect w1 = (Ok tt, w1).
Proof.
  intros H. pose proof (connect_ok_flags w w1 H) as Hflags.
  split; [exact Hflags|]. destruct Hflags as (Hc & Hch & Hr).
  unfold connect, RedisClient.connect, try_catch, bind, gets, ret.
  cbn beta iota. rewrite Hc. cbn [negb]. rewrite Hch. cbn [negb]. now rewrite Hr.
Qed.

Lemma connect_idempotent_witness :
  let down := with_flags false false false Sample.steady in
  connect (snd (connect down)) = (Ok tt, snd (connect down)).
Proof.
  intros down.
  assert (H : fst (connect down) = Ok tt) by (vm_compute; reflexivity).
  exact (proj2 (connect_idempotent down (snd (connect down)) (returned _ _ H))).
Defined.

(** X18. A park whose write to the store throws is lost without a
    trace: [sendToDeadLetterQueue] returns normally, and the message is
    neither stored nor published. *)
Theorem park_save_failure_is_silent om rk err rc inst w w1 e :
  connect w = (Ok tt, w1) ->
  io w1 (calls w1) = IoThrow e ->
  fst (sendToDeadLetterQueue om rk err rc inst w) = Ok tt
  /\ kv (snd (sendToDeadLetterQueue om rk err rc inst w)) = kv w
  /\ log (snd (sendToDeadLetterQueue om rk err rc inst w)) = log w1.
Proof.
  intros Hc Hio.
  assert (Hkv : kv w1 = kv w).
  { replace w1 with (snd (connect w)) by now rewrite Hc.
    apply connect_keeps; reflexivity. }
  unfold sendToDeadLetterQueue, try_catch, bind. rewrite Hc.
  unfold saveDLQMessageToRedis, generateMessageId, RedisClient.set,
    bind, ret, throw, gets, modify, io_call, Date_now, Math_random36.
  step. rewrite Hio. step. rewrite <- Hkv. repeat split.
Qed.

Lemma park_save_failure_is_silent_witness :
  let w := Sample.with_io (Sample.failing_at 0) Sample.steady in
  let w' := snd (sendToDeadLetterQueue (mkOriginal None "{'to':'5511'}")
                   "instance.create" "TIMEOUT" 0 None w) in
  kv w' = ∅ /\ log w' = [].
Proof.
  intros w w'.
  exact (proj2 (park_save_failure_is_silent (mkOriginal None "{'to':'5511'}")
                  "instance.create" "TIMEOUT" 0 None w w Sample.channel_closed
                  eq_refl eq_refl)).
Defined.

End ParkMore.

(** ** DLQManager *)

Section SweepMore.
Import DLQManager.

Lemma discardMessage_kv m w :
  kv (snd (discardMessage m w)) = kv w
  \/ kv (snd (discardMessage m w)) = delete (DeadLetterQueue.message_key (id m)) (kv w).
Proof.
  unfold discardMessage, archiveMessage, RedisClient.lpush, RedisClient.expire, RedisClient.del,
    try_catch, bind, ret, throw, gets, modify, io_call, Date_now.
  cbn -[lookup insert delete DeadLetterQueue.message_key pretty String.append Z.mul isoDate].
  destruct (io w (calls w));
    cbn -[lookup insert delete DeadLetterQueue.message_key pretty String.append Z.mul isoDate];
    (destruct (io w (S (calls w)));
     cbn -[lookup insert delete DeadLetterQueue.message_key pretty String.append Z.mul isoDate]);
    try (destruct (io w (S (S (calls w))));
         cbn -[lookup insert delete DeadLetterQueue.message_key pretty String.append Z.mul isoDate]);
    (now left) || (now right).
Qed.

Lemma discardMessage_keeps_log m : preserves log (discardMessage m).
Proof.
  unfold discardMessage, archiveMessage, RedisClient.lpush, RedisClient.expire, RedisClient.del.
  repeat first [ apply preserves_ret | apply preserves_gets
               | apply preserves_bind; [|intros ?]
               | apply preserves_try_catch; [|intros ?]
               | apply io_call_keeps; reflexivity
               | apply Date_now_keeps; reflexivity
               | apply preserves_modify; reflexivity ].
Qed.

Lemma budget_delete k w w' :
  budget_respected w -> kv w' = delete k (kv w) -> budget_respected w'.
Proof.
  intros Hinv Hkv k' m ttl. rewrite Hkv. intros H.
  apply lookup_delete_Some in H as (_ & H). exact (Hinv _ _ _ H).
Qed.

Lemma budget_same w w' :
  budget_respected w -> kv w' = kv w -> budget_respected w'.
Proof. intros Hinv Hkv k m ttl. rewrite Hkv. apply Hinv. Qed.

(** One record of the sweep: the answer is always a count, with the
    record counted once as processed and once as retried, failed or
    discarded. *)
Lemma process_one_counts m s w :
  exists s',
    fst (process_one m s w) = Ok s'
    /\ processed s' = processed s + 1
    /\ retried s' + failed s' + discarded s' = retried s + failed s + discarded s + 1.
Proof.
  unfold process_one, try_catch, bind.
  destruct (shouldRetryMessage m w) as [[[|]|e] w1].
  - destruct (DeadLetterQueue.retryMessage (id m) w1) as [[[|]|e] w2];
      eexists; (split; [reflexivity|]); cbn; lia.
  - destruct (discardMessage m w1) as [[[]|e] w2];
      eexists; (split; [reflexivity|]); cbn; lia.
  - eexists; (split; [reflexivity|]); cbn; lia.
Qed.

Lemma process_one_respects_budget m s w :
  budget_respected w -> budget_respected (snd (process_one m s w)).
Proof.
  intros Hinv. destruct (shouldRetryMessage_decision m w) as (_ & _ & Hkv & _).
  unfold process_one, try_catch, bind.
  destruct (shouldRetryMessage m w) as [[[|]|e] w1]; cbn [fst snd] in *.
  - pose proof (retryMessage_budget (id m) w1 (budget_same _ _ Hinv Hkv)) as H.
    destruct (DeadLetterQueue.retryMessage (id m) w1) as [[[|]|e] w2]; exact H.
  - pose proof (discardMessage_kv m w1) as H.
    destruct (discardMessage m w1) as [[[]|e] w2]; unfold ret; cbn [fst snd] in *.
    all: destruct H as [H|H];
      [ apply (budget_same w); [exact Hinv|now rewrite H]
      | apply (budget_delete (DeadLetterQueue.message_key (id m)) w);
        [exact Hinv|now rewrite H, Hkv] ].
  - unfold ret. cbn [snd]. now apply (budget_same w).
Qed.

(** X19. The sweep accounts for every record.  Over any list of records
    and whatever the store and the broker do, the loop returns; every
    record is counted once as processed and once as retried, failed or
    discarded; and no stored record is taken over its retry budget. *)
Theorem sweep_counts_and_budget ms :
  forall s w,
    exists s',
      fst (process_all ms s w) = Ok s'
      /\ processed s' = processed s + Z.of_nat (length ms)
      /\ retried s' + failed s' + discarded s'
         = retried s + failed s + discarded s + Z.of_nat (length ms)
      /\ (budget_respected w -> budget_respected (snd (process_all ms s w))).
Proof.
  induction ms as [|m ms IH]; intros s w.
  - exists s. cbn. repeat split; try lia. auto.
  - cbn [process_all]. unfold bind.
    destruct (process_one_counts m s w) as (s1 & H1 & Hp & Hsum).
    pose proof (process_one_respects_budget m s w) as Hb.
    destruct (process_one m s w) as [r w1]. cbn [fst snd] in *. subst r.
    destruct (IH s1 w1) as (s' & H' & Hp' & Hsum' & Hb').
    exists s'. split; [exact H'|]. cbn [length]. rewrite Nat2Z.inj_succ.
    repeat split; try lia. intros Hw. apply Hb', Hb, Hw.
Qed.

(** X20. A record out of retries is never republished: the sweep makes no
    broker call for it, whatever its error and its age, and counts it as
    discarded. *)
Theorem exhausted_record_never_republished m s w :
  maxRetries m <= retryCount m ->
  log (snd (process_one m s w)) = log w
  /\ (fst (process_one m s w) = Ok (bump_discarded (bump_processed s))).
Proof.
  intros Hmax. apply Z.leb_le in Hmax.
  unfold process_one, try_catch, bind, shouldRetryMessage. rewrite Hmax.
  unfold ret. cbn beta iota.
  pose proof (discardMessage_keeps_log m w) as Hlog.
  assert (Hok : fst (discardMessage m w) = Ok tt).
  { unfold discardMessage, try_catch.
    destruct (bind _ _ w) as [[[]|e] w2]; reflexivity. }
  destruct (discardMessage m w) as [[[]|e] w2]; cbn [fst snd] in *; try discriminate.
  unfold ret. cbn [fst snd]. split; [exact Hlog|reflexivity].
Qed.

Lemma exhausted_record_never_republished_witness :
  log (snd (process_one Sample.exhausted (mkStats 0 0 0 0)
              (Sample.holding Sample.exhausted Sample.steady))) = [].
Proof.
  refine (proj1 (exhausted_record_never_republished Sample.exhausted (mkStats 0 0 0 0)
                   (Sample.holding Sample.exhausted Sample.steady) _)).
  cbn. lia.
Defined.

End SweepMore.

(** ** RedisConsumer and MessageBridge *)

Section RelayMore.
Import RedisConsumer.

Variable valid_json : string -> bool.

Lemma truthy_or_empty f :
  field_survives f -> truthy_or_undefined (or_empty f) = f.
Proof.
  unfold field_survives. destruct f as [[|c s]|]; cbn; congruence.
Qed.

(** X21. Round trip through the stream.  An event whose optional text
    fields are not the empty string, whose media description (if any) and
    original message are truthy values written as non-empty valid JSON, is
    decoded from the entry [addMessageToStream] writes for it as it was
    (objects by their JSON text, the timestamp by its ISO text).  An
    original message that is [null], [false], [0] or the empty string is
    written as the empty text, as a missing one is. *)
Theorem decode_streamData ev j w :
  originalMessage ev = Some j ->
  (field_survives (toUser ev) ->
   field_survives (ev_content ev) ->
   value_survives valid_json (mediaInfo ev) ->
   value_survives valid_json (Some j) ->
   decode valid_json (streamData ev) w = (Ok ev, w))
  /\ (Js.truthy_json j = false -> d_originalMessage (streamData ev) = "").
Proof.
  intros Hor. split.
  - intros Hto Hco Hme (Hval & Htr & Hva).
    destruct ev as [sid mid fu tu ts mt co me om ets eid]. cbn in *. subst om.
    unfold decode, streamData, JSON_parse, bind, ret. cbn.
    rewrite Hval, Hva, (truthy_or_empty _ Hto), (truthy_or_empty _ Hco).
    destruct me as [m|]; cbn.
    + destruct Hme as (Hm0 & Hm1 & Hm2). now rewrite Hm0, Hm1, Hm2.
    + reflexivity.
  - intros Hf. unfold streamData. cbn. now rewrite Hor, Hf.
Qed.

(** X22. An event without an original message is dropped.  Its entry
    carries the empty string; when [JSON.parse] rejects the empty string,
    the entry is acked and the storage callback, whatever it is, is never
    called. *)
Theorem event_without_original_is_dropped cb ev sid w :
  valid_json "" = false ->
  originalMessage ev = None ->
  json_survives valid_json (mediaInfo ev) ->
  rc_client w = true ->
  responds w (calls w) = true ->
  processMessage valid_json cb (mkStreamMessage sid (streamData ev)) w
  = (Ok tt, emit (XAck streamName consumerGroup sid) (called w)).
Proof.
  intros He Hor Hme Hc Hr.
  apply (processMessage_undecodable valid_json cb (mkStreamMessage sid (streamData ev))
           (Error "Unexpected end of JSON input")); try assumption.
  destruct ev as [s m fu tu ts mt co me om ets eid]. cbn in *. subst om.
  unfold decode, streamData, JSON_parse, bind, ret, throw. cbn. rewrite He.
  destruct me as [j|]; cbn; [|reflexivity].
  destruct Hme as (H1 & H2).
  destruct (Js.truthy_json j); cbn; [now rewrite H1, H2|reflexivity].
Qed.

(** X23. [processMessage] never throws, whatever the entry, the callback
    and the store do: the read loop is never interrupted by an entry. *)
Theorem processMessage_never_throws cb entry w :
  fst (processMessage valid_json cb entry w) = Ok tt.
Proof.
  unfold processMessage. unfold try_catch at 1.
  match goal with |- context [match ?m w with _ => _ end] => destruct (m w) as [[[]|e] w1] end.
  - reflexivity.
  - unfold try_catch, xAck, bind, gets, io_call, effect, modify, ret.
    destruct (rc_client w1); [destruct (io w1 (calls w1))|]; reflexivity.
Qed.

End RelayMore.

Section RelayMoreWitnesses.
Import RedisConsumer.

Lemma decode_streamData_witness :
  let nulled := mkEvent "s1" "m3" "5511@s.whatsapp.net" None "2026-11-03T00:00:02.000Z"
                        "text" (Some "oi") None (Some "null") "2026-11-03T00:00:02.000Z"
                        "e3" in
  decode Sample.is_json (streamData Sample.event) Sample.steady
  = (Ok Sample.event, Sample.steady)
  /\ d_originalMessage (streamData nulled) = "".
Proof.
  intros nulled. split.
  - refine (proj1 (decode_streamData Sample.is_json Sample.event Sample.original_json
                     Sample.steady eq_refl) _ _ _ _).
    + discriminate.
    + discriminate.
    + exact I.
    + repeat split.
  - exact (proj2 (decode_streamData Sample.is_json nulled "null" Sample.steady eq_refl)
                 eq_refl).
Defined.

Lemma event_without_original_is_dropped_witness :
  let bare := mkEvent "s1" "m2" "5511@s.whatsapp.net" None "2026-11-03T00:00:01.000Z"
                      "text" (Some "oi") None None "2026-11-03T00:00:01.000Z" "e2" in
  log (snd (processMessage Sample.nonempty (Some (fun _ => ret tt))
              (mkStreamMessage "1793664001000-0" (streamData bare)) Sample.steady))
  = [XAck "whatsapp:messages" "message-processors" "1793664001000-0"].
Proof.
  intros bare.
  rewrite (event_without_original_is_dropped Sample.nonempty (Some (fun _ => ret tt)) bare
             "1793664001000-0" Sample.steady eq_refl eq_refl I eq_refl eq_refl).
  reflexivity.
Defined.

(** [addMessageToStream] answers an id after exactly one XADD, or [null]
    with nothing written. *)
Lemma addMessageToStream_log ev w :
  match fst (addMessageToStream ev w) with
  | Ok (Some _) =>
      log (snd (addMessageToStream ev w))
      = (log w ++ [XAdd streamName (eventId ev)])%list
  | Ok None => log (snd (addMessageToStream ev w)) = log w
  | Throw _ => False
  end.
Proof.
  destruct (addMessageToStream ev w) as [[[sid|]|e] w1] eqn:H; cbn [fst snd].
  - exact (addMessageToStream_some ev w sid w1 H).
  - revert H. unfold addMessageToStream, try_catch, bind.
    pose proof (connect_keeps_log w) as Hlog.
    destruct (connect w) as [[[]|e] wc]; cbn [snd] in Hlog.
    + unfold gets. destruct (rc_client wc); cbn [negb].
      * unfold io_call. destruct (io wc (calls wc)); cbn; intros H;
          try discriminate; injection H as <-; cbn; exact Hlog.
      * cbn. intros H. injection H as <-. exact Hlog.
    + cbn. intros H. injection H as <-. exact Hlog.
  - revert H. unfold addMessageToStream, try_catch, bind.
    destruct (connect w) as [[[]|e'] wc]; [|discriminate].
    unfold gets. destruct (rc_client wc); cbn [negb]; [|discriminate].
    unfold io_call. destruct (io wc (calls wc)); cbn; discriminate.
Qed.

(** X24. [addMessageToStream] never throws.  It answers an id exactly
    when one XADD has been made, and [null] when the connection or the
    XADD failed, in which case nothing was written to the stream. *)
Theorem addMessageToStream_outcomes ev w :
  (exists r, fst (addMessageToStream ev w) = Ok r)
  /\ (forall sid, fst (addMessageToStream ev w) = Ok (Some sid) ->
                  log (snd (addMessageToStream ev w))
                  = (log w ++ [XAdd streamName (eventId ev)])%list)
  /\ (fst (addMessageToStream ev w) = Ok None ->
      log (snd (addMessageToStream ev w)) = log w).
Proof.
  pose proof (addMessageToStream_log ev w) as H.
  destruct (fst (addMessageToStream ev w)) as [[sid|]|e]; [| |contradiction].
  - split; [eauto|]. split; [intros _ _; exact H|discriminate].
  - split; [eauto|]. split; [discriminate|intros _; exact H].
Qed.

End RelayMoreWitnesses.

Section BridgeMore.
Import MessageBridge.

Variable parse_event : string -> option RedisConsumer.WhatsAppMessageEvent.

(** X25. The bridge settles every delivery, and the append plays no part
    in how: the callback returns; content that does not parse is nacked
    without requeue; content that parses is acked, after the XADD when
    there was one and all the same when the append failed. *)
Theorem bridge_settles_every_delivery msg w :
  let tag := UnifiedConsumer.deliveryTag msg in
  let w' := snd (on_delivery parse_event msg w) in
  fst (on_delivery parse_event msg w) = Ok tt
  /\ match parse_event (UnifiedConsumer.content msg) with
     | None => log w' = (log w ++ [Nack tag false false])%list
     | Some ev =>
         log w' = (log w ++ [XAdd RedisConsumer.streamName (RedisConsumer.eventId ev);
                             Ack tag])%list
         \/ log w' = (log w ++ [Ack tag])%list
     end.
Proof.
  intros tag w'. subst w'. unfold on_delivery, try_catch, bind.
  destruct (parse_event (UnifiedConsumer.content msg)) as [ev|]; cbn.
  - pose proof (addMessageToStream_log ev w) as H.
    destruct (RedisConsumer.addMessageToStream ev w) as [[[sid|]|e] w1];
      cbn [fst snd] in H; [| |contradiction]; cbn; rewrite H; split; auto.
    left. now rewrite <- app_assoc.
  - split; reflexivity.
Qed.

End BridgeMore.

(** ** SessionManager *)

Section SessionFacts.
Import SessionManager.

Variable clock : nat -> Z.

Ltac keeps_tac :=
  repeat first
    [ apply keeps_ret | apply keeps_throw | apply keeps_gets | apply keeps_read_property
    | apply keeps_bind; [|intros ?]
    | apply keeps_try_catch; [|intros ?]
    | apply keeps_if
    | (intros [? ?]; reflexivity)
    | match goal with
      | |- keeps _ (match ?x with _ => _ end) => destruct x
      end ].

(** Whatever path [sendMessage] takes, the limiter is left as the check
    at its start left it. *)
Lemma sendMessage_limiter sessionId to content mt s :
  limiter (snd (sendMessage clock sessionId to content mt s))
  = snd (RateLimiter.canSendMessage (reading clock s) (sessionId ++ ":" ++ to) content
           (limiter s)).
Proof.
  unfold sendMessage.
  rewrite (state_after_try limiter).
  2:{ intros e. unfold logMessage, set_env, Date_now, CircuitBreakerService.Date_now, modify.
      keeps_tac. }
  rewrite (state_after_bind limiter).
  2:{ intros r. unfold logMessage, set_env, Date_now, CircuitBreakerService.Date_now, env, modify.
      keeps_tac. }
  destruct s as [cb w].
  unfold canSendMessage, Date_now, CircuitBreakerService.Date_now, env, bind, gets,
    set_env, modify, ret, limiter, reading.
  cbn [fst snd CircuitBreakerService.ext CircuitBreakerService.ticks].
  destruct (RateLimiter.canSendMessage _ _ _ _) as [r rl]. reflexivity.
Qed.

(** A rejected check costs one clock reading and nothing else. *)
Lemma canSendMessage_rejected key content cb w :
  RateLimiter.allowed
    (fst (RateLimiter.canSendMessage (reading clock (cb, w)) key content (limiter (cb, w))))
  = false ->
  canSendMessage clock key content (cb, w)
  = (Ok (fst (RateLimiter.canSendMessage (reading clock (cb, w)) key content
                (limiter (cb, w)))),
     (cb, CircuitBreakerService.later 1 w)).
Proof.
  intros H. pose proof (canSend_rejected_same _ _ _ _ H) as Hsame.
  unfold canSendMessage, Date_now, CircuitBreakerService.Date_now, env, bind, gets,
    set_env, modify, ret, limiter, reading in *.
  cbn [fst snd CircuitBreakerService.ext CircuitBreakerService.ticks] in *.
  destruct (RateLimiter.canSendMessage _ _ _ _) as [r rl]. cbn [fst snd] in *. subst rl.
  destruct w as [n [rl0 a so se ml]]. reflexivity.
Qed.

(** A check leaves the verdict's limiter behind. *)
Lemma canSendMessage_allowed key content cb w :
  canSendMessage clock key content (cb, w)
  = (Ok (fst (RateLimiter.canSendMessage (reading clock (cb, w)) key content
                (limiter (cb, w)))),
     (cb, CircuitBreakerService.mkWorld (S (CircuitBreakerService.ticks w))
            (with_limiter
               (snd (RateLimiter.canSendMessage (reading clock (cb, w)) key content
                       (limiter (cb, w))))
               (CircuitBreakerService.ext w)))).
Proof.
  unfold canSendMessage, Date_now, CircuitBreakerService.Date_now, env, bind, gets,
    set_env, modify, ret, limiter, reading.
  cbn [fst snd CircuitBreakerService.ext CircuitBreakerService.ticks].
  destruct (RateLimiter.canSendMessage _ _ _ _) as [r rl]. reflexivity.
Qed.

(** The key of the session is never the key of one of its recipients. *)
Lemma key_differs (s t : string) : s <> s ++ ":" ++ t.
Proof.
  induction s as [|c s IH]; [discriminate|].
  intros H. injection H as H. now apply IH.
Qed.

(** X26. A send the rate limiter rejects returns RATE_LIMIT_EXCEEDED and
    reaches neither the session table, nor the breaker, nor the socket,
    nor the message log: the state differs by one clock reading. *)
Theorem rate_limited_send_reaches_nothing sessionId to content mt cb w :
  let verdict :=
    fst (RateLimiter.canSendMessage (reading clock (cb, w)) (sessionId ++ ":" ++ to)
           content (limiter (cb, w))) in
  RateLimiter.allowed verdict = false ->
  sendMessage clock sessionId to content mt (cb, w)
  = (Ok (RateLimitExceeded (RateLimiter.reason verdict) (RateLimiter.retryAfter verdict)
                           (RateLimiter.timeRemaining verdict)),
     (cb, CircuitBreakerService.later 1 w)).
Proof.
  intros verdict H. unfold sendMessage, try_catch. unfold bind at 1.
  rewrite (canSendMessage_rejected _ _ _ _ H). fold verdict. now rewrite H.
Qed.

(** X27. Whatever becomes of a send that passed the rate limiter (sent,
    session missing, breaker open, socket error), the same content to the
    same recipient within the window is answered RATE_LIMIT_EXCEEDED as a
    duplicate, without reaching the breaker or the socket: a failed send
    cannot be repeated before the window is over. *)
Theorem allowed_send_blocks_its_repeat sessionId to content mt mt' st :
  let key := sessionId ++ ":" ++ to in
  let st' := snd (sendMessage clock sessionId to content mt st) in
  let remaining := RateLimiter.RATE_LIMIT_WINDOW (limiter st)
                   - (reading clock st' - reading clock st) in
  RateLimiter.allowed
    (fst (RateLimiter.canSendMessage (reading clock st) key content (limiter st))) = true ->
  reading clock st' - reading clock st < RateLimiter.RATE_LIMIT_WINDOW (limiter st) ->
  sendMessage clock sessionId to content mt' st'
  = (Ok (RateLimitExceeded (Some RateLimiter.DUPLICATE) (Some remaining) (Some remaining)),
     (fst st', CircuitBreakerService.later 1 (snd st'))).
Proof.
  intros key st' remaining Hall Hwin.
  pose proof (sendMessage_limiter sessionId to content mt st) as Hlim.
  fold st' key in Hlim.
  destruct (canSend_allowed_entry _ _ _ _ Hall) as (n & Hn & _).
  destruct (canSend_constants (limiter st) (reading clock st) key content) as (HW & _).
  rewrite <- Hlim in Hn, HW.
  assert (Hv : RateLimiter.canSendMessage (reading clock st') key content (limiter st')
               = (RateLimiter.rejected RateLimiter.DUPLICATE remaining, limiter st')).
  { unfold remaining. rewrite <- HW.
    apply (canSend_duplicate (limiter st') (reading clock st') key content _ Hn);
      cbn; [lia|reflexivity]. }
  clearbody st'. destruct st' as [cb' w']. subst key.
  unfold sendMessage, try_catch. unfold bind at 1.
  rewrite canSendMessage_rejected; rewrite Hv; reflexivity.
Qed.

(** X28. A send to a session that is not active passes the rate limiter
    first: it throws, the breaker and the socket are not reached, one error
    entry is logged, and the limiter has recorded the message. *)
Theorem missing_session_fails_after_gate sessionId to content mt cb w :
  let verdict :=
    RateLimiter.canSendMessage (reading clock (cb, w)) (sessionId ++ ":" ++ to)
      content (limiter (cb, w)) in
  let error := Error ("Sessão " ++ sessionId ++ " não encontrada") in
  let r := sendMessage clock sessionId to content mt (cb, w) in
  RateLimiter.allowed (fst verdict) = true ->
  activeSessions (CircuitBreakerService.ext w) !! sessionId = None ->
  fst r = Throw error
  /\ fst (snd r) = cb
  /\ limiter (snd r) = snd verdict
  /\ sends (CircuitBreakerService.ext (snd (snd r))) = sends (CircuitBreakerService.ext w)
  /\ messageLog (CircuitBreakerService.ext (snd (snd r)))
     = (messageLog (CircuitBreakerService.ext w)
        ++ [mkLogEntry (clock (S (CircuitBreakerService.ticks w))) sessionId
              ("error_" ++ pretty (clock (S (S (CircuitBreakerService.ticks w)))))
              "unknown" to mt content "error" (err_message error)])%list.
Proof.
  intros verdict error r Hall Hs.
  assert (Hr : r = (Throw error,
                    (cb, CircuitBreakerService.mkWorld (3 + CircuitBreakerService.ticks w)
                           (with_entry
                              (mkLogEntry (clock (S (CircuitBreakerService.ticks w))) sessionId
                                 ("error_" ++ pretty (clock (S (S (CircuitBreakerService.ticks w)))))
                                 "unknown" to mt content "error" (err_message error))
                              (with_limiter (snd verdict) (CircuitBreakerService.ext w)))))).
  { subst r. unfold sendMessage, try_catch. unfold bind at 1.
    rewrite canSendMessage_allowed. fold verdict. rewrite Hall. cbn [negb].
    unfold bind at 1. unfold env at 1, gets. cbn [fst snd CircuitBreakerService.ext].
    cbn [with_limiter activeSessions]. rewrite Hs.
    unfold throw at 1. cbn beta iota.
    unfold logMessage, set_env, Date_now, CircuitBreakerService.Date_now, bind, modify, throw.
    reflexivity. }
  rewrite Hr. repeat split; reflexivity.
Qed.

(** X29. [sendMessageWithRateLimit] checks the limiter with the session id
    as key and the recipient as content.  With at most one message per
    window (and stored counts of at least 1, as the limiter keeps them),
    once a call of a session has passed that check, be it the first of the
    session or one made after a window has run out, every other call of the
    session within the window is blocked, whoever the recipient and
    whatever the text: as a duplicate for the same recipient, as over the
    limit for another one.  Nothing but the clock is touched. *)
Theorem session_gate_blocks_within_window sessionId to1 m1 to2 m2 st :
  let st1 := snd (sendMessageWithRateLimit clock sessionId to1 m1 st) in
  let remaining := RateLimiter.RATE_LIMIT_WINDOW (limiter st)
                   - (reading clock st1 - reading clock st) in
  RateLimiter.allowed
    (fst (RateLimiter.canSendMessage (reading clock st) sessionId to1 (limiter st))) = true ->
  (forall e, RateLimiter.rateLimitMap (limiter st) !! sessionId = Some e ->
             1 <= RateLimiter.messageCount e) ->
  RateLimiter.MAX_MESSAGES_PER_WINDOW (limiter st) <= 1 ->
  reading clock st1 - reading clock st < RateLimiter.RATE_LIMIT_WINDOW (limiter st) ->
  sendMessageWithRateLimit clock sessionId to2 m2 st1
  = (Ok (Blocked (Some (if String.eqb to1 to2 then "Mensagem duplicada detectada"
                        else "Limite de mensagens atingido"))
                 (Some remaining)),
     (fst st1, CircuitBreakerService.later 1 (snd st1))).
Proof.
  intros st1 remaining Hall Hcounts Hmax Hwin.
  destruct (canSend_allowed_entry _ _ _ _ Hall) as (n & Hn & Hcount).
  destruct (canSend_constants (limiter st) (reading clock st) sessionId to1) as (HW0 & HM0).
  assert (Hentry : RateLimiter.rateLimitMap (limiter st1) !! sessionId
                   = Some (RateLimiter.mkEntry (reading clock st) n to1)
                   /\ RateLimiter.RATE_LIMIT_WINDOW (limiter st1)
                      = RateLimiter.RATE_LIMIT_WINDOW (limiter st)
                   /\ RateLimiter.MAX_MESSAGES_PER_WINDOW (limiter st1)
                      = RateLimiter.MAX_MESSAGES_PER_WINDOW (limiter st)).
  { subst st1. clear remaining Hwin. destruct st as [cb w].
    unfold sendMessageWithRateLimit. unfold bind at 1 2 3.
    rewrite canSendMessage_allowed. cbn [fst snd]. rewrite Hall. cbn [negb].
    rewrite sendMessage_limiter.
    match goal with
    | |- context [RateLimiter.canSendMessage ?t ?k ?c ?rl] =>
        lazymatch k with
        | (_ ++ _)%string =>
            destruct (canSend_constants rl t k c) as (HW & HM);
            rewrite HW, HM;
            rewrite (canSend_other_keys rl t k c sessionId (key_differs sessionId to1))
        end
    end.
    split; [exact Hn|]. split; [exact HW0|exact HM0]. }
  destruct Hentry as (Hentry & HW & HM).
  assert (Hv : RateLimiter.canSendMessage (reading clock st1) sessionId to2 (limiter st1)
               = (RateLimiter.mkResult false
                    (Some (if String.eqb to1 to2 then "Mensagem duplicada detectada"
                           else "Limite de mensagens atingido"))
                    (Some remaining) (Some remaining), limiter st1)).
  { unfold remaining. rewrite <- HW.
    destruct (String.eqb to1 to2) eqn:E.
    - apply String.eqb_eq in E.
      apply (canSend_duplicate (limiter st1) (reading clock st1) sessionId to2 _ Hentry);
        cbn; [lia|assumption].
    - apply String.eqb_neq in E.
      apply (canSend_limited (limiter st1) (reading clock st1) sessionId to2 _ Hentry);
        cbn; [lia|assumption|].
      rewrite HM. destruct Hcount as [->|(e & He & ->)]; [lia|].
      specialize (Hcounts _ He). lia. }
  clearbody st1. destruct st1 as [cb1 w1].
  unfold sendMessageWithRateLimit. unfold bind at 1.
  rewrite canSendMessage_rejected; rewrite Hv; reflexivity.
Qed.

(** X30. [resetRateLimit(sessionId, recipient)] frees the key
    [sessionId:recipient] that [sendMessage] checks, for any content, and
    leaves alone the key [sessionId] that [sendMessageWithRateLimit] checks
    first. *)
Theorem resetRateLimit_frees_recipient_only sessionId recipient content now st :
  let st' := snd (resetRateLimit sessionId recipient st) in
  RateLimiter.allowed
    (fst (RateLimiter.canSendMessage now (sessionId ++ ":" ++ recipient) content
            (limiter st'))) = true
  /\ RateLimiter.rateLimitMap (limiter st') !! sessionId
     = RateLimiter.rateLimitMap (limiter st) !! sessionId.
Proof.
  destruct st as [cb w]. cbn. split.
  - rewrite canSend_absent; [reflexivity|]. cbn. apply lookup_delete_eq.
  - apply lookup_delete_ne. intros H. symmetry in H. now apply key_differs in H.
Qed.

End SessionFacts.

Section SessionWitnesses.
Import SessionManager.



Lemma rate_limited_send_reaches_nothing_witness :
  let st1 := snd (sendMessage CircuitBreakerService.second_clock "s1" "5511" "oi" "text" fresh) in
  fst (sendMessage CircuitBreakerService.second_clock "s1" "5511" "oi" "text" (fst st1, snd st1))
  = Ok (RateLimitExceeded (Some RateLimiter.DUPLICATE) (Some 27000) (Some 27000)).
Proof.
  intros st1.
  rewrite (rate_limited_send_reaches_nothing CircuitBreakerService.second_clock "s1" "5511" "oi" "text"
             (fst st1) (snd st1) eq_refl).
  reflexivity.
Defined.

Lemma allowed_send_blocks_its_repeat_witness :
  let st1 := snd (sendMessage CircuitBreakerService.second_clock "s2" "5511" "oi" "text" fresh) in
  fst (sendMessage CircuitBreakerService.second_clock "s2" "5511" "oi" "text" fresh)
  = Throw (Error "Sessão s2 não encontrada")
  /\ fst (sendMessage CircuitBreakerService.second_clock "s2" "5511" "oi" "text" st1)
     = Ok (RateLimitExceeded (Some RateLimiter.DUPLICATE) (Some 27000) (Some 27000)).
Proof.
  intros st1. split; [reflexivity|]. subst st1.
  rewrite (allowed_send_blocks_its_repeat CircuitBreakerService.second_clock "s2" "5511" "oi" "text" "text" fresh
             eq_refl eq_refl).
  reflexivity.
Defined.

Lemma missing_session_fails_after_gate_witness :
  fst (sendMessage CircuitBreakerService.second_clock "s2" "5511" "oi" "text" fresh)
  = Throw (Error "Sessão s2 não encontrada")
  /\ fst (snd (sendMessage CircuitBreakerService.second_clock "s2" "5511" "oi" "text" fresh))
     = sendMessageCircuitBreaker.
Proof.
  destruct (missing_session_fails_after_gate CircuitBreakerService.second_clock "s2" "5511" "oi" "text"
              sendMessageCircuitBreaker (CircuitBreakerService.mkWorld 0 quiet)
              eq_refl eq_refl) as (Hthrow & Hcb & _).
  split; assumption.
Defined.

(** With a clock that jumps a minute ahead after its fourth reading, the
    second call passes after the window of the first has run out. *)
Lemma session_gate_blocks_within_window_witness :
  let clock := fun n => if (n <? 4)%nat then 1000 * Z.of_nat n
                        else 60000 + 1000 * Z.of_nat n in
  let st1 := snd (sendMessageWithRateLimit clock "s1" "5511" "oi" fresh) in
  let st2 := snd (sendMessageWithRateLimit clock "s1" "5511" "oi" st1) in
  RateLimiter.rateLimitMap (limiter st1) !! "s1" = Some (RateLimiter.mkEntry 0 1 "5511")
  /\ reading clock st1 = 64000
  /\ fst (sendMessageWithRateLimit clock "s1" "5522" "bom dia" st2)
     = Ok (Blocked (Some "Limite de mensagens atingido") (Some 26000))
  /\ fst (sendMessageWithRateLimit clock "s1" "5511" "bom dia" st2)
     = Ok (Blocked (Some "Mensagem duplicada detectada") (Some 26000)).
Proof.
  intros clock st1 st2.
  split; [vm_compute; reflexivity|]. split; [vm_compute; reflexivity|].
  split.
  - subst st2.
    rewrite (session_gate_blocks_within_window clock "s1" "5511" "oi" "5522" "bom dia" st1).
    + vm_compute. reflexivity.
    + vm_compute. reflexivity.
    + intros e He. vm_compute in He. injection He as <-. cbn. lia.
    + vm_compute. discriminate.
    + vm_compute. reflexivity.
  - subst st2.
    rewrite (session_gate_blocks_within_window clock "s1" "5511" "oi" "5511" "bom dia" st1).
    + vm_compute. reflexivity.
    + vm_compute. reflexivity.
    + intros e He. vm_compute in He. injection He as <-. cbn. lia.
    + vm_compute. discriminate.
    + vm_compute. reflexivity.
Defined.

End SessionWitnesses.
